(** * Virtual try-on pipeline: shallow embedding and verified properties

    The repository holds two releases of the same application.  The
    credential-gated one ("v3.0", module [Gated] for its service file
    [src/unnamed/part_001] and [GatedApp] for [src/App.tsx]) asks the user
    to select an API key; the free one ("v2.5", module [Free] for its
    service file [src/unnamed/part_002] and [FreeApp] for
    [src/unnamed/part_000]) does not.  Functions whose text is the same in
    both releases are embedded once.

    Conventions of the embedding.
    - JavaScript strings are byte strings ([string], UTF-8).  Substring
      search with an ASCII needle is the same on both encodings.
      [toUpperCase] upper-cases the ASCII letters and expands the
      characters outside ASCII whose upper case contains an ASCII letter
      (sharp s to SS, the ligature fl to FL, ...); [trim] strips the
      ASCII white space characters.
    - A promise is modelled by the value it settles to ([settled]).
    - JavaScript numbers are doubles.  [Double] models the rounding of
      IEEE 754 binary64 on rationals, and [Imaging64] computes the pixel
      sizes of [optimizeImage] with it; the bounds on the bitmap are
      proved there.  [Imaging] computes the same lines in exact rationals
      ([Q]), for the properties in which the rounding plays no part
      (rejections, canvas settings, empty bitmaps).
    - Effects (invocations of a wrapped operation, timers, image loads) are
      recorded in an explicit chronological trace. *)

From Stdlib Require Import Bool List Ascii String ZArith NArith QArith Qround Qpower Lia Lqa.
Import ListNotations.

Local Open Scope string_scope.

(* ================================================================== *)
(** ** JavaScript values used by the services *)

Module JS.

(** The members of a thrown value that the code reads:
    [error.message] and [error.status]. *)
Record error : Type := mkError {
  message : option string;
  status  : option Z
}.

(** [new Error(msg)] *)
Definition Error (msg : string) : error :=
  {| message := Some msg; status := None |}.

(** What an awaited promise settles to. *)
Inductive settled (A : Type) : Type :=
| Resolved (a : A)
| Rejected (e : error).
Arguments Resolved {A} a.
Arguments Rejected {A} e.

(** Truthiness of a string value. *)
Definition truthy (s : string) : bool :=
  match s with EmptyString => false | String _ _ => true end.

(** Truthiness of a possibly undefined/null string. *)
Definition truthy_opt (o : option string) : bool :=
  match o with Some s => truthy s | None => false end.

(** [s.startsWith(p)] *)
Definition startsWith (s p : string) : bool := String.prefix p s.

(** [s.includes(sub)] *)
Fixpoint includes (s sub : string) : bool :=
  if String.prefix sub s then true
  else match s with
       | EmptyString => false
       | String _ s' => includes s' sub
       end.

(** The string whose UTF-8 bytes are [l]. *)
Definition bytes (l : list N) : string :=
  fold_right (fun n s => String (ascii_of_N n) s) EmptyString l.

(** The byte is an ASCII character (a one-byte UTF-8 sequence). *)
Definition isAsciiChar (c : ascii) : bool := (N_of_ascii c <? 128)%N.

(** Every character of [s] is an ASCII character. *)
Fixpoint isAscii (s : string) : bool :=
  match s with
  | EmptyString => true
  | String c s' => isAsciiChar c && isAscii s'
  end.

(** Upper case of an ASCII character: a-z go to A-Z. *)
Definition upperChar (c : ascii) : ascii :=
  let n := N_of_ascii c in
  if ((97 <=? n) && (n <=? 122))%N then ascii_of_N (n - 32) else c.

(** The characters outside ASCII whose upper case contains an ASCII
    character, each with its upper case (Unicode [SpecialCasing.txt] and
    [UnicodeData.txt]), both in UTF-8: U+00DF (sharp s), U+0131 (dotless
    i), U+0149 (n preceded by apostrophe), U+017F (long s), U+01F0 (j with
    caron), U+1E96 to U+1E9A (h with line below, t with diaeresis, w with
    ring above, y with ring above, a with right half ring) and the
    ligatures U+FB00 to U+FB06 (ff, fi, fl, ffi, ffl, long s t, st). *)
Definition specialCasing : list (string * string) :=
  [ (bytes [195; 159]%N, "SS");
    (bytes [196; 177]%N, "I");
    (bytes [197; 137]%N, bytes [202; 188; 78]%N);
    (bytes [197; 191]%N, "S");
    (bytes [199; 176]%N, bytes [74; 204; 140]%N);
    (bytes [225; 186; 150]%N, bytes [72; 204; 177]%N);
    (bytes [225; 186; 151]%N, bytes [84; 204; 136]%N);
    (bytes [225; 186; 152]%N, bytes [87; 204; 138]%N);
    (bytes [225; 186; 153]%N, bytes [89; 204; 138]%N);
    (bytes [225; 186; 154]%N, bytes [65; 202; 190]%N);
    (bytes [239; 172; 128]%N, "FF");
    (bytes [239; 172; 129]%N, "FI");
    (bytes [239; 172; 130]%N, "FL");
    (bytes [239; 172; 131]%N, "FFI");
    (bytes [239; 172; 132]%N, "FFL");
    (bytes [239; 172; 133]%N, "ST");
    (bytes [239; 172; 134]%N, "ST") ].

(** The entry of [specialCasing] for the character that [s] starts
    with, if there is one. *)
Definition specialUpper (s : string) : option (string * string) :=
  find (fun e => String.prefix (fst e) s) specialCasing.

(** Upper-casing from left to right; [skip] counts the bytes still to
    drop of a character that has been replaced. *)
Fixpoint upperFrom (skip : nat) (s : string) : string :=
  match s with
  | EmptyString => EmptyString
  | String c s' =>
      match skip with
      | S k => upperFrom k s'
      | O =>
          match specialUpper s with
          | Some (pat, up) => up ++ upperFrom (String.length pat - 1) s'
          | None => String (upperChar c) (upperFrom 0 s')
          end
      end
  end.

(** [s.toUpperCase()], on the UTF-8 bytes of [s].  ASCII letters and the
    characters of [specialCasing] are replaced by their upper case.  Any
    other character outside ASCII is left as it is: its upper case
    consists of characters outside ASCII again, so that a test
    [includes] with an ASCII needle, the one use the code makes of the
    result, gives the same answer. *)
Definition toUpperCase (s : string) : string := upperFrom 0 s.

(** Upper-casing byte by byte: what [toUpperCase] does on ASCII text. *)
Fixpoint upperAscii (s : string) : string :=
  match s with
  | EmptyString => EmptyString
  | String c s' => String (upperChar c) (upperAscii s')
  end.

(** The byte continues a multi-byte UTF-8 sequence (10xxxxxx). *)
Definition isContinuation (c : ascii) : bool :=
  let n := N_of_ascii c in ((128 <=? n) && (n <? 192))%N.

Fixpoint allContinuation (s : string) : bool :=
  match s with
  | EmptyString => true
  | String c s' => isContinuation c && allContinuation s'
  end.

(** [s] has the form of one character outside ASCII: a lead byte
    followed by continuation bytes. *)
Definition isMultiByte (s : string) : bool :=
  match s with
  | EmptyString => false
  | String c s' => negb (isAsciiChar c) && negb (isContinuation c) && allContinuation s'
  end.

(** The first [k] bytes of [s] exist and are continuation bytes. *)
Fixpoint contLead (k : nat) (s : string) : bool :=
  match k with
  | O => true
  | S k' =>
      match s with
      | EmptyString => false
      | String c s' => isContinuation c && contLead k' s'
      end
  end.


(** Tab, line feed, vertical tab, form feed, carriage return, space. *)
Definition isWhiteSpace (c : ascii) : bool :=
  let n := N_of_ascii c in
  (((9 <=? n) && (n <=? 13)) || (n =? 32))%N.

Fixpoint trimStart (s : string) : string :=
  match s with
  | EmptyString => EmptyString
  | String c s' => if isWhiteSpace c then trimStart s' else s
  end.

Fixpoint trimEnd (s : string) : string :=
  match s with
  | EmptyString => EmptyString
  | String c s' =>
      match trimEnd s' with
      | EmptyString => if isWhiteSpace c then EmptyString else String c EmptyString
      | r => String c r
      end
  end.

(** [s.trim()].  JavaScript also strips the white space outside ASCII
    (U+00A0, U+FEFF, U+2028, ...), which stays in place here: the size
    codes searched for in the result contain no white space, and a text
    of white space only contains none of them, trimmed or not. *)
Definition trim (s : string) : string := trimEnd (trimStart s).

(** [sub] occurs in [t] as a contiguous substring. *)
Definition occurs (sub t : string) : Prop :=
  exists pre post, t = pre ++ sub ++ post.

(** No white space character occurs in [s]. *)
Fixpoint noWhiteSpace (s : string) : bool :=
  match s with
  | EmptyString => true
  | String c s' => negb (isWhiteSpace c) && noWhiteSpace s'
  end.

End JS.

Import JS.

(* ================================================================== *)
(** ** Size parsing ([estimateSizeFromImage], both service files) *)

Module SizeParse.

(** [const validSizes = ['XS', 'S', 'M', 'L', 'XL', 'XXL'];] *)
Definition validSizes : list string := ["XS"; "S"; "M"; "L"; "XL"; "XXL"].

(** [response.text?.trim().toUpperCase() || 'M'] *)
Definition normalizedText (text : option string) : string :=
  match text with
  | None => "M"
  | Some t =>
      let u := toUpperCase (trim t) in
      if truthy u then u else "M"
  end.

(** [validSizes.find(s => size.includes(s)) || 'M'] applied to the
    normalised response text. *)
Definition parseSize (text : option string) : string :=
  let size := normalizedText text in
  match find (fun s => includes size s) validSizes with
  | Some s => if truthy s then s else "M"
  | None => "M"
  end.

(** Letter case put aside: A-Z go to a-z, every other byte stays.  (The
    specification's "case-insensitive", written without reference to
    [toUpperCase].) *)
Definition foldCase (c : ascii) : ascii :=
  let n := N_of_ascii c in
  if ((65 <=? n) && (n <=? 90))%N then ascii_of_N (n + 32) else c.

(** [a] and [b] are the same string up to the case of ASCII letters. *)
Fixpoint eqNoCase (a b : string) : bool :=
  match a, b with
  | EmptyString, EmptyString => true
  | String x a', String y b' => Ascii.eqb (foldCase x) (foldCase y) && eqNoCase a' b'
  | _, _ => false
  end.

(** [code] occurs in [t] case-insensitively: some substring of [t] is
    [code] up to letter case. *)
Definition occurs_nocase (code t : string) : Prop :=
  exists pre sub post, t = pre ++ sub ++ post /\ eqNoCase sub code = true.

(** A decision procedure for [occurs_nocase]. *)
Fixpoint prefixNoCase (code s : string) : bool :=
  match code, s with
  | EmptyString, _ => true
  | String y code', String x s' =>
      Ascii.eqb (foldCase x) (foldCase y) && prefixNoCase code' s'
  | String _ _, EmptyString => false
  end.

Fixpoint includesNoCase (s code : string) : bool :=
  if prefixNoCase code s then true
  else match s with
       | EmptyString => false
       | String _ s' => includesNoCase s' code
       end.



End SizeParse.

(* ================================================================== *)
(** ** Resilient invoker ([fetchWithRetry]): shared vocabulary *)

Module Invoker.

(** What the invoker does, in chronological order: an invocation of the
    wrapped operation together with what it settled to, or a timer of
    [ms] milliseconds. *)
Inductive event (T : Type) : Type :=
| Invoke (o : settled T)
| Sleep (ms : Z).
Arguments Invoke {T} o.
Arguments Sleep {T} ms.

(** Result of a run: what the returned promise settles to, the world
    afterwards and the trace. *)
Definition run (T W : Type) : Type := (settled T * W * list (event T))%type.

Definition prepend {T W : Type} (ev : list (event T)) (r : run T W) : run T W :=
  let '(o, w, tr) := r in (o, w, (ev ++ tr)%list).

(** [msg.includes(needle)] on a message that may be undefined
    ([(error.message || "").includes(..)] in the gated file,
    [error.message?.includes(..)] in the free file: both are falsy on an
    undefined message when the needle is not empty). *)
Definition messageIncludes (e : error) (needle : string) : bool :=
  match message e with
  | Some m => includes m needle
  | None => false
  end.

(** The error has a message and [needle] occurs in it. *)
Definition carries (needle : string) (e : error) : Prop :=
  exists m, message e = Some m /\ occurs needle m.

(** [error.status === 429] *)
Definition statusIs429 (e : error) : bool :=
  match status e with
  | Some n => (n =? 429)%Z
  | None => false
  end.

(** Number of invocations of the wrapped operation in a trace. *)
Fixpoint invocations {T : Type} (tr : list (event T)) : nat :=
  match tr with
  | [] => 0
  | Invoke _ :: tr' => S (invocations tr')
  | Sleep _ :: tr' => invocations tr'
  end.

(** The timers of a trace, in order. *)
Fixpoint sleeps {T : Type} (tr : list (event T)) : list Z :=
  match tr with
  | [] => []
  | Invoke _ :: tr' => sleeps tr'
  | Sleep ms :: tr' => ms :: sleeps tr'
  end.

(** What the invocations of a trace settled to, in order. *)
Fixpoint observed {T : Type} (tr : list (event T)) : list (settled T) :=
  match tr with
  | [] => []
  | Invoke o :: tr' => o :: observed tr'
  | Sleep _ :: tr' => observed tr'
  end.

(** The n-th back-off delay (n = 1, 2, ...): [base * 2^(n-1)]. *)
Definition backoff (base : Z) (n : nat) : Z := (base * 2 ^ (Z.of_nat n - 1))%Z.

(** The shape of every trace of the invoker: failed invocations, each
    followed by a timer that doubles, then one last invocation. *)
Fixpoint retryTrace {T : Type} (errs : list error) (delay : Z)
    (last : settled T) : list (event T) :=
  match errs with
  | [] => [Invoke last]
  | e :: errs' =>
      Invoke (Rejected e) :: Sleep delay :: retryTrace errs' (delay * 2) last
  end.

(** A scripted operation: the world is the list of outcomes still to
    come, one per call; an exhausted script keeps failing with [dflt]. *)
Definition scripted {T : Type} (dflt : error)
    (w : list (settled T)) : settled T * list (settled T) :=
  match w with
  | [] => (Rejected dflt, [])
  | o :: w' => (o, w')
  end.

End Invoker.

Import Invoker.

(* ================================================================== *)
(** ** Image normalisation ([optimizeImage], [urlToBase64]; the text of
       both functions is the same in the two service files) *)

Module Imaging.

(** What the browser's decoder reports for [img.src = ...]:
    [onload] with the image's width and height, or [onerror]. *)
Inductive decoded : Type :=
| OnLoad (width height : N)
| OnError.

(** The canvas at the moment it is encoded: its bitmap size, the
    rectangle the source image was drawn into (from the origin), the
    backdrop fill, and the [toDataURL] arguments. *)
Record canvas : Type := mkCanvas {
  canvas_width  : Z;
  canvas_height : Z;
  draw_width    : Q;
  draw_height   : Q;
  backdrop      : option string;
  mime          : string;
  quality       : Q
}.

Definition gtQ (x y : Q) : bool := negb (Qle_bool x y).

(** Lines 29-35 of [optimizeImage]: the scaled [width] and [height], in
    exact arithmetic ([Imaging64.scaledSize] has them in doubles). *)
Definition scaledSize (imgWidth imgHeight : N) (maxWidth : Q) : Q * Q :=
  let width := inject_Z (Z.of_N imgWidth) in
  let height := inject_Z (Z.of_N imgHeight) in
  if gtQ width height then
    if gtQ width maxWidth
    then (maxWidth, height * (maxWidth / width))
    else (width, height)
  else
    if gtQ height maxWidth
    then (width * (maxWidth / height), maxWidth)
    else (width, height).

(** Assigning a number to [canvas.width]/[canvas.height] keeps its
    integer part (the values here are never negative). *)
Definition toCanvasSize (x : Q) : Z := Qfloor x.

(** [optimizeImage(base64, maxWidth)], given what the decoder reports
    for [base64] and whether [canvas.getContext('2d')] is non-null. *)
Definition optimizeImage (img : decoded) (ctx : bool) (maxWidth : Q) : settled canvas :=
  match img with
  | OnError => Rejected (Error "Bild konnte nicht verarbeitet werden.")
  | OnLoad w h =>
      let '(width, height) := scaledSize w h maxWidth in
      if negb ctx then Rejected (Error "Canvas failure")
      else Resolved {| canvas_width := toCanvasSize width;
                       canvas_height := toCanvasSize height;
                       draw_width := width;
                       draw_height := height;
                       backdrop := Some "white";
                       mime := "image/jpeg";
                       quality := 7 # 10 |}
  end.

(** The decoder loaded the image and reports a zero width or height. *)
Definition zeroDimension (img : decoded) : bool :=
  match img with
  | OnLoad w h => (w =? 0)%N || (h =? 0)%N
  | OnError => false
  end.

(** The longer edge of a source image / of a canvas bitmap. *)
Definition longerEdge (w h : Z) : Z := Z.max w h.

(** A network load started by assigning [img.src]. *)
Inductive netEvent : Type :=
| Fetch (url : string).

Section UrlToBase64.
(** Library and browser functions the code calls. *)
Variable encodeURIComponent : string -> string.
Variable toDataURL : string -> canvas -> string.
(** What the decoder reports for a given [img.src]. *)
Variable load : string -> decoded.
(** Whether [canvas.getContext('2d')] is non-null. *)
Variable ctx : bool.

Definition proxyUrl (url : string) : string :=
  "https://images.weserv.nl/?url=" ++ encodeURIComponent url ++ "&w=1024&output=jpg".

(** [urlToBase64(url)]: the loads it starts and what it settles to. *)
Definition urlToBase64 (url : string) : list netEvent * settled string :=
  if startsWith url "data:" then ([], Resolved url)
  else
    let src := proxyUrl url in
    ([Fetch src],
     match load src with
     | OnError => Rejected (Error "Produktbild Fehler")
     | OnLoad w h =>
         if negb ctx then Rejected (Error "Canvas fail")
         else Resolved (toDataURL src
                {| canvas_width := Z.of_N w;
                   canvas_height := Z.of_N h;
                   draw_width := inject_Z (Z.of_N w);
                   draw_height := inject_Z (Z.of_N h);
                   backdrop := None;
                   mime := "image/jpeg";
                   quality := 8 # 10 |})
     end).
End UrlToBase64.

End Imaging.

Import Imaging.

(* ================================================================== *)
(** ** JavaScript numbers: rounding to IEEE 754 binary64 *)

Module Double.

(** A JavaScript number is a double.  A finite double is a rational, and
    an arithmetic operation gives the double nearest to the exact
    result, ties to the even significand.  The numbers that occur in the
    services are far below the overflow threshold 2^1024, and overflow is
    not modelled. *)

(** [2^e] *)
Definition pow2 (e : Z) : Q := (2 ^ e)%Q.

(** The binary exponent of a positive [x]: [2^k <= x < 2^(k+1)]. *)
Definition log2floor (x : Q) : Z :=
  if Qle_bool 1 x then Z.log2 (Qfloor x) else (- Z.log2_up (Qceiling (/ x)))%Z.

(** The integer nearest to [a], ties to even. *)
Definition roundHalfEven (a : Q) : Z :=
  let f := Qfloor a in
  match Qcompare (a - inject_Z f)%Q (1 # 2)%Q with
  | Lt => f
  | Gt => (f + 1)%Z
  | Eq => if Z.even f then f else (f + 1)%Z
  end.

(** The exponent of the last place of the doubles around a positive [x]:
    53 significant bits, and [2^-1074] for the subnormal numbers. *)
Definition exponent (x : Q) : Z := Z.max (-1074) (log2floor x - 52).

(** The double nearest to a positive [x]. *)
Definition roundPos (x : Q) : Q :=
  (inject_Z (roundHalfEven (x / pow2 (exponent x))) * pow2 (exponent x))%Q.

(** The double nearest to [x]. *)
Definition round64 (x : Q) : Q :=
  match Qcompare x 0%Q with
  | Eq => 0%Q
  | Gt => roundPos x
  | Lt => (- roundPos (- x))%Q
  end.

(** [x * y] and [x / y] on doubles. *)
Definition fmul (x y : Q) : Q := round64 (x * y)%Q.
Definition fdiv (x y : Q) : Q := round64 (x / y)%Q.

(** Half a unit in the last place, relative: [2^-53]. *)
Definition eps : Q := 1 # 9007199254740992.

End Double.

Import Double.

(* ================================================================== *)
(** ** Image normalisation in JavaScript numbers *)

Module Imaging64.

(** Lines 29-35 of [optimizeImage] as the engine computes them:
    [height *= maxWidth / width] is a division and a multiplication of
    doubles, each rounded.  [img.width] and [img.height] are whole
    numbers below 2^32 and [maxWidth] is the number the caller passes
    (800 for the size call, 1024 for the composite call). *)
Definition scaledSize (imgWidth imgHeight : N) (maxWidth : Q) : Q * Q :=
  let width := inject_Z (Z.of_N imgWidth) in
  let height := inject_Z (Z.of_N imgHeight) in
  if gtQ width height then
    if gtQ width maxWidth
    then (maxWidth, fmul height (fdiv maxWidth width))
    else (width, height)
  else
    if gtQ height maxWidth
    then (fmul width (fdiv maxWidth height), maxWidth)
    else (width, height).

(** [optimizeImage(base64, maxWidth)] with the sizes of [scaledSize]
    above; everything else as in [Imaging.optimizeImage]. *)
Definition optimizeImage (img : decoded) (ctx : bool) (maxWidth : Q) : settled canvas :=
  match img with
  | OnError => Rejected (Error "Bild konnte nicht verarbeitet werden.")
  | OnLoad w h =>
      let '(width, height) := scaledSize w h maxWidth in
      if negb ctx then Rejected (Error "Canvas failure")
      else Resolved {| canvas_width := toCanvasSize width;
                       canvas_height := toCanvasSize height;
                       draw_width := width;
                       draw_height := height;
                       backdrop := Some "white";
                       mime := "image/jpeg";
                       quality := 7 # 10 |}
  end.

(** The bitmap size of a normalised image. *)
Definition bitmapSize (r : settled canvas) : option (Z * Z) :=
  match r with
  | Resolved c => Some (canvas_width c, canvas_height c)
  | Rejected _ => None
  end.

End Imaging64.

(* ================================================================== *)
(** ** The generation backend as the services see it *)

Module Backend.

(** [inlineData: { data, mimeType }] *)
Record blob : Type := mkBlob {
  data     : option string;
  mimeType : option string
}.

(** [{ inlineData?, text? }] *)
Record part : Type := mkPart {
  inlineData : option blob;
  part_text  : option string
}.

Record content : Type := mkContent {
  parts : option (list part)
}.

Record candidate : Type := mkCandidate {
  finishReason      : option string;
  candidate_content : option content
}.

Record response : Type := mkResponse {
  response_text : option string;
  candidates    : option (list candidate)
}.

Inductive requestConfig : Type :=
| NoConfig
| ImageConfig (aspectRatio imageSize : string)
| Temperature (t : Z).

Record request : Type := mkRequest {
  model         : string;
  request_parts : list part;
  config        : requestConfig
}.

(** Modelled from the spec: the catalogue entry type of [types.ts], which
    is not among the sources (identifier, display name, description
    text, reference image locator). *)
Record Product : Type := mkProduct {
  id          : string;
  name        : string;
  description : string;
  imageUrl    : string
}.

(** What a service call can ask of the world [W]: decode an image
    source, obtain a 2D context, encode a canvas, call the backend. *)
Record ops (W : Type) : Type := mkOps {
  decode          : string -> W -> decoded * W;
  getContext2d    : W -> bool * W;
  toDataURL       : string -> canvas -> string;
  generateContent : request -> W -> settled response * W
}.
Arguments decode {W} _ _ _.
Arguments getContext2d {W} _ _.
Arguments toDataURL {W} _ _ _.
Arguments generateContent {W} _ _ _.

(** An asynchronous computation over the world. *)
Definition async (W A : Type) : Type := W -> settled A * W.

Definition ret {W A : Type} (a : A) : async W A := fun w => (Resolved a, w).

(** [const x = await m; k x] *)
Definition await {W A B : Type} (m : async W A) (k : A -> async W B) : async W B :=
  fun w =>
    match m w with
    | (Resolved a, w') => k a w'
    | (Rejected e, w') => (Rejected e, w')
    end.

Definition settle {W A : Type} (r : settled A) : async W A := fun w => (r, w).

Definition mapSettled {A B : Type} (f : A -> B) (r : settled A) : settled B :=
  match r with
  | Resolved a => Resolved (f a)
  | Rejected e => Rejected e
  end.

(** [optimizeImage] run against the world: the decoder is asked for the
    source, and, on load, the canvas for its context. *)
Definition optimizeImageIO {W : Type} (env : ops W)
    (base64 : string) (maxWidth : Q) : async W string :=
  fun w =>
    let '(img, w1) := decode env base64 w in
    match img with
    | OnError => (mapSettled (toDataURL env base64) (optimizeImage OnError true maxWidth), w1)
    | OnLoad _ _ =>
        let '(ctx, w2) := getContext2d env w1 in
        (mapSettled (toDataURL env base64) (optimizeImage img ctx maxWidth), w2)
    end.

(** Drop the first [n] characters. *)
Fixpoint dropChars (n : nat) (s : string) : string :=
  match n, s with
  | O, _ => s
  | S n', String _ s' => dropChars n' s'
  | S _, EmptyString => EmptyString
  end.

(** The text from the first [;] on, if there is one. *)
Fixpoint fromSemicolon (s : string) : option string :=
  match s with
  | EmptyString => None
  | String c s' => if Ascii.eqb c ";" then Some s else fromSemicolon s'
  end.

(** [dataUrl.replace(/^data:[^;]+;base64,/, "")] *)
Definition getCleanBase64 (dataUrl : string) : string :=
  if String.prefix "data:" dataUrl then
    let rest := dropChars 5 dataUrl in
    match fromSemicolon rest with
    | Some tail =>
        if String.prefix ";base64," tail && negb (String.prefix ";" rest)
        then dropChars 8 tail
        else dataUrl
    | None => dataUrl
    end
  else dataUrl.

(** [response.candidates?.[0]] *)
Definition firstCandidate (r : response) : option candidate :=
  match candidates r with
  | Some (c :: _) => Some c
  | _ => None
  end.

Definition optBind {A B : Type} (o : option A) (f : A -> option B) : option B :=
  match o with Some a => f a | None => None end.

(** [response.candidates?.[0]?.finishReason === 'SAFETY'] *)
Definition blockedForSafety (r : response) : bool :=
  match optBind (firstCandidate r) finishReason with
  | Some reason => String.eqb reason "SAFETY"
  | None => false
  end.

(** [p => p.inlineData] as a predicate *)
Definition hasInlineData (p : part) : bool :=
  match inlineData p with Some _ => true | None => false end.

(** [response.candidates?.[0]?.content?.parts?.find(p => p.inlineData)] *)
Definition imagePart (r : response) : option part :=
  optBind (optBind (optBind (firstCandidate r) candidate_content) parts)
          (find hasInlineData).

(** Lines 111-117 of the gated file and 98-104 of the free file; the two
    differ in the two messages only. *)
Definition inspectResponseWith (safetyMessage failureMessage : string)
    (r : response) : settled string :=
  if blockedForSafety r then Rejected (Error safetyMessage)
  else
    match optBind (optBind (imagePart r) inlineData) data with
    | Some d =>
        if truthy d then Resolved ("data:image/jpeg;base64," ++ d)
        else Rejected (Error failureMessage)
    | None => Rejected (Error failureMessage)
    end.


(** The parts of the first candidate (none when any link is absent). *)
Definition responseParts (r : response) : list part :=
  match optBind (optBind (firstCandidate r) candidate_content) parts with
  | Some ps => ps
  | None => []
  end.

(** The same response with every declared MIME type replaced. *)
Definition retagPart (f : option string -> option string) (p : part) : part :=
  {| inlineData :=
       match inlineData p with
       | Some b => Some {| data := data b; mimeType := f (mimeType b) |}
       | None => None
       end;
     part_text := part_text p |}.

Definition retagCandidate (f : option string -> option string) (c : candidate)
    : candidate :=
  {| finishReason := finishReason c;
     candidate_content :=
       match candidate_content c with
       | Some ct =>
           Some {| parts := match parts ct with
                            | Some ps => Some (map (retagPart f) ps)
                            | None => None
                            end |}
       | None => None
       end |}.

Definition retagMime (f : option string -> option string) (r : response) : response :=
  {| response_text := response_text r;
     candidates := match candidates r with
                   | Some cs => Some (map (retagCandidate f) cs)
                   | None => None
                   end |}.

Definition jpegDataUriPrefix : string := "data:image/jpeg;base64,".

Definition dquote : string := String (ascii_of_nat 34) EmptyString.
Definition newline : string := String (ascii_of_nat 10) EmptyString.

Definition jpegPart (dataUrl : string) : part :=
  {| inlineData := Some {| data := Some (getCleanBase64 dataUrl);
                           mimeType := Some "image/jpeg" |};
     part_text := None |}.

Definition textPart (t : string) : part :=
  {| inlineData := None; part_text := Some t |}.

(** [p], with inline data [b], is the first part of the response that
    has an [inlineData] member. *)
Definition firstInlinePart (r : response) (p : part) (b : blob) : Prop :=
  exists l1 l2,
    responseParts r = (l1 ++ p :: l2)%list
    /\ Forall (fun q => inlineData q = None) l1
    /\ inlineData p = Some b.

(** What the inspection of a response must settle to. *)
Definition inspection (safetyMessage failureMessage : string)
    (r : response) (o : settled string) : Prop :=
  if blockedForSafety r then o = Rejected (Error safetyMessage)
  else
    (exists p b d,
        firstInlinePart r p b /\ data b = Some d /\ truthy d = true
        /\ o = Resolved (jpegDataUriPrefix ++ d))
    \/ ((Forall (fun q => inlineData q = None) (responseParts r)
         \/ exists p b, firstInlinePart r p b /\ truthy_opt (data b) = false)
        /\ o = Rejected (Error failureMessage)).

(** A world without state in which the decoder reports [img] for every
    source, a 2D context is always available, every canvas encodes to
    [uri] and the backend answers every request with [r]. *)
Definition constantWorld (img : decoded) (uri : string) (r : settled response)
    : ops unit :=
  {| decode := fun _ u => (img, u);
     getContext2d := fun u => (true, u);
     toDataURL := fun _ _ => uri;
     generateContent := fun _ u => (r, u) |}.

(** A response with one candidate. *)
Definition singleCandidate (reason : string) (ps : list part) : response :=
  {| response_text := None;
     candidates := Some [ {| finishReason := Some reason;
                             candidate_content := Some {| parts := Some ps |} |} ] |}.

Definition blobPart (d m : option string) : part :=
  {| inlineData := Some {| data := d; mimeType := m |}; part_text := None |}.

End Backend.

Import Backend.

(* ================================================================== *)
(** ** The credential-gated service ([src/unnamed/part_001]) *)

Module Gated.

Definition entityNotFoundPhrase : string := "Requested entity was not found".

Definition keyNotFound : error := Error "KEY_NOT_FOUND".

(** [errorMsg.includes("429") || error.status === 429] *)
Definition isRetryable (e : error) : bool :=
  messageIncludes e "429" || statusIs429 e.

(** What the invoker raises when it gives up on error [e]. *)
Definition raised (e : error) : error :=
  if messageIncludes e entityNotFoundPhrase then keyNotFound else e.

Section Retry.
Variables T W : Type.
Variable fn : async W T.

(** [fetchWithRetry(fn, retries, delay)], lines 5-21. *)
Fixpoint fetchWithRetry (retries : nat) (delay : Z) (w : W) : run T W :=
  match fn w with
  | (Resolved v, w') => (Resolved v, w', [Invoke (Resolved v)])
  | (Rejected error, w') =>
      if messageIncludes error entityNotFoundPhrase then
        (Rejected keyNotFound, w', [Invoke (Rejected error)])
      else
        match retries with
        | S retries' =>
            if isRetryable error then
              prepend [Invoke (Rejected error); Sleep delay]
                      (fetchWithRetry retries' (delay * 2) w')
            else (Rejected error, w', [Invoke (Rejected error)])
        | O => (Rejected error, w', [Invoke (Rejected error)])
        end
  end.
End Retry.

Definition safetyMessage : string :=
  "Das Bild wurde aus Sicherheitsgründen blockiert. Bitte trage auf deinem Foto neutrale Kleidung.".

Definition failureMessage : string :=
  "KI konnte kein Bild generieren. Bitte versuche es mit einem deutlicheren Foto.".

(** Lines 111-117. *)
Definition inspectResponse : response -> settled string :=
  inspectResponseWith safetyMessage failureMessage.

Section Service.
Variable W : Type.
Variable env : ops W.
(** [APP_CONFIG.TEXT_MODEL], [APP_CONFIG.IMAGE_MODEL] of [constants.ts]. *)
Variables TEXT_MODEL IMAGE_MODEL : string.

Definition sizePrompt (productName : string) : string :=
  "Analyse the person's body type. Suggest a size (XS, S, M, L, XL, XXL) for the garment "
    ++ dquote ++ productName ++ dquote ++ ". Output only the size code.".

(** The operation wrapped by [estimateSizeFromImage], lines 54-70. *)
Definition estimateSizeAttempt (userBase64 productName : string) : async W string :=
  await (optimizeImageIO env userBase64 (inject_Z 800)) (fun optimized =>
  await (generateContent env
           {| model := TEXT_MODEL;
              request_parts := [jpegPart optimized; textPart (sizePrompt productName)];
              config := NoConfig |}) (fun response =>
  ret (SizeParse.parseSize (response_text response)))).

Definition estimateSizeFromImage (userBase64 productName : string) (w : W) : run string W :=
  fetchWithRetry string W (estimateSizeAttempt userBase64 productName) 2 2000 w.

Definition tryOnPrompt (product : Product) : string :=
  String.concat newline
    [ "";
      "      MANDATORY TASK: Perform a professional virtual fashion try-on.";
      "      USER PHOTO: Image 1.";
      "      PRODUCT PHOTO: Image 2.";
      "      ";
      "      PRODUCT INFO: This is a TWO-PIECE SET consisting of a Top/Bra and Leggings.";
      "      DETAILS: " ++ description product ++ ".";
      "      ";
      "      RULES:";
      "      1. You MUST render the person in Image 1 wearing BOTH parts of the set from Image 2.";
      "      2. The leggings MUST be full-length and clearly visible.";
      "      3. Maintain the EXACT colors, seam lines, and material texture from Image 2.";
      "      4. Keep the person's face, hair, and original background from Image 1 100% identical.";
      "      5. The outfit must fit tightly and realistically to the person's body.";
      "      6. Return ONLY the final high-resolution image.";
      "    " ].

(** The argument of [generateContent], lines 97-109. *)
Definition tryOnRequest (optUser optProduct : string) (product : Product) : request :=
  {| model := IMAGE_MODEL;
     request_parts := [jpegPart optUser; jpegPart optProduct;
                       textPart (tryOnPrompt product)];
     config := ImageConfig "3:4" "1K" |}.

(** The operation wrapped by [performVirtualTryOn], lines 74-118. *)
Definition tryOnAttempt (userBase64 productBase64 : string) (product : Product)
    : async W string :=
  await (optimizeImageIO env userBase64 (inject_Z 1024)) (fun optUser =>
  await (optimizeImageIO env productBase64 (inject_Z 1024)) (fun optProduct =>
  await (generateContent env (tryOnRequest optUser optProduct product)) (fun response =>
  settle (inspectResponse response)))).

Definition performVirtualTryOn (userBase64 productBase64 : string) (product : Product)
    (w : W) : run string W :=
  fetchWithRetry string W (tryOnAttempt userBase64 productBase64 product) 2 2000 w.
End Service.

End Gated.

(* ================================================================== *)
(** ** The free service ([src/unnamed/part_002]) *)

Module Free.

(** [error.message?.includes("429") || error.status === 429 ||
     error.message?.includes("quota")] *)
Definition isRetryable (e : error) : bool :=
  messageIncludes e "429" || statusIs429 e || messageIncludes e "quota".

Section Retry.
Variables T W : Type.
Variable fn : async W T.

(** [fetchWithRetry(fn, retries, delay)], lines 5-16. *)
Fixpoint fetchWithRetry (retries : nat) (delay : Z) (w : W) : run T W :=
  match fn w with
  | (Resolved v, w') => (Resolved v, w', [Invoke (Resolved v)])
  | (Rejected error, w') =>
      match retries with
      | S retries' =>
          if isRetryable error then
            prepend [Invoke (Rejected error); Sleep delay]
                    (fetchWithRetry retries' (delay * 2) w')
          else (Rejected error, w', [Invoke (Rejected error)])
      | O => (Rejected error, w', [Invoke (Rejected error)])
      end
  end.
End Retry.

Definition safetyMessage : string :=
  "Bild blockiert. Bitte wähle ein Foto mit neutraler Kleidung.".

Definition failureMessage : string :=
  "KI-Fehler. Bitte versuche es mit einem Ganzkörperfoto.".

(** Lines 98-104. *)
Definition inspectResponse : response -> settled string :=
  inspectResponseWith safetyMessage failureMessage.

Section Service.
Variable W : Type.
Variable env : ops W.
(** [APP_CONFIG.TEXT_MODEL], [APP_CONFIG.IMAGE_MODEL] of [constants.ts]. *)
Variables TEXT_MODEL IMAGE_MODEL : string.

Definition sizePrompt (productName : string) : string :=
  "Analyse the person. Suggest a size (XS, S, M, L, XL, XXL) for "
    ++ dquote ++ productName ++ dquote ++ ". Output only the size code.".

(** The operation wrapped by [estimateSizeFromImage], lines 49-64. *)
Definition estimateSizeAttempt (userBase64 productName : string) : async W string :=
  await (optimizeImageIO env userBase64 (inject_Z 800)) (fun optimized =>
  await (generateContent env
           {| model := TEXT_MODEL;
              request_parts := [jpegPart optimized; textPart (sizePrompt productName)];
              config := NoConfig |}) (fun response =>
  ret (SizeParse.parseSize (response_text response)))).

Definition estimateSizeFromImage (userBase64 productName : string) (w : W) : run string W :=
  fetchWithRetry string W (estimateSizeAttempt userBase64 productName) 2 2000 w.

Definition tryOnPrompt (product : Product) : string :=
  String.concat newline
    [ "";
      "      MANDATORY TASK: Professional Virtual Try-On for a Fashion Store.";
      "      USER: Image 1. PRODUCT: Image 2.";
      "      PRODUCT DESCRIPTION: " ++ description product ++ ".";
      "      ";
      "      CRITICAL INSTRUCTIONS:";
      "      1. This is a TWO-PIECE SET. You MUST dress the person in BOTH the top and the full-length leggings shown in Image 2.";
      "      2. Do NOT omit the pants/leggings. Ensure the full outfit is visible.";
      "      3. STICK EXACTLY to the color, fabric sheen, and distinctive seam patterns of the product.";
      "      4. Maintain the person's identity (face, hair) and the background of Image 1 perfectly.";
      "      5. The fit should be tight and athletic. Output ONLY the image.";
      "    " ].

(** The argument of [generateContent], lines 86-96. *)
Definition tryOnRequest (optUser optProduct : string) (product : Product) : request :=
  {| model := IMAGE_MODEL;
     request_parts := [jpegPart optUser; jpegPart optProduct;
                       textPart (tryOnPrompt product)];
     config := Temperature 0 |}.

(** The operation wrapped by [performVirtualTryOn], lines 68-105. *)
Definition tryOnAttempt (userBase64 productBase64 : string) (product : Product)
    : async W string :=
  await (optimizeImageIO env userBase64 (inject_Z 1024)) (fun optUser =>
  await (optimizeImageIO env productBase64 (inject_Z 1024)) (fun optProduct =>
  await (generateContent env (tryOnRequest optUser optProduct product)) (fun response =>
  settle (inspectResponse response)))).

Definition performVirtualTryOn (userBase64 productBase64 : string) (product : Product)
    (w : W) : run string W :=
  fetchWithRetry string W (tryOnAttempt userBase64 productBase64 product) 2 2000 w.
End Service.

End Free.

(* ================================================================== *)
(** ** The orchestrator ([handleTryOn]): shared vocabulary *)

Module Orchestrator.

(** [TryOnState] as initialised in both application files. *)
Record TryOnState : Type := mkState {
  userImage       : option string;
  selectedProduct : option Product;
  resultImage     : option string;
  recommendedSize : option string;
  isLoading       : bool;
  error           : option string
}.

(** What an attempt does that an observer can see, in order. *)
Inductive appEvent : Type :=
| Stage (label : string)          (* setLoadingStep(label) *)
| Called (service : string)       (* a service call was awaited *)
| Timer (ms : Z)                  (* the pacing delay *)
| Logged (e : JS.error).          (* console.error(err) *)

(** The three service calls of an attempt, as the application sees
    them: each settles once. *)
Record services : Type := mkServices {
  call_urlToBase64           : string -> settled string;
  call_estimateSizeFromImage : string -> string -> settled string;
  call_performVirtualTryOn   : string -> string -> Product -> settled string
}.

(** [setState(prev => ({ ...prev, isLoading: true, error: null }))] *)
Definition startLoading (prev : TryOnState) : TryOnState :=
  {| userImage := userImage prev; selectedProduct := selectedProduct prev;
     resultImage := resultImage prev; recommendedSize := recommendedSize prev;
     isLoading := true; error := None |}.

(** [setState(prev => ({ ...prev, resultImage: result,
      recommendedSize: aiRecommendedSize, isLoading: false }))] *)
Definition publishResult (result size : string) (prev : TryOnState) : TryOnState :=
  {| userImage := userImage prev; selectedProduct := selectedProduct prev;
     resultImage := Some result; recommendedSize := Some size;
     isLoading := false; error := error prev |}.

(** [setState(prev => ({ ...prev, isLoading: false, error: msg }))] *)
Definition publishError (msg : string) (prev : TryOnState) : TryOnState :=
  {| userImage := userImage prev; selectedProduct := selectedProduct prev;
     resultImage := resultImage prev; recommendedSize := recommendedSize prev;
     isLoading := false; error := Some msg |}.

(** [err.message || fallback] *)
Definition messageOr (e : JS.error) (fallback : string) : string :=
  match message e with
  | Some m => if truthy m then m else fallback
  | None => fallback
  end.

(** The whole React state of the component ([hasKey] exists in the
    gated application only; the free one never touches it). *)
Record AppState : Type := mkApp {
  state       : TryOnState;
  hasKey      : option bool;
  loadingStep : string;
  step        : Z
}.

(** How an attempt ended. *)
Inductive outcome : Type :=
| NotStarted
| Succeeded (composite size : string)
| Failed (msg : string).

(** The try block of [handleTryOn]; the labels and the pacing delay are
    what the two application files differ in. *)
Definition tryBlock (svc : services) (l1 l2 l3 : string) (pace : Z)
    (user : string) (product : Product)
    : list appEvent * settled (string * string) :=
  match call_urlToBase64 svc (imageUrl product) with
  | Rejected e => ([Stage l1; Called "urlToBase64"], Rejected e)
  | Resolved productBase64 =>
      match call_estimateSizeFromImage svc user (name product) with
      | Rejected e =>
          ([Stage l1; Called "urlToBase64"; Stage l2; Called "estimateSizeFromImage"],
           Rejected e)
      | Resolved aiRecommendedSize =>
          let ev := [Stage l1; Called "urlToBase64"; Stage l2;
                     Called "estimateSizeFromImage"; Timer pace; Stage l3;
                     Called "performVirtualTryOn"] in
          match call_performVirtualTryOn svc user productBase64 product with
          | Rejected e => (ev, Rejected e)
          | Resolved result => (ev, Resolved (result, aiRecommendedSize))
          end
      end
  end.

(** The state after a successful attempt: composite and size are
    there, no error is. *)
Definition successPublished (a' : AppState) (composite size : string) : Prop :=
  resultImage (state a') = Some composite
  /\ recommendedSize (state a') = Some size
  /\ error (state a') = None
  /\ isLoading (state a') = false.

(** The state after a failed attempt that started in [a]: the message
    is there, and the result fields are what they were before. *)
Definition failurePublished (a a' : AppState) (msg : string) : Prop :=
  error (state a') = Some msg
  /\ truthy msg = true
  /\ resultImage (state a') = resultImage (state a)
  /\ recommendedSize (state a') = recommendedSize (state a)
  /\ isLoading (state a') = false.

(** A state in which an attempt starts: a non-empty user image and a
    selected product. *)
Definition ready (a : AppState) (user : string) (product : Product) : Prop :=
  userImage (state a) = Some user /\ truthy user = true
  /\ selectedProduct (state a) = Some product.

(** The attempt published exactly one of a result and an error. *)
Definition exactlyOnePublished (svc : services) (a a' : AppState) (o : outcome)
    (user : string) (product : Product) : Prop :=
  (exists productBase64 composite size,
      call_urlToBase64 svc (imageUrl product) = Resolved productBase64
      /\ call_estimateSizeFromImage svc user (name product) = Resolved size
      /\ call_performVirtualTryOn svc user productBase64 product = Resolved composite
      /\ o = Succeeded composite size
      /\ successPublished a' composite size)
  \/
  (exists msg,
      ((exists e, call_urlToBase64 svc (imageUrl product) = Rejected e)
       \/ (exists productBase64 e,
              call_urlToBase64 svc (imageUrl product) = Resolved productBase64
              /\ call_estimateSizeFromImage svc user (name product) = Rejected e)
       \/ (exists productBase64 size e,
              call_urlToBase64 svc (imageUrl product) = Resolved productBase64
              /\ call_estimateSizeFromImage svc user (name product) = Resolved size
              /\ call_performVirtualTryOn svc user productBase64 product = Rejected e))
      /\ o = Failed msg
      /\ failurePublished a a' msg).

(** A catalogue entry whose image is already embedded, a state ready
    for an attempt on it, and services that answer with fixed values. *)
Definition sampleProduct : Product :=
  {| id := "1"; name := "Set"; description := "Two-piece set";
     imageUrl := "data:image/png;base64,iVBORw0KGgo=" |}.

Definition sampleReady : AppState :=
  {| state := {| userImage := Some "data:image/jpeg;base64,AAAA";
                 selectedProduct := Some sampleProduct;
                 resultImage := None; recommendedSize := None;
                 isLoading := false; error := None |};
     hasKey := Some true; loadingStep := ""; step := 2 |}.

Definition fixedServices (size render : settled string) : services :=
  {| call_urlToBase64 := fun url => Resolved url;
     call_estimateSizeFromImage := fun _ _ => size;
     call_performVirtualTryOn := fun _ _ _ => render |}.

Definition lastStage (ev : list appEvent) (dflt : string) : string :=
  fold_left (fun acc e => match e with Stage l => l | _ => acc end) ev dflt.

End Orchestrator.

Import Orchestrator.

(* ================================================================== *)
(** ** The gated application ([src/App.tsx]) *)

Module GatedApp.

(** [err.message === "KEY_NOT_FOUND"] *)
Definition isKeyNotFound (err : JS.error) : bool :=
  match message err with
  | Some m => String.eqb m "KEY_NOT_FOUND"
  | None => false
  end.

(** The catch block, lines 87-97. *)
Definition onError (err : JS.error) (a : AppState) : AppState * outcome :=
  if isKeyNotFound err then
    let msg := "Bitte wähle deinen API Key erneut aus." in
    ({| state := publishError msg (state a); hasKey := Some false;
        loadingStep := loadingStep a; step := step a |}, Failed msg)
  else
    let msg := messageOr err "Ein technischer Fehler ist aufgetreten." in
    let msg := if includes msg "429"
               then "Die KI ist gerade ausgelastet. Bitte warte einen Moment."
               else msg in
    ({| state := publishError msg (state a); hasKey := hasKey a;
        loadingStep := loadingStep a; step := step a |}, Failed msg).

(** [handleTryOn], lines 64-98: the state after the attempt, what could
    be observed during it, and how it ended. *)
Definition handleTryOn (svc : services) (a : AppState)
    : AppState * list appEvent * outcome :=
  match userImage (state a), selectedProduct (state a) with
  | Some user, Some product =>
      if negb (truthy user) then (a, [], NotStarted)
      else
        let '(ev, r) := tryBlock svc "Lade High-End-Modell..."
                          "Analysiere Proportionen..."
                          "Generiere Foto-Realismus..." 1000 user product in
        let a1 := {| state := startLoading (state a); hasKey := hasKey a;
                     loadingStep := lastStage ev (loadingStep a); step := 3 |} in
        match r with
        | Resolved (result, aiRecommendedSize) =>
            ({| state := publishResult result aiRecommendedSize (state a1);
                hasKey := hasKey a1; loadingStep := loadingStep a1; step := step a1 |},
             ev, Succeeded result aiRecommendedSize)
        | Rejected err =>
            let '(a2, o) := onError err a1 in
            (a2, (ev ++ [Logged err])%list, o)
        end
  | _, _ => (a, [], NotStarted)
  end.

End GatedApp.

(* ================================================================== *)
(** ** The free application ([src/unnamed/part_000]) *)

Module FreeApp.

(** The catch block, lines 70-75. *)
Definition onError (err : JS.error) (a : AppState) : AppState * outcome :=
  let msg := messageOr err "Ein technischer Fehler ist aufgetreten." in
  let msg := if includes msg "429"
             then "Server ausgelastet. Bitte kurz warten."
             else msg in
  ({| state := publishError msg (state a); hasKey := hasKey a;
      loadingStep := loadingStep a; step := step a |}, Failed msg).

(** [handleTryOn], lines 47-76. *)
Definition handleTryOn (svc : services) (a : AppState)
    : AppState * list appEvent * outcome :=
  match userImage (state a), selectedProduct (state a) with
  | Some user, Some product =>
      if negb (truthy user) then (a, [], NotStarted)
      else
        let '(ev, r) := tryBlock svc "Produkt wird geladen..."
                          "Größe wird berechnet..."
                          "Look wird gerendert..." 1200 user product in
        let a1 := {| state := startLoading (state a); hasKey := hasKey a;
                     loadingStep := lastStage ev (loadingStep a); step := 3 |} in
        match r with
        | Resolved (result, aiRecommendedSize) =>
            ({| state := publishResult result aiRecommendedSize (state a1);
                hasKey := hasKey a1; loadingStep := loadingStep a1; step := step a1 |},
             ev, Succeeded result aiRecommendedSize)
        | Rejected err =>
            let '(a2, o) := onError err a1 in
            (a2, (ev ++ [Logged err])%list, o)
        end
  | _, _ => (a, [], NotStarted)
  end.

End FreeApp.

(* ================================================================== *)
(** ** The applications wired to their services *)

Module Wiring.

(** No [;] occurs in [s]. *)
Fixpoint noSemicolon (s : string) : bool :=
match s with
| EmptyString => true
| String c s' => negb (Ascii.eqb c ";") && noSemicolon s'
end.

(** The service calls awaited during an attempt, in order. *)
Fixpoint calls (ev : list appEvent) : list string :=
match ev with
| [] => []
| Called service :: ev' => service :: calls ev'
| _ :: ev' => calls ev'
end.

(** The service calls and the timers of an attempt, in order. *)
Fixpoint schedule (ev : list appEvent) : list appEvent :=
match ev with
| [] => []
| Called service :: ev' => Called service :: schedule ev'
| Timer ms :: ev' => Timer ms :: schedule ev'
| _ :: ev' => schedule ev'
end.

(** The errors written to the console during an attempt. *)
Fixpoint logged (ev : list appEvent) : list JS.error :=
match ev with
| [] => []
| Logged e :: ev' => e :: logged ev'
| _ :: ev' => logged ev'
end.

Section Wire.
(** The world the service calls act on, the browser functions of
    [urlToBase64], and the two model names of [constants.ts]. *)
Variable W : Type.
Variable env : ops W.
Variable encodeURIComponent : string -> string.
Variable load : string -> decoded.
Variable ctx : bool.
Variables TEXT_MODEL IMAGE_MODEL : string.
(** The world when the size call starts. *)
Variable w0 : W.

(** [await urlToBase64(state.selectedProduct.imageUrl)] *)
Definition productImage (url : string) : settled string :=
  snd (Imaging.urlToBase64 encodeURIComponent (toDataURL env) load ctx url).

(** The imports of [src/App.tsx] bound to the gated service file: the
    size call runs from [w0], the composite call from the world the size
    call left. *)
Definition gatedServices : services :=
  {| call_urlToBase64 := productImage;
     call_estimateSizeFromImage := fun user productName =>
       fst (fst (Gated.estimateSizeFromImage W env TEXT_MODEL user productName w0));
     call_performVirtualTryOn := fun user productBase64 product =>
       fst (fst (Gated.performVirtualTryOn W env IMAGE_MODEL user productBase64 product
                   (snd (fst (Gated.estimateSizeFromImage W env TEXT_MODEL user
                                (name product) w0))))) |}.

(** The imports of [src/unnamed/part_000] bound to the free service
    file. *)
Definition freeServices : services :=
  {| call_urlToBase64 := productImage;
     call_estimateSizeFromImage := fun user productName =>
       fst (fst (Free.estimateSizeFromImage W env TEXT_MODEL user productName w0));
     call_performVirtualTryOn := fun user productBase64 product =>
       fst (fst (Free.performVirtualTryOn W env IMAGE_MODEL user productBase64 product
                   (snd (fst (Free.estimateSizeFromImage W env TEXT_MODEL user
                                (name product) w0))))) |}.
End Wire.

(** An operation that fails with [e] on every call and leaves the world
    as it is. *)
Definition alwaysFails {T W : Type} (e : JS.error) : async W T :=
  fun w => (Rejected e, w).

End Wiring.

Import Wiring.

(* ================================================================== *)
(** * Properties *)

(** ** Strings *)

Section StringFacts.

Lemma prefix_app (p s : string) :
  String.prefix p s = true <-> exists post, s = p ++ post.
Proof.
  revert s; induction p as [|a p IH]; intros s.
  - split; [intros _; now exists s | intros _; now destruct s].
  - destruct s as [|b s]; simpl.
    + split; [discriminate | intros [post H]; discriminate].
    + destruct (ascii_dec a b) as [->|Hab].
      * rewrite IH. split; intros [post H]; exists post.
        -- now subst.
        -- now injection H.
      * split; [discriminate | intros [post H]; injection H; congruence].
Qed.

Lemma prefix_nil (s : string) : String.prefix "" s = true.
Proof. now destruct s. Qed.

Lemma includes_occurs (s sub : string) :
  includes s sub = true <-> occurs sub s.
Proof.
  unfold occurs.
  induction s as [|a s IH]; cbn [includes].
  - destruct (String.prefix sub "") eqn:Hp.
    + apply prefix_app in Hp as [post Hp].
      split; [intros _; now exists "", post | reflexivity].
    + split; [discriminate|].
      intros [[|b pre] [post H]]; [|discriminate].
      simpl in H. assert (String.prefix sub "" = true) by (apply prefix_app; eauto).
      congruence.
  - destruct (String.prefix sub (String a s)) eqn:Hp.
    + apply prefix_app in Hp as [post Hp].
      split; [intros _; now exists "", post | reflexivity].
    + rewrite IH. split.
      * intros (pre & post & ->). now exists (String a pre), post.
      * intros ([|b pre] & post & H).
        -- simpl in H.
           assert (String.prefix sub (String a s) = true) by (apply prefix_app; eauto).
           congruence.
        -- injection H as -> ->. eauto.
Qed.

Lemma includes_empty_text (sub : string) :
  truthy sub = true -> includes "" sub = false.
Proof. destruct sub; [discriminate | reflexivity]. Qed.

Lemma string_app_assoc (x y z : string) : (x ++ y) ++ z = x ++ y ++ z.
Proof. induction x as [|c x IH]; simpl; [reflexivity | now f_equal]. Qed.

Lemma string_app_nil_r (x : string) : x ++ "" = x.
Proof. induction x as [|c x IH]; simpl; [reflexivity | now f_equal]. Qed.

Lemma occurs_trans (a b c : string) : occurs a b -> occurs b c -> occurs a c.
Proof.
  intros (p1 & q1 & ->) (p2 & q2 & ->). exists (p2 ++ p1), (q1 ++ q2).
  now rewrite !string_app_assoc.
Qed.

Lemma occurs_app_r (u x y : string) : occurs u y -> occurs u (x ++ y).
Proof.
  intros (p & q & ->). exists (x ++ p), q. now rewrite string_app_assoc.
Qed.

Lemma upperAscii_app (a b : string) :
  upperAscii (a ++ b) = upperAscii a ++ upperAscii b.
Proof. induction a as [|c a IH]; simpl; [reflexivity | now rewrite IH]. Qed.

Lemma upperAscii_split (t x y : string) :
  upperAscii t = x ++ y ->
  exists t1 t2, t = t1 ++ t2 /\ upperAscii t1 = x /\ upperAscii t2 = y.
Proof.
  revert t; induction x as [|c x IH]; intros t H; simpl in H.
  - now exists "", t.
  - destruct t as [|d t]; [discriminate|].
    simpl in H. injection H as Hc Ht.
    destruct (IH _ Ht) as (t1 & t2 & -> & <- & <-).
    exists (String d t1), t2. simpl. now rewrite Hc.
Qed.

(** A code occurs in the byte-wise upper-cased text exactly when a
    substring of the text upper-cases to it. *)
Lemma occurs_upperAscii (code t : string) :
  occurs code (upperAscii t)
  <-> exists pre sub post, t = pre ++ sub ++ post /\ upperAscii sub = code.
Proof.
  unfold occurs. split.
  - intros (pre & post & H).
    apply upperAscii_split in H as (t1 & t2 & -> & <- & H2).
    apply upperAscii_split in H2 as (t3 & t4 & -> & <- & <-).
    now exists t1, t3, t4.
  - intros (pre & sub & post & -> & <-).
    exists (upperAscii pre), (upperAscii post).
    now rewrite !upperAscii_app.
Qed.

Lemma isWhiteSpace_upperChar (c : ascii) :
  isWhiteSpace (upperChar c) = isWhiteSpace c.
Proof. destruct c as [[] [] [] [] [] [] [] []]; reflexivity. Qed.

Lemma upperAscii_trimStart (s : string) :
  upperAscii (trimStart s) = trimStart (upperAscii s).
Proof.
  induction s as [|c s IH]; simpl; [reflexivity|].
  rewrite isWhiteSpace_upperChar. now destruct (isWhiteSpace c).
Qed.

Lemma upperAscii_trimEnd (s : string) :
  upperAscii (trimEnd s) = trimEnd (upperAscii s).
Proof.
  induction s as [|c s IH]; simpl; [reflexivity|].
  rewrite <- IH, isWhiteSpace_upperChar.
  destruct (trimEnd s); simpl; [now destruct (isWhiteSpace c) | reflexivity].
Qed.

Lemma upperAscii_trim (s : string) :
  upperAscii (trim s) = trim (upperAscii s).
Proof. unfold trim. now rewrite upperAscii_trimEnd, upperAscii_trimStart. Qed.

(** A needle that starts with a non-blank character is found in the
    text exactly when it is found after the leading blanks. *)
Lemma includes_trimStart (s sub : string) :
  noWhiteSpace sub = true -> truthy sub = true ->
  includes (trimStart s) sub = includes s sub.
Proof.
  intros Hws Hne. destruct sub as [|a sub]; [discriminate|].
  simpl in Hws. apply andb_true_iff in Hws as [Ha _].
  induction s as [|c s IH]; [reflexivity|].
  cbn [trimStart]. destruct (isWhiteSpace c) eqn:Hc; [|reflexivity].
  rewrite IH. cbn [includes String.prefix].
  destruct (ascii_dec a c) as [->|Hne']; [rewrite Hc in Ha; discriminate|].
  reflexivity.
Qed.

Lemma prefix_trimEnd (s sub : string) :
  noWhiteSpace sub = true ->
  String.prefix sub (trimEnd s) = String.prefix sub s.
Proof.
  revert sub; induction s as [|c s IH]; intros sub Hws; [reflexivity|].
  destruct sub as [|a sub].
  - now rewrite !prefix_nil.
  - simpl in Hws. apply andb_true_iff in Hws as [Ha Hsub].
    specialize (IH sub Hsub). cbn [trimEnd].
    destruct (trimEnd s) as [|d r] eqn:Ht.
    + destruct (isWhiteSpace c) eqn:Hc; cbn [String.prefix].
      * destruct (ascii_dec a c) as [->|]; [rewrite Hc in Ha; discriminate | reflexivity].
      * destruct (ascii_dec a c); [exact IH | reflexivity].
    + cbn [String.prefix]. destruct (ascii_dec a c); [exact IH | reflexivity].
Qed.

Lemma includes_trimEnd (s sub : string) :
  noWhiteSpace sub = true -> truthy sub = true ->
  includes (trimEnd s) sub = includes s sub.
Proof.
  intros Hws Hne. induction s as [|c s IH]; [reflexivity|].
  cbn [includes]. rewrite <- (prefix_trimEnd (String c s) sub Hws), <- IH.
  cbn [trimEnd]. destruct (trimEnd s) as [|d r] eqn:Ht.
  - destruct (isWhiteSpace c); cbn [includes].
    + now destruct (String.prefix sub "").
    + now destruct (String.prefix sub (String c "")), (String.prefix sub "").
  - reflexivity.
Qed.

Lemma includes_trim (s sub : string) :
  noWhiteSpace sub = true -> truthy sub = true ->
  includes (trim s) sub = includes s sub.
Proof.
  intros Hws Hne. unfold trim.
  now rewrite includes_trimEnd, includes_trimStart.
Qed.

Lemma find_first {A : Type} (f : A -> bool) (l : list A) (r : A) :
  find f l = Some r ->
  exists l1 l2, l = (l1 ++ r :: l2)%list /\ f r = true /\ Forall (fun x => f x = false) l1.
Proof.
  induction l as [|x l IH]; simpl; [discriminate|].
  destruct (f x) eqn:Hx.
  - intros [= ->]. now exists [], l.
  - intros H. destruct (IH H) as (l1 & l2 & -> & Hr & Hall).
    exists (x :: l1), l2. repeat split; auto.
Qed.

Lemma find_none {A : Type} (f : A -> bool) (l : list A) :
  find f l = None -> Forall (fun x => f x = false) l.
Proof.
  induction l as [|x l IH]; simpl; [constructor|].
  destruct (f x) eqn:Hx; [discriminate | auto].
Qed.

(** *** [toUpperCase] on and around ASCII text *)

Lemma isAscii_app (a b : string) :
  isAscii (a ++ b) = isAscii a && isAscii b.
Proof.
  induction a as [|c a IH]; simpl; [reflexivity|].
  now rewrite IH, andb_assoc.
Qed.

Lemma isAscii_trimStart (s : string) :
  isAscii s = true -> isAscii (trimStart s) = true.
Proof.
  induction s as [|c s IH]; simpl; [reflexivity|].
  intros H. destruct (isWhiteSpace c); [|exact H].
  apply andb_true_iff in H as [_ H]. now apply IH.
Qed.

Lemma isAscii_trimEnd (s : string) :
  isAscii s = true -> isAscii (trimEnd s) = true.
Proof.
  induction s as [|c s IH]; simpl; [reflexivity|].
  intros H. apply andb_true_iff in H as [Hc H]. specialize (IH H).
  destruct (trimEnd s) as [|d r].
  - destruct (isWhiteSpace c); simpl; [reflexivity | now rewrite Hc].
  - cbn [isAscii] in *. now rewrite Hc.
Qed.

Lemma isAscii_trim (s : string) : isAscii s = true -> isAscii (trim s) = true.
Proof. intros H. unfold trim. now apply isAscii_trimEnd, isAscii_trimStart. Qed.

(** Every entry of [specialCasing] is for one character outside ASCII. *)
Lemma specialCasing_patterns :
  Forall (fun e => isMultiByte (fst e) = true) specialCasing.
Proof. unfold specialCasing. repeat constructor. Qed.

Lemma specialUpper_some (s pat up : string) :
  specialUpper s = Some (pat, up) ->
  String.prefix pat s = true /\ isMultiByte pat = true.
Proof.
  intros H. unfold specialUpper in H. apply find_some in H as [Hin Hp].
  pose proof specialCasing_patterns as Hall. rewrite Forall_forall in Hall.
  split; [exact Hp | exact (Hall _ Hin)].
Qed.

Lemma prefix_contLead (tail s : string) :
  String.prefix tail s = true -> allContinuation tail = true ->
  contLead (String.length tail) s = true.
Proof.
  revert s; induction tail as [|p tail IH]; intros s Hp Hn; [reflexivity|].
  destruct s as [|c s]; [discriminate|].
  cbn [String.prefix] in Hp. destruct (ascii_dec p c) as [->|]; [|discriminate].
  cbn [allContinuation] in Hn. apply andb_true_iff in Hn as [Hc Hn].
  cbn [String.length contLead]. rewrite Hc. now apply IH.
Qed.

(** What a replaced character leaves behind: its upper case, and the
    continuation bytes still to drop. *)
Lemma specialUpper_head (c : ascii) (s pat up : string) :
  specialUpper (String c s) = Some (pat, up) ->
  isAsciiChar c = false
  /\ contLead (String.length pat - 1) s = true.
Proof.
  intros H. apply specialUpper_some in H as (Hp & Hm).
  destruct pat as [|p tail]; [discriminate|].
  cbn [String.prefix] in Hp. destruct (ascii_dec p c) as [->|]; [|discriminate].
  cbn [isMultiByte] in Hm. apply andb_true_iff in Hm as [Hm Ht].
  apply andb_true_iff in Hm as [Ha _]. apply negb_true_iff in Ha.
  split; [exact Ha|].
  replace (String.length (String c tail) - 1)%nat with (String.length tail)
    by (cbn [String.length]; lia).
  now apply prefix_contLead.
Qed.

Lemma specialUpper_ascii (c : ascii) (s : string) :
  isAsciiChar c = true -> specialUpper (String c s) = None.
Proof.
  intros Hc. destruct (specialUpper (String c s)) as [[pat up]|] eqn:H; [|reflexivity].
  apply specialUpper_head in H as [Ha _]. congruence.
Qed.


Lemma upperFrom_ascii_app (sub post : string) :
  isAscii sub = true ->
  upperFrom 0 (sub ++ post) = upperAscii sub ++ upperFrom 0 post.
Proof.
  induction sub as [|c sub IH]; intros H; [reflexivity|].
  cbn [isAscii] in H. apply andb_true_iff in H as [Hc H].
  cbn [append upperFrom upperAscii].
  rewrite (specialUpper_ascii c (sub ++ post) Hc). now rewrite IH.
Qed.

(** On ASCII text [toUpperCase] upper-cases byte by byte. *)
Lemma toUpperCase_ascii (t : string) :
  isAscii t = true -> toUpperCase t = upperAscii t.
Proof.
  intros H. unfold toUpperCase.
  rewrite <- (string_app_nil_r t) at 1.
  rewrite (upperFrom_ascii_app t "" H). apply string_app_nil_r.
Qed.




End StringFacts.

(** ** Letter case *)

Section LetterCaseFacts.
Import SizeParse.

Lemma all_ascii (P : ascii -> bool) :
  forallb P (map ascii_of_nat (seq 0 256)) = true -> forall c, P c = true.
Proof.
  intros H c. rewrite forallb_forall in H. apply H.
  rewrite <- (ascii_nat_embedding c). apply in_map. apply in_seq.
  pose proof (nat_ascii_bounded c). lia.
Qed.

Lemma all_ascii_pairs (P : ascii -> ascii -> bool) :
  forallb (fun x => forallb (P x) (map ascii_of_nat (seq 0 256)))
    (map ascii_of_nat (seq 0 256)) = true ->
  forall x y, P x y = true.
Proof.
  intros H x y.
  apply (all_ascii (P x)). apply (all_ascii (fun x => forallb (P x) _) H).
Qed.

(** The case-insensitive comparison [foldCase x = foldCase y] of two
    bytes, against the upper-casing of the code. *)
Lemma foldCase_facts (x y : ascii) :
  Ascii.eqb (foldCase x) (foldCase y) = true ->
  isAsciiChar x = isAsciiChar y
  /\ isWhiteSpace x = isWhiteSpace y
  /\ (upperChar y = y -> upperChar x = y).
Proof.
  assert (H : forall x y,
    implb (Ascii.eqb (foldCase x) (foldCase y))
      (Bool.eqb (isAsciiChar x) (isAsciiChar y)
       && Bool.eqb (isWhiteSpace x) (isWhiteSpace y)
       && implb (Ascii.eqb (upperChar y) y) (Ascii.eqb (upperChar x) y)) = true).
  { apply all_ascii_pairs. vm_compute. reflexivity. }
  intros Hf. specialize (H x y). rewrite Hf in H. cbn [implb] in H.
  apply andb_true_iff in H as [H H3]. apply andb_true_iff in H as [H1 H2].
  apply Bool.eqb_prop in H1, H2. split; [exact H1|]. split; [exact H2|].
  intros Hy. apply Ascii.eqb_eq in Hy. rewrite Hy in H3. now apply Ascii.eqb_eq.
Qed.

Lemma upperChar_foldCase (x : ascii) :
  Ascii.eqb (foldCase x) (foldCase (upperChar x)) = true.
Proof.
  apply (all_ascii (fun x => Ascii.eqb (foldCase x) (foldCase (upperChar x)))).
  vm_compute. reflexivity.
Qed.

Lemma eqNoCase_facts (sub code : string) :
  eqNoCase sub code = true ->
  isAscii sub = isAscii code
  /\ noWhiteSpace sub = noWhiteSpace code
  /\ truthy sub = truthy code
  /\ (upperAscii code = code -> upperAscii sub = code).
Proof.
  revert code; induction sub as [|x sub IH]; intros [|y code] H; try discriminate.
  - repeat split.
  - cbn [eqNoCase] in H. apply andb_true_iff in H as [Hxy H].
    destruct (foldCase_facts x y Hxy) as (F1 & F2 & F3).
    destruct (IH code H) as (I1 & I2 & _ & I4).
    cbn [isAscii noWhiteSpace truthy upperAscii]. rewrite F1, F2, I1, I2.
    repeat split. intros [= Hy Hc]. now rewrite (F3 Hy), (I4 Hc).
Qed.

Lemma upperAscii_eqNoCase (sub : string) : eqNoCase sub (upperAscii sub) = true.
Proof.
  induction sub as [|x sub IH]; [reflexivity|].
  cbn [upperAscii eqNoCase]. now rewrite upperChar_foldCase, IH.
Qed.

(** For a code written in upper case, "a substring upper-cases to the
    code" and "a substring is the code up to letter case" are the same. *)
Lemma upper_iff_eqNoCase (sub code : string) :
  upperAscii code = code ->
  upperAscii sub = code <-> eqNoCase sub code = true.
Proof.
  intros Hc. split.
  - intros <-. apply upperAscii_eqNoCase.
  - intros H. now apply eqNoCase_facts.
Qed.

Lemma prefixNoCase_spec (code s : string) :
  prefixNoCase code s = true
  <-> exists sub post, s = sub ++ post /\ eqNoCase sub code = true.
Proof.
  revert s; induction code as [|y code IH]; intros s.
  - split; [intros _; now exists "", s|]. now destruct s.
  - destruct s as [|x s]; cbn [prefixNoCase].
    + split; [discriminate|]. intros ([|a sub] & post & H & He); discriminate.
    + rewrite andb_true_iff, IH. split.
      * intros (Hxy & sub & post & -> & He). exists (String x sub), post.
        split; [reflexivity|]. cbn [eqNoCase]. now rewrite Hxy.
      * intros ([|a sub] & post & H & He); [discriminate|].
        injection H as -> ->. cbn [eqNoCase] in He.
        apply andb_true_iff in He as [Hxy He]. split; [exact Hxy|]. eauto.
Qed.

Lemma includesNoCase_spec (t code : string) :
  includesNoCase t code = true <-> occurs_nocase code t.
Proof.
  unfold occurs_nocase.
  induction t as [|a t IH]; cbn [includesNoCase].
  - destruct (prefixNoCase code "") eqn:Hp.
    + apply prefixNoCase_spec in Hp as (sub & post & Hp & He).
      split; [intros _; now exists "", sub, post | reflexivity].
    + split; [discriminate|].
      intros ([|b pre] & sub & post & H & He); [|discriminate].
      cbn [append] in H.
      assert (prefixNoCase code "" = true)
        by (apply prefixNoCase_spec; exists sub, post; now split).
      congruence.
  - destruct (prefixNoCase code (String a t)) eqn:Hp.
    + apply prefixNoCase_spec in Hp as (sub & post & Hp & He).
      split; [intros _; now exists "", sub, post | reflexivity].
    + rewrite IH. split.
      * intros (pre & sub & post & -> & He). now exists (String a pre), sub, post.
      * intros ([|b pre] & sub & post & H & He).
        -- cbn [append] in H.
           assert (prefixNoCase code (String a t) = true)
             by (apply prefixNoCase_spec; exists sub, post; now split).
           congruence.
        -- injection H as -> ->. eauto.
Qed.

End LetterCaseFacts.

(** ** Size parsing *)

Section SizeParseFacts.
Import SizeParse.

Lemma validSizes_shape (c : string) :
  In c validSizes ->
  noWhiteSpace c = true /\ truthy c = true /\ isAscii c = true /\ upperAscii c = c.
Proof.
  unfold validSizes; simpl.
  intros H; repeat (destruct H as [<-|H]; [repeat split; reflexivity|]); contradiction.
Qed.

(** The value of [parseSize] in terms of the [find] alone: the fallback
    of an empty text changes nothing. *)
Lemma parseSize_find (t : string) :
  parseSize (Some t)
  = match find (fun c => includes (toUpperCase (trim t)) c) validSizes with
    | Some s => s
    | None => "M"
    end.
Proof.
  unfold parseSize, normalizedText.
  destruct (toUpperCase (trim t)) as [|a u] eqn:Hu; [reflexivity|].
  cbn [truthy]. destruct (find _ validSizes) as [r|] eqn:Hf; [|reflexivity].
  apply find_some in Hf as [Hin _]. now destruct (validSizes_shape r Hin) as (_ & -> & _).
Qed.



(** On ASCII text the test of the [find] callback is a case-insensitive
    substring test on the response text. *)
Lemma includes_upper_trim (t c : string) :
  isAscii t = true -> In c validSizes ->
  includes (toUpperCase (trim t)) c = true <-> occurs_nocase c t.
Proof.
  intros Ht Hc. destruct (validSizes_shape c Hc) as (Hws & Hne & Has & Hup).
  rewrite (toUpperCase_ascii (trim t)) by now apply isAscii_trim.
  rewrite upperAscii_trim, includes_trim by assumption.
  rewrite includes_occurs, occurs_upperAscii. unfold occurs_nocase.
  split; intros (pre & sub & post & H1 & H2); exists pre, sub, post;
    (split; [exact H1|]); now apply (upper_iff_eqNoCase sub c Hup).
Qed.

Lemma includes_upper_trim_false (t c : string) :
  isAscii t = true -> In c validSizes ->
  includes (toUpperCase (trim t)) c = false <-> ~ occurs_nocase c t.
Proof.
  intros Ht Hc. rewrite <- (includes_upper_trim t c Ht Hc).
  destruct (includes _ c); split; congruence.
Qed.


(** No code is returned ahead of one that precedes it in [validSizes]:
    a text that contains [XL] or [XXL] contains [L] as well, so these
    two codes are never the answer. *)
Lemma parseSize_range (text : option string) :
  In (parseSize text) ["XS"; "S"; "M"; "L"].
Proof.
  unfold parseSize. set (size := normalizedText text).
  unfold validSizes; cbn [find].
  destruct (includes size "XS"); [simpl; auto|].
  destruct (includes size "S"); [simpl; auto|].
  destruct (includes size "M"); [simpl; auto|].
  destruct (includes size "L") eqn:HL; [simpl; auto|].
  assert (Hno : forall c, occurs "L" c -> occurs c size -> False).
  { intros c (p1 & q1 & ->) (p2 & q2 & H2).
    assert (includes size "L" = true); [|congruence].
    apply includes_occurs. exists (p2 ++ p1), (q1 ++ q2).
    rewrite H2. clear. induction p2; simpl; [|now f_equal].
    induction p1; simpl; [|now f_equal]. reflexivity. }
  destruct (includes size "XL") eqn:H1.
  { exfalso. apply includes_occurs in H1. apply (Hno "XL"); auto. now exists "X", "". }
  destruct (includes size "XXL") eqn:H2.
  { exfalso. apply includes_occurs in H2. apply (Hno "XXL"); auto. now exists "XX", "". }
  simpl; auto.
Qed.

End SizeParseFacts.




Example parseSize_examples :
  SizeParse.parseSize (Some "  xs ") = "XS"
  /\ SizeParse.parseSize (Some "medium") = "M"
  /\ SizeParse.parseSize (Some "Size: m") = "S"
  /\ SizeParse.parseSize (Some "XL") = "L"
  /\ SizeParse.parseSize (Some "xxl") = "L"
  /\ SizeParse.parseSize (Some "small") = "S"
  /\ SizeParse.parseSize (Some "L or S") = "S"
  /\ SizeParse.parseSize (Some "42") = "M"
  /\ SizeParse.parseSize (Some "   ") = "M"
  /\ SizeParse.parseSize None = "M".
Proof. repeat split; reflexivity. Qed.

(** [toUpperCase] on characters outside ASCII: U+00DF gives "SS", the
    ligature U+FB02 gives "FL", U+017F (long s) gives "S"; U+00F6 (o with
    diaeresis), whose upper case has no ASCII letter, is left as it is. *)
Example toUpperCase_examples :
  "Größe: L" = "Gr" ++ bytes [195; 182; 195; 159]%N ++ "e: L"
  /\ toUpperCase ("Gr" ++ bytes [195; 182; 195; 159]%N ++ "e") = "GR" ++ bytes [195; 182]%N ++ "SSE"
  /\ toUpperCase (bytes [239; 172; 130]%N ++ "ach") = "FLACH"
  /\ toUpperCase (bytes [197; 191]%N) = "S"
  /\ toUpperCase "Size: xl" = "SIZE: XL".
Proof. repeat split; reflexivity. Qed.


(** ** Resilient invoker *)

Section TraceFacts.
Context {T : Type}.

Lemma invocations_retryTrace (errs : list JS.error) (delay : Z) (last : settled T) :
  invocations (retryTrace errs delay last) = S (List.length errs).
Proof.
  revert delay; induction errs as [|e errs IH]; intros delay; simpl; [reflexivity|].
  now rewrite IH.
Qed.

Lemma observed_retryTrace (errs : list JS.error) (delay : Z) (last : settled T) :
  observed (retryTrace errs delay last) = (map Rejected errs ++ [last])%list.
Proof.
  revert delay; induction errs as [|e errs IH]; intros delay; simpl; [reflexivity|].
  now rewrite IH.
Qed.

Lemma backoff_succ (delay : Z) (n : nat) :
  backoff (delay * 2) (S n) = backoff delay (S (S n)).
Proof.
  unfold backoff.
  replace (Z.of_nat (S (S n)) - 1)%Z with (Z.succ (Z.of_nat (S n) - 1)) by lia.
  rewrite Z.pow_succ_r by lia. ring.
Qed.

Lemma sleeps_retryTrace (errs : list JS.error) (delay : Z) (last : settled T) :
  sleeps (retryTrace errs delay last) = map (backoff delay) (seq 1 (List.length errs)).
Proof.
  revert delay; induction errs as [|e errs IH]; intros delay; [reflexivity|].
  cbn [retryTrace sleeps List.length seq map]. rewrite IH. f_equal.
  - unfold backoff. simpl. ring.
  - rewrite <- (seq_shift (List.length errs) 1), map_map. apply map_ext_in.
    intros n Hn. apply in_seq in Hn. destruct n as [|n]; [lia|]. apply backoff_succ.
Qed.

End TraceFacts.

Section GatedRetryFacts.
Variables T W : Type.
Variable fn : async W T.

Lemma gated_trace_shape (retries : nat) (delay : Z) (w : W) :
  exists errs last,
    snd (Gated.fetchWithRetry T W fn retries delay w) = retryTrace errs delay last
    /\ (List.length errs <= retries)%nat
    /\ Forall (fun e => Gated.isRetryable e = true
                        /\ messageIncludes e Gated.entityNotFoundPhrase = false) errs
    /\ fst (fst (Gated.fetchWithRetry T W fn retries delay w))
       = match last with
         | Resolved v => Resolved v
         | Rejected e => Rejected (Gated.raised e)
         end
    /\ match last with
       | Resolved _ => True
       | Rejected e => messageIncludes e Gated.entityNotFoundPhrase = true
                       \/ Gated.isRetryable e = false
                       \/ List.length errs = retries
       end.
Proof.
  revert delay w; induction retries as [|r IH]; intros delay w; cbn [Gated.fetchWithRetry].
  - destruct (fn w) as [[v|e] w'].
    + exists [], (Resolved v). cbn. auto.
    + unfold Gated.raised.
      destruct (messageIncludes e Gated.entityNotFoundPhrase) eqn:Hp;
        exists [], (Rejected e); cbn; rewrite Hp; repeat split; auto.
  - destruct (fn w) as [[v|e] w'].
    + exists [], (Resolved v). cbn. repeat split; auto; lia.
    + destruct (messageIncludes e Gated.entityNotFoundPhrase) eqn:Hp.
      * exists [], (Rejected e). unfold Gated.raised; cbn; rewrite Hp.
        repeat split; auto; lia.
      * destruct (Gated.isRetryable e) eqn:Hr.
        -- destruct (IH (delay * 2)%Z w') as (errs & last & Htr & Hlen & Hall & Hres & Hlast).
           exists (e :: errs), last.
           destruct (Gated.fetchWithRetry T W fn r (delay * 2) w') as [[o w''] tr].
           cbn in *. subst tr. repeat split; auto; try lia.
           destruct last; auto. destruct Hlast as [?|[?|?]]; auto.
        -- exists [], (Rejected e). unfold Gated.raised; cbn; rewrite Hp.
           repeat split; auto; lia.
Qed.

End GatedRetryFacts.

Section FreeRetryFacts.
Variables T W : Type.
Variable fn : async W T.

Lemma free_trace_shape (retries : nat) (delay : Z) (w : W) :
  exists errs last,
    snd (Free.fetchWithRetry T W fn retries delay w) = retryTrace errs delay last
    /\ (List.length errs <= retries)%nat
    /\ Forall (fun e => Free.isRetryable e = true) errs
    /\ fst (fst (Free.fetchWithRetry T W fn retries delay w)) = last
    /\ match last with
       | Resolved _ => True
       | Rejected e => Free.isRetryable e = false \/ List.length errs = retries
       end.
Proof.
  revert delay w; induction retries as [|r IH]; intros delay w; cbn [Free.fetchWithRetry].
  - destruct (fn w) as [[v|e] w'].
    + exists [], (Resolved v). cbn. auto.
    + exists [], (Rejected e); cbn; repeat split; auto.
  - destruct (fn w) as [[v|e] w'].
    + exists [], (Resolved v). cbn. repeat split; auto; lia.
    + destruct (Free.isRetryable e) eqn:Hr.
      * destruct (IH (delay * 2)%Z w') as (errs & last & Htr & Hlen & Hall & Hres & Hlast).
        exists (e :: errs), last.
        destruct (Free.fetchWithRetry T W fn r (delay * 2) w') as [[o w''] tr].
        cbn in *. subst tr. repeat split; auto; try lia.
        destruct last; auto. destruct Hlast as [?|?]; auto.
      * exists [], (Rejected e). cbn. repeat split; auto; lia.
Qed.

End FreeRetryFacts.

Section ClassifierFacts.

Lemma messageIncludes_carries (e : JS.error) (needle : string) :
  messageIncludes e needle = true <-> carries needle e.
Proof.
  unfold messageIncludes, carries. destruct (message e) as [m|].
  - rewrite includes_occurs. split; [eauto | now intros (m' & [= <-] & H)].
  - split; [discriminate | now intros (m' & H & _)].
Qed.

Lemma statusIs429_spec (e : JS.error) :
  statusIs429 e = true <-> status e = Some 429%Z.
Proof.
  unfold statusIs429. destruct (status e) as [n|]; [|split; discriminate].
  rewrite Z.eqb_eq. split; congruence.
Qed.

Lemma free_isRetryable_spec (e : JS.error) :
  Free.isRetryable e = true
  <-> carries "429" e \/ status e = Some 429%Z \/ carries "quota" e.
Proof.
  unfold Free.isRetryable.
  rewrite !orb_true_iff, !messageIncludes_carries, statusIs429_spec. tauto.
Qed.

Lemma gated_isRetryable_spec (e : JS.error) :
  Gated.isRetryable e = true <-> carries "429" e \/ status e = Some 429%Z.
Proof.
  unfold Gated.isRetryable.
  rewrite orb_true_iff, messageIncludes_carries, statusIs429_spec. tauto.
Qed.

End ClassifierFacts.

(** Scenario D of the specification, on both service files: two
    rate-limit failures and then a success; the call succeeds after
    three invocations with timers of 2000ms and 4000ms. *)
Example rate_limited_twice_then_success :
  let e429 := Error "429 Too Many Requests" in
  let script := [Rejected e429; Rejected e429; Resolved 7%nat] in
  Gated.fetchWithRetry nat _ (scripted e429) 2 2000 script
    = (Resolved 7%nat, [],
       [Invoke (Rejected e429); Sleep 2000; Invoke (Rejected e429); Sleep 4000;
        Invoke (Resolved 7%nat)])
  /\ Free.fetchWithRetry nat _ (scripted e429) 2 2000 script
    = (Resolved 7%nat, [],
       [Invoke (Rejected e429); Sleep 2000; Invoke (Rejected e429); Sleep 4000;
        Invoke (Resolved 7%nat)]).
Proof. split; reflexivity. Qed.

(** With the default budget and base delay, as both services call the
    invoker: at most three invocations, and timers of 2000ms and then
    4000ms. *)
Lemma default_budget (T W : Type) (fn : async W T) (w : W) :
  let gated := snd (Gated.fetchWithRetry T W fn 2 2000 w) in
  let free := snd (Free.fetchWithRetry T W fn 2 2000 w) in
  ((invocations gated <= 3)%nat
   /\ (sleeps gated = [] \/ sleeps gated = [2000%Z] \/ sleeps gated = [2000%Z; 4000%Z]))
  /\ ((invocations free <= 3)%nat
      /\ (sleeps free = [] \/ sleeps free = [2000%Z] \/ sleeps free = [2000%Z; 4000%Z])).
Proof.
  cbv zeta. split.
  - destruct (gated_trace_shape T W fn 2 2000 w) as (errs & last & -> & Hlen & _).
    rewrite invocations_retryTrace, sleeps_retryTrace.
    destruct errs as [|e1 [|e2 [|e3 errs]]]; cbn in *; auto; lia.
  - destruct (free_trace_shape T W fn 2 2000 w) as (errs & last & -> & Hlen & _).
    rewrite invocations_retryTrace, sleeps_retryTrace.
    destruct errs as [|e1 [|e2 [|e3 errs]]]; cbn in *; auto; lia.
Qed.

(** C2 (as amended). For every wrapped operation, budget and base delay,
    in both service files: the trace is a run of failed invocations,
    each followed at once by its timer, and one last invocation, with at
    most [retries] failed ones before the last; so the operation is
    invoked at most [retries + 1] times, the timer between invocation n
    and invocation n+1 is [delay * 2^(n-1)], every invocation but the
    last one failed, and a resolved result is the first success.  When
    the last invocation failed, the free file raises that error, while
    the gated file raises it unless its message carries the
    entity-not-found phrase, in which case it raises [KEY_NOT_FOUND]. *)
Theorem fetchWithRetry_budget_backoff_outcome
    (T W : Type) (fn : async W T) (retries : nat) (delay : Z) (w : W) :
  (let '(result, _, tr) := Gated.fetchWithRetry T W fn retries delay w in
   (invocations tr <= retries + 1)%nat
   /\ sleeps tr = map (backoff delay) (seq 1 (invocations tr - 1))
   /\ exists errs last,
        tr = retryTrace errs delay last
        /\ (List.length errs <= retries)%nat
        /\ observed tr = (map Rejected errs ++ [last])%list
        /\ match last with
           | Resolved v => result = Resolved v
           | Rejected e =>
               result = Rejected (Gated.raised e)
               /\ (carries Gated.entityNotFoundPhrase e
                   \/ Gated.isRetryable e = false
                   \/ invocations tr = (retries + 1)%nat)
           end)
  /\
  (let '(result, _, tr) := Free.fetchWithRetry T W fn retries delay w in
   (invocations tr <= retries + 1)%nat
   /\ sleeps tr = map (backoff delay) (seq 1 (invocations tr - 1))
   /\ exists errs,
        tr = retryTrace errs delay result
        /\ (List.length errs <= retries)%nat
        /\ observed tr = (map Rejected errs ++ [result])%list
        /\ match result with
           | Resolved _ => True
           | Rejected e =>
               Free.isRetryable e = false \/ invocations tr = (retries + 1)%nat
           end).
Proof.
  split.
  - destruct (gated_trace_shape T W fn retries delay w)
      as (errs & last & Htr & Hlen & _ & Hres & Hlast).
    destruct (Gated.fetchWithRetry T W fn retries delay w) as [[result w'] tr].
    cbn in Htr, Hres. subst tr.
    rewrite invocations_retryTrace, sleeps_retryTrace, observed_retryTrace.
    replace (S (List.length errs) - 1)%nat with (List.length errs) by lia.
    repeat split; [lia|]. exists errs, last.
    split; [reflexivity|]. split; [exact Hlen|]. split; [reflexivity|].
    destruct last as [v|e]; [assumption|]. split; [assumption|].
    rewrite <- messageIncludes_carries.
    destruct Hlast as [?|[?|?]]; auto. right; right; lia.
  - destruct (free_trace_shape T W fn retries delay w)
      as (errs & last & Htr & Hlen & _ & Hres & Hlast).
    destruct (Free.fetchWithRetry T W fn retries delay w) as [[result w'] tr].
    cbn in Htr, Hres. subst tr result.
    rewrite invocations_retryTrace, sleeps_retryTrace, observed_retryTrace.
    replace (S (List.length errs) - 1)%nat with (List.length errs) by lia.
    repeat split; [lia|]. exists errs.
    split; [reflexivity|]. split; [exact Hlen|]. split; [reflexivity|].
    destruct last as [v|e]; [exact I|]. destruct Hlast; auto. right; lia.
Qed.

(** The shape [retryTrace] in the small: with two failures before the
    last invocation, the timers stand between the invocations. *)
Example retryTrace_example (e1 e2 : JS.error) (last : settled nat) :
  retryTrace [e1; e2] 2000 last
  = [Invoke (Rejected e1); Sleep 2000; Invoke (Rejected e2); Sleep 4000; Invoke last].
Proof. reflexivity. Qed.

(** C2, as stated, fails on the gated file: with the default budget, two
    rate-limit failures followed by an entity-not-found failure exhaust
    the budget, and what is raised is [KEY_NOT_FOUND], not the last
    observed error. *)
Lemma fetchWithRetry_last_error_counterexample :
  let e429 := Error "429 Too Many Requests" in
  let eNF := Error "Requested entity was not found." in
  let '(result, _, tr) :=
    Gated.fetchWithRetry nat _ (scripted e429) 2 2000
      [Rejected e429; Rejected e429; Rejected eNF] in
  invocations tr = 3%nat
  /\ last (observed tr) (Resolved 0%nat) = Rejected eNF
  /\ result <> Rejected eNF.
Proof. cbv. repeat split. discriminate. Qed.

Section StepFacts.
Variables T W : Type.
Variable fn : async W T.

Lemma gated_step_key (retries : nat) (delay : Z) (w w' : W) (e : JS.error) :
  fn w = (Rejected e, w') ->
  messageIncludes e Gated.entityNotFoundPhrase = true ->
  Gated.fetchWithRetry T W fn retries delay w
  = (Rejected Gated.keyNotFound, w', [Invoke (Rejected e)]).
Proof. intros Hfn Hp. destruct retries; cbn; now rewrite Hfn, Hp. Qed.

Lemma gated_step_retry (r : nat) (delay : Z) (w w' : W) (e : JS.error) :
  fn w = (Rejected e, w') ->
  messageIncludes e Gated.entityNotFoundPhrase = false ->
  Gated.isRetryable e = true ->
  Gated.fetchWithRetry T W fn (S r) delay w
  = prepend [Invoke (Rejected e); Sleep delay]
            (Gated.fetchWithRetry T W fn r (delay * 2) w').
Proof. intros Hfn Hp Hr. cbn [Gated.fetchWithRetry]. now rewrite Hfn, Hp, Hr. Qed.

Lemma gated_step_stop (retries : nat) (delay : Z) (w w' : W) (e : JS.error) :
  fn w = (Rejected e, w') ->
  messageIncludes e Gated.entityNotFoundPhrase = false ->
  Gated.isRetryable e = false \/ retries = 0%nat ->
  Gated.fetchWithRetry T W fn retries delay w
  = (Rejected e, w', [Invoke (Rejected e)]).
Proof.
  intros Hfn Hp Hr. destruct retries; cbn [Gated.fetchWithRetry]; rewrite Hfn, Hp.
  - reflexivity.
  - destruct Hr as [->|]; [reflexivity | discriminate].
Qed.

Lemma free_step_retry (r : nat) (delay : Z) (w w' : W) (e : JS.error) :
  fn w = (Rejected e, w') ->
  Free.isRetryable e = true ->
  Free.fetchWithRetry T W fn (S r) delay w
  = prepend [Invoke (Rejected e); Sleep delay]
            (Free.fetchWithRetry T W fn r (delay * 2) w').
Proof. intros Hfn Hr. cbn [Free.fetchWithRetry]. now rewrite Hfn, Hr. Qed.

Lemma free_step_stop (retries : nat) (delay : Z) (w w' : W) (e : JS.error) :
  fn w = (Rejected e, w') ->
  Free.isRetryable e = false \/ retries = 0%nat ->
  Free.fetchWithRetry T W fn retries delay w
  = (Rejected e, w', [Invoke (Rejected e)]).
Proof.
  intros Hfn Hr. destruct retries; cbn [Free.fetchWithRetry]; rewrite Hfn.
  - reflexivity.
  - destruct Hr as [->|]; [reflexivity | discriminate].
Qed.

Lemma step_resolved (retries : nat) (delay : Z) (w w' : W) (v : T) :
  fn w = (Resolved v, w') ->
  Gated.fetchWithRetry T W fn retries delay w = (Resolved v, w', [Invoke (Resolved v)])
  /\ Free.fetchWithRetry T W fn retries delay w = (Resolved v, w', [Invoke (Resolved v)]).
Proof. intros Hfn. destruct retries; cbn; now rewrite Hfn. Qed.

End StepFacts.

(** C3 (as amended). When an invocation fails with an error whose message
    contains the phrase "Requested entity was not found": the gated
    service file does not retry and raises [KEY_NOT_FOUND] after that one
    invocation, whatever the budget.  The free service file has no
    credential classification: it raises the error unchanged after that
    one invocation, unless the error also matches its retryable pattern
    and budget is left, in which case it sleeps and retries. *)
Theorem entity_not_found_is_terminal_in_gated_service
    (T W : Type) (fn : async W T) (retries : nat) (delay : Z)
    (w w' : W) (e : JS.error) :
  fn w = (Rejected e, w') ->
  carries Gated.entityNotFoundPhrase e ->
  Gated.fetchWithRetry T W fn retries delay w
    = (Rejected Gated.keyNotFound, w', [Invoke (Rejected e)])
  /\ (Free.isRetryable e = false \/ retries = 0%nat ->
      Free.fetchWithRetry T W fn retries delay w
        = (Rejected e, w', [Invoke (Rejected e)]))
  /\ (Free.isRetryable e = true -> retries <> 0%nat ->
      Free.fetchWithRetry T W fn retries delay w
        = prepend [Invoke (Rejected e); Sleep delay]
            (Free.fetchWithRetry T W fn (pred retries) (delay * 2) w')).
Proof.
  intros Hfn Hc. apply messageIncludes_carries in Hc. repeat split.
  - now apply gated_step_key.
  - intros H. now apply free_step_stop.
  - intros Hr Hn. destruct retries; [contradiction|]. now apply free_step_retry.
Qed.

Lemma entity_not_found_is_terminal_in_gated_service_witness :
  let e := Error "Requested entity was not found." in
  Gated.fetchWithRetry nat _ (scripted e) 2 2000 [Rejected e; Resolved 7%nat]
    = (Rejected Gated.keyNotFound, [Resolved 7%nat], [Invoke (Rejected e)]).
Proof.
  intros e.
  refine (proj1 (entity_not_found_is_terminal_in_gated_service
                   nat _ (scripted e) 2 2000 [Rejected e; Resolved 7%nat]
                   [Resolved 7%nat] e eq_refl _)).
  exists "Requested entity was not found.". split; [reflexivity|].
  now exists "", ".".
Defined.

(** C3, as stated, fails on the free file: the entity-not-found error is
    raised as it is, not as [KEY_NOT_FOUND]; and when its message also
    matches the retryable pattern the operation is invoked again. *)
Lemma entity_not_found_free_counterexample :
  let e := Error "Requested entity was not found." in
  let e' := Error "Requested entity was not found (quota project)." in
  messageIncludes e Gated.entityNotFoundPhrase = true
  /\ Free.fetchWithRetry nat _ (scripted e) 2 2000 [Rejected e; Resolved 7%nat]
     = (Rejected e, [Resolved 7%nat], [Invoke (Rejected e)])
  /\ Rejected (A := nat) e <> Rejected Gated.keyNotFound
  /\ messageIncludes e' Gated.entityNotFoundPhrase = true
  /\ invocations (snd (Free.fetchWithRetry nat _ (scripted e') 2 2000
                         [Rejected e'; Rejected e'; Rejected e'])) = 3%nat.
Proof. cbv. repeat split. discriminate. Qed.

(** C4 (as amended). The free service file treats a failure as retryable
    exactly when its message contains "429", its status is 429, or its
    message contains "quota"; the gated service file exactly when its
    message contains "429" or its status is 429 (a quota message alone is
    not retryable there), and only if the message does not carry the
    entity-not-found phrase, which is raised as [KEY_NOT_FOUND] instead.
    In both files a retryable failure with budget left is followed by a
    timer and a new invocation with the budget reduced by one and the
    delay doubled; every other failure is raised at once, unchanged. *)
Theorem retryable_classification
    (T W : Type) (fn : async W T) (retries : nat) (delay : Z)
    (w w' : W) (e : JS.error) :
  fn w = (Rejected e, w') ->
  (Free.isRetryable e = true
     <-> carries "429" e \/ status e = Some 429%Z \/ carries "quota" e)
  /\ (Free.isRetryable e = true -> retries <> 0%nat ->
      Free.fetchWithRetry T W fn retries delay w
        = prepend [Invoke (Rejected e); Sleep delay]
            (Free.fetchWithRetry T W fn (pred retries) (delay * 2) w'))
  /\ (Free.isRetryable e = false \/ retries = 0%nat ->
      Free.fetchWithRetry T W fn retries delay w
        = (Rejected e, w', [Invoke (Rejected e)]))
  /\ (Gated.isRetryable e = true <-> carries "429" e \/ status e = Some 429%Z)
  /\ (carries Gated.entityNotFoundPhrase e ->
      Gated.fetchWithRetry T W fn retries delay w
        = (Rejected Gated.keyNotFound, w', [Invoke (Rejected e)]))
  /\ (~ carries Gated.entityNotFoundPhrase e ->
      Gated.isRetryable e = true -> retries <> 0%nat ->
      Gated.fetchWithRetry T W fn retries delay w
        = prepend [Invoke (Rejected e); Sleep delay]
            (Gated.fetchWithRetry T W fn (pred retries) (delay * 2) w'))
  /\ (~ carries Gated.entityNotFoundPhrase e ->
      Gated.isRetryable e = false \/ retries = 0%nat ->
      Gated.fetchWithRetry T W fn retries delay w
        = (Rejected e, w', [Invoke (Rejected e)])).
Proof.
  intros Hfn.
  assert (Hno : ~ carries Gated.entityNotFoundPhrase e ->
                messageIncludes e Gated.entityNotFoundPhrase = false).
  { intros Hn. destruct (messageIncludes e _) eqn:Hp; [|reflexivity].
    now apply messageIncludes_carries in Hp. }
  repeat apply conj.
  - apply free_isRetryable_spec.
  - apply free_isRetryable_spec.
  - intros Hr Hn. destruct retries; [contradiction|]. now apply free_step_retry.
  - intros H. now apply free_step_stop.
  - apply gated_isRetryable_spec.
  - apply gated_isRetryable_spec.
  - intros Hc. apply messageIncludes_carries in Hc. now apply gated_step_key.
  - intros Hn Hr Hz. destruct retries; [contradiction|]. apply gated_step_retry; auto.
  - intros Hn H. apply gated_step_stop; auto.
Qed.

Lemma retryable_classification_witness :
  let e := Error "Resource exhausted: quota exceeded" in
  Free.fetchWithRetry nat _ (scripted e) 2 2000 [Rejected e; Resolved 7%nat]
    = prepend [Invoke (Rejected e); Sleep 2000]
        (Free.fetchWithRetry nat _ (scripted e) 1 4000 [Resolved 7%nat]).
Proof.
  intros e.
  refine (proj1 (proj2 (retryable_classification
                   nat _ (scripted e) 2 2000 [Rejected e; Resolved 7%nat]
                   [Resolved 7%nat] e eq_refl)) eq_refl _).
  discriminate.
Defined.

(** C4, as stated, fails on the gated file: a failure that carries only a
    quota signal is not retried there (the free file retries it). *)
Lemma quota_not_retried_in_gated_counterexample :
  let e := Error "Resource exhausted: quota exceeded" in
  messageIncludes e "quota" = true
  /\ Gated.fetchWithRetry nat _ (scripted e) 2 2000 [Rejected e; Resolved 7%nat]
     = (Rejected e, [Resolved 7%nat], [Invoke (Rejected e)])
  /\ Free.fetchWithRetry nat _ (scripted e) 2 2000 [Rejected e; Resolved 7%nat]
     = (Resolved 7%nat, [], [Invoke (Rejected e); Sleep 2000; Invoke (Resolved 7%nat)]).
Proof. cbv. repeat split. Qed.

(** ** Inspection of the composite response *)

Section InspectFacts.
Variables safetyMessage failureMessage : string.

Lemma blockedForSafety_spec (r : response) :
  blockedForSafety r = true
  <-> exists c rest, candidates r = Some (c :: rest) /\ finishReason c = Some "SAFETY".
Proof.
  unfold blockedForSafety, firstCandidate, optBind.
  destruct (candidates r) as [[|c rest]|].
  - split; [discriminate | intros (c & rest & [=] & _)].
  - destruct (finishReason c) as [fr|] eqn:Hfr.
    + rewrite String.eqb_eq. split.
      * intros ->. now exists c, rest.
      * intros (c' & rest' & [= <- <-] & H). congruence.
    + split; [discriminate|]. intros (c' & rest' & [= <- <-] & H). congruence.
  - split; [discriminate | intros (c & rest & [=] & _)].
Qed.

Lemma imagePart_find (r : response) :
  imagePart r = find hasInlineData (responseParts r).
Proof.
  unfold imagePart, responseParts.
  now destruct (optBind (optBind (firstCandidate r) candidate_content) parts).
Qed.

Lemma find_hasInlineData_first (ps : list part) (p : part) :
  find hasInlineData ps = Some p ->
  exists l1 l2 b, ps = (l1 ++ p :: l2)%list
                  /\ Forall (fun q => inlineData q = None) l1
                  /\ inlineData p = Some b.
Proof.
  intros H. apply find_first in H as (l1 & l2 & -> & Hp & Hall).
  unfold hasInlineData in Hp. destruct (inlineData p) as [b|] eqn:Hb; [|discriminate].
  exists l1, l2, b. repeat split; auto.
  eapply Forall_impl; [|exact Hall]. intros q. unfold hasInlineData.
  now destruct (inlineData q).
Qed.

Lemma find_hasInlineData_none (ps : list part) :
  find hasInlineData ps = None -> Forall (fun q => inlineData q = None) ps.
Proof.
  intros H. apply find_none in H.
  eapply Forall_impl; [|exact H]. intros q. unfold hasInlineData.
  now destruct (inlineData q).
Qed.

(** The three ways the inspection can end. *)
Lemma inspectResponseWith_cases (r : response) :
  (blockedForSafety r = true
   /\ inspectResponseWith safetyMessage failureMessage r = Rejected (Error safetyMessage))
  \/ (blockedForSafety r = false
      /\ exists l1 p l2 b d,
           responseParts r = (l1 ++ p :: l2)%list
           /\ Forall (fun q => inlineData q = None) l1
           /\ inlineData p = Some b /\ data b = Some d /\ truthy d = true
           /\ inspectResponseWith safetyMessage failureMessage r
              = Resolved (jpegDataUriPrefix ++ d))
  \/ (blockedForSafety r = false
      /\ (Forall (fun q => inlineData q = None) (responseParts r)
          \/ exists l1 p l2 b,
               responseParts r = (l1 ++ p :: l2)%list
               /\ Forall (fun q => inlineData q = None) l1
               /\ inlineData p = Some b /\ truthy_opt (data b) = false)
      /\ inspectResponseWith safetyMessage failureMessage r
         = Rejected (Error failureMessage)).
Proof.
  unfold inspectResponseWith.
  destruct (blockedForSafety r); [left; auto|]. right.
  rewrite imagePart_find.
  destruct (find hasInlineData (responseParts r)) as [p|] eqn:Hf.
  - destruct (find_hasInlineData_first _ _ Hf) as (l1 & l2 & b & Hps & Hall & Hb).
    cbn [optBind]. rewrite Hb. cbn [optBind].
    destruct (data b) as [d|] eqn:Hd.
    + destruct (truthy d) eqn:Ht.
      * left. split; [reflexivity|]. exists l1, p, l2, b, d. auto 8.
      * right. split; [reflexivity|]. split; [|reflexivity].
        right. exists l1, p, l2, b. rewrite Hd. auto.
    + right. split; [reflexivity|]. split; [|reflexivity].
      right. exists l1, p, l2, b. rewrite Hd. auto.
  - right. split; [reflexivity|]. split; [|reflexivity].
    left. now apply find_hasInlineData_none.
Qed.


Lemma inspectResponseWith_resolved (r : response) (uri : string) :
  inspectResponseWith safetyMessage failureMessage r = Resolved uri ->
  exists d, truthy d = true /\ uri = jpegDataUriPrefix ++ d.
Proof.
  intros H.
  destruct (inspectResponseWith_cases r) as [[_ H']|[(_ & H')|(_ & _ & H')]];
    try congruence.
  destruct H' as (l1 & p & l2 & b & d & _ & _ & _ & _ & Ht & H').
  exists d. split; [assumption | congruence].
Qed.

Lemma retagMime_blocked (f : option string -> option string) (r : response) :
  blockedForSafety (retagMime f r) = blockedForSafety r.
Proof.
  unfold blockedForSafety, firstCandidate, retagMime; cbn.
  now destruct (candidates r) as [[|c rest]|].
Qed.

Lemma retagMime_data (f : option string -> option string) (ps : list part) :
  optBind (optBind (find hasInlineData (map (retagPart f) ps)) inlineData) data
  = optBind (optBind (find hasInlineData ps) inlineData) data.
Proof.
  induction ps as [|p ps IH]; [reflexivity|].
  cbn [map find]. unfold hasInlineData at 1 3, retagPart at 1. cbn [inlineData].
  destruct (inlineData p) as [b|] eqn:Hb.
  - cbn. now rewrite Hb.
  - exact IH.
Qed.

Lemma inspectResponseWith_retagMime (f : option string -> option string) (r : response) :
  inspectResponseWith safetyMessage failureMessage (retagMime f r)
  = inspectResponseWith safetyMessage failureMessage r.
Proof.
  unfold inspectResponseWith. rewrite retagMime_blocked.
  destruct (blockedForSafety r); [reflexivity|].
  assert (H : optBind (optBind (imagePart (retagMime f r)) inlineData) data
              = optBind (optBind (imagePart r) inlineData) data).
  { unfold imagePart, firstCandidate, retagMime; cbn.
    destruct (candidates r) as [[|c rest]|]; try reflexivity.
    cbn. destruct (candidate_content c) as [ct|]; [|reflexivity].
    cbn. destruct (parts ct) as [ps|]; [|reflexivity].
    cbn. apply retagMime_data. }
  now rewrite H.
Qed.

End InspectFacts.

(** ** The composite call through the invoker *)

Section ServiceFacts.
Variable W : Type.
Variable env : ops W.
Variable IMAGE_MODEL : string.

Lemma safety_and_failure_not_retryable :
  Gated.isRetryable (Error Gated.safetyMessage) = false
  /\ messageIncludes (Error Gated.safetyMessage) Gated.entityNotFoundPhrase = false
  /\ Gated.isRetryable (Error Gated.failureMessage) = false
  /\ messageIncludes (Error Gated.failureMessage) Gated.entityNotFoundPhrase = false
  /\ Free.isRetryable (Error Free.safetyMessage) = false
  /\ Free.isRetryable (Error Free.failureMessage) = false.
Proof. repeat split; vm_compute; reflexivity. Qed.

Lemma gated_inspect_rejections (r : response) (e : JS.error) :
  Gated.inspectResponse r = Rejected e ->
  Gated.isRetryable e = false
  /\ messageIncludes e Gated.entityNotFoundPhrase = false.
Proof.
  unfold Gated.inspectResponse. intros H.
  destruct (inspectResponseWith_cases Gated.safetyMessage Gated.failureMessage r)
    as [[_ H']|[(_ & H')|(_ & _ & H')]].
  - rewrite H' in H. injection H as <-. split; apply safety_and_failure_not_retryable.
  - destruct H' as (? & ? & ? & ? & ? & _ & _ & _ & _ & _ & H'). congruence.
  - rewrite H' in H. injection H as <-. split; apply safety_and_failure_not_retryable.
Qed.

Lemma free_inspect_rejections (r : response) (e : JS.error) :
  Free.inspectResponse r = Rejected e -> Free.isRetryable e = false.
Proof.
  unfold Free.inspectResponse. intros H.
  destruct (inspectResponseWith_cases Free.safetyMessage Free.failureMessage r)
    as [[_ H']|[(_ & H')|(_ & _ & H')]].
  - rewrite H' in H. injection H as <-. apply safety_and_failure_not_retryable.
  - destruct H' as (? & ? & ? & ? & ? & _ & _ & _ & _ & _ & H'). congruence.
  - rewrite H' in H. injection H as <-. apply safety_and_failure_not_retryable.
Qed.

Lemma gated_attempt_inspects (u p : string) (product : Product)
    (w w1 w2 w3 : W) (optUser optProduct : string) (r : response) :
  optimizeImageIO env u (inject_Z 1024) w = (Resolved optUser, w1) ->
  optimizeImageIO env p (inject_Z 1024) w1 = (Resolved optProduct, w2) ->
  generateContent env (Gated.tryOnRequest IMAGE_MODEL optUser optProduct product) w2
    = (Resolved r, w3) ->
  Gated.tryOnAttempt W env IMAGE_MODEL u p product w = (Gated.inspectResponse r, w3).
Proof.
  intros H1 H2 H3. unfold Gated.tryOnAttempt, await, settle.
  now rewrite H1, H2, H3.
Qed.

Lemma free_attempt_inspects (u p : string) (product : Product)
    (w w1 w2 w3 : W) (optUser optProduct : string) (r : response) :
  optimizeImageIO env u (inject_Z 1024) w = (Resolved optUser, w1) ->
  optimizeImageIO env p (inject_Z 1024) w1 = (Resolved optProduct, w2) ->
  generateContent env (Free.tryOnRequest IMAGE_MODEL optUser optProduct product) w2
    = (Resolved r, w3) ->
  Free.tryOnAttempt W env IMAGE_MODEL u p product w = (Free.inspectResponse r, w3).
Proof.
  intros H1 H2 H3. unfold Free.tryOnAttempt, await, settle.
  now rewrite H1, H2, H3.
Qed.

(** Whatever the inspection yields ends the run of the invoker. *)
Lemma gated_inspection_is_final (fn : async W string) (retries : nat) (delay : Z)
    (w w' : W) (r : response) :
  fn w = (Gated.inspectResponse r, w') ->
  Gated.fetchWithRetry string W fn retries delay w
  = (Gated.inspectResponse r, w', [Invoke (Gated.inspectResponse r)]).
Proof.
  intros Hfn. destruct (Gated.inspectResponse r) as [v|e] eqn:Hi.
  - now apply step_resolved.
  - destruct (gated_inspect_rejections r e Hi) as [Hr Hp].
    apply gated_step_stop; auto.
Qed.

Lemma free_inspection_is_final (fn : async W string) (retries : nat) (delay : Z)
    (w w' : W) (r : response) :
  fn w = (Free.inspectResponse r, w') ->
  Free.fetchWithRetry string W fn retries delay w
  = (Free.inspectResponse r, w', [Invoke (Free.inspectResponse r)]).
Proof.
  intros Hfn. destruct (Free.inspectResponse r) as [v|e] eqn:Hi.
  - now apply step_resolved.
  - apply free_step_stop; auto. left. eapply free_inspect_rejections; eauto.
Qed.

(** A resolved run of the invoker hands on what some invocation of the
    wrapped operation resolved to. *)
Lemma gated_resolved_from_fn (T : Type) (fn : async W T) (retries : nat) (delay : Z)
    (w : W) (v : T) :
  fst (fst (Gated.fetchWithRetry T W fn retries delay w)) = Resolved v ->
  exists w0 w1, fn w0 = (Resolved v, w1).
Proof.
  revert delay w; induction retries as [|n IH]; intros delay w;
    cbn [Gated.fetchWithRetry]; destruct (fn w) as [[v'|e] w'] eqn:Hfn; cbn.
  - intros [= ->]. eauto.
  - destruct (messageIncludes e _); cbn; discriminate.
  - intros [= ->]. eauto.
  - destruct (messageIncludes e _); cbn; [discriminate|].
    destruct (Gated.isRetryable e); cbn; [|discriminate].
    specialize (IH (delay * 2)%Z w').
    destruct (Gated.fetchWithRetry T W fn n (delay * 2) w') as [[o w''] tr]; cbn in *.
    exact IH.
Qed.

Lemma free_resolved_from_fn (T : Type) (fn : async W T) (retries : nat) (delay : Z)
    (w : W) (v : T) :
  fst (fst (Free.fetchWithRetry T W fn retries delay w)) = Resolved v ->
  exists w0 w1, fn w0 = (Resolved v, w1).
Proof.
  revert delay w; induction retries as [|n IH]; intros delay w;
    cbn [Free.fetchWithRetry]; destruct (fn w) as [[v'|e] w'] eqn:Hfn; cbn.
  - intros [= ->]. eauto.
  - discriminate.
  - intros [= ->]. eauto.
  - destruct (Free.isRetryable e); cbn; [|discriminate].
    specialize (IH (delay * 2)%Z w').
    destruct (Free.fetchWithRetry T W fn n (delay * 2) w') as [[o w''] tr]; cbn in *.
    exact IH.
Qed.

Lemma gated_attempt_resolved (u p : string) (product : Product) (w w' : W) (uri : string) :
  Gated.tryOnAttempt W env IMAGE_MODEL u p product w = (Resolved uri, w') ->
  exists r, Gated.inspectResponse r = Resolved uri.
Proof.
  unfold Gated.tryOnAttempt, await, settle.
  destruct (optimizeImageIO env u _ w) as [[a|e] w1]; [|discriminate].
  destruct (optimizeImageIO env p _ w1) as [[b|e] w2]; [|discriminate].
  destruct (generateContent env _ w2) as [[r|e] w3]; [|discriminate].
  intros [= H _]. eauto.
Qed.

Lemma free_attempt_resolved (u p : string) (product : Product) (w w' : W) (uri : string) :
  Free.tryOnAttempt W env IMAGE_MODEL u p product w = (Resolved uri, w') ->
  exists r, Free.inspectResponse r = Resolved uri.
Proof.
  unfold Free.tryOnAttempt, await, settle.
  destruct (optimizeImageIO env u _ w) as [[a|e] w1]; [|discriminate].
  destruct (optimizeImageIO env p _ w1) as [[b|e] w2]; [|discriminate].
  destruct (generateContent env _ w2) as [[r|e] w3]; [|discriminate].
  intros [= H _]. eauto.
Qed.

End ServiceFacts.

Lemma inspectResponseWith_inspection (safetyMessage failureMessage : string) (r : response) :
  inspection safetyMessage failureMessage r
    (inspectResponseWith safetyMessage failureMessage r).
Proof.
  unfold inspection, firstInlinePart.
  destruct (inspectResponseWith_cases safetyMessage failureMessage r)
    as [[Hb H]|[(Hb & H)|(Hb & H & Ho)]]; rewrite Hb; [exact H| |].
  - left. destruct H as (l1 & p & l2 & b & d & H1 & H2 & H3 & H4 & H5 & H6).
    exists p, b, d. eauto 10.
  - right. split; [|exact Ho]. destruct H as [H|(l1 & p & l2 & b & H1 & H2 & H3 & H4)].
    + now left.
    + right. exists p, b. eauto 10.
Qed.




(** C10. A composite call that succeeds returns a data URI that starts
    with "data:image/jpeg;base64," followed by the selected part's data;
    the MIME type the backend declared on its inline data plays no part
    in the result. *)
Theorem composite_payload_is_declared_jpeg :
  (forall (f : option string -> option string) (r : response),
      Gated.inspectResponse (retagMime f r) = Gated.inspectResponse r
      /\ Free.inspectResponse (retagMime f r) = Free.inspectResponse r)
  /\ (forall (r : response) (uri : string),
         Gated.inspectResponse r = Resolved uri \/ Free.inspectResponse r = Resolved uri ->
         startsWith uri "data:image/jpeg;base64," = true
         /\ exists p b d, firstInlinePart r p b /\ data b = Some d
                          /\ uri = "data:image/jpeg;base64," ++ d)
  /\ (forall (W : Type) (env : ops W) (IMAGE_MODEL u p : string) (product : Product)
             (w : W) (uri : string),
         fst (fst (Gated.performVirtualTryOn W env IMAGE_MODEL u p product w)) = Resolved uri
         \/ fst (fst (Free.performVirtualTryOn W env IMAGE_MODEL u p product w)) = Resolved uri ->
         startsWith uri "data:image/jpeg;base64," = true).
Proof.
  assert (Hpre : forall d, startsWith (jpegDataUriPrefix ++ d) "data:image/jpeg;base64," = true).
  { intros d. unfold startsWith. apply prefix_app. now exists d. }
  assert (Hres : forall sm fm r uri,
             inspectResponseWith sm fm r = Resolved uri ->
             startsWith uri "data:image/jpeg;base64," = true
             /\ exists p b d, firstInlinePart r p b /\ data b = Some d
                              /\ uri = "data:image/jpeg;base64," ++ d).
  { intros sm fm r uri H.
    pose proof (inspectResponseWith_inspection sm fm r) as Hi.
    unfold inspection in Hi. rewrite H in Hi.
    destruct (blockedForSafety r); [discriminate|].
    destruct Hi as [(p & b & d & Hp & Hd & _ & [= ->])|[_ ?]]; [|discriminate].
    split; [apply Hpre|]. now exists p, b, d. }
  repeat split.
  - apply inspectResponseWith_retagMime.
  - apply inspectResponseWith_retagMime.
  - destruct H as [H|H]; apply Hres in H; apply H.
  - destruct H as [H|H]; apply Hres in H; apply H.
  - intros W env IMAGE_MODEL u p product w uri [H|H].
    + apply gated_resolved_from_fn in H as (w0 & w1 & H).
      apply gated_attempt_resolved in H as [r H]. apply Hres in H. apply H.
    + apply free_resolved_from_fn in H as (w0 & w1 & H).
      apply free_attempt_resolved in H as [r H]. apply Hres in H. apply H.
Qed.

Lemma composite_payload_is_declared_jpeg_witness :
  let r := singleCandidate "STOP" [textPart "done"; blobPart (Some "QUJD") (Some "image/png")] in
  Gated.inspectResponse r = Resolved "data:image/jpeg;base64,QUJD"
  /\ startsWith "data:image/jpeg;base64,QUJD" "data:image/jpeg;base64," = true.
Proof.
  intros r. split; [reflexivity|].
  exact (proj1 (proj1 (proj2 composite_payload_is_declared_jpeg)
                  r "data:image/jpeg;base64,QUJD" (or_introl eq_refl))).
Defined.

(** ** Image normalisation *)

Section ImagingFacts.

Lemma gtQ_true (x y : Q) : gtQ x y = true <-> y < x.
Proof.
  unfold gtQ. rewrite negb_true_iff, <- not_true_iff_false, Qle_bool_iff.
  split; [apply Qnot_le_lt | apply Qlt_not_le].
Qed.

Lemma gtQ_false (x y : Q) : gtQ x y = false <-> x <= y.
Proof. unfold gtQ. now rewrite negb_false_iff, Qle_bool_iff. Qed.

Lemma scale_facts (a b B : Q) :
  0 <= a -> a <= b -> 0 < B -> B < b ->
  0 <= a * (B / b) /\ a * (B / b) <= B /\ a * (B / b) <= a
  /\ B * a == a * (B / b) * b.
Proof.
  intros Ha Hab HB HBb.
  assert (Hb : ~ b == 0) by lra.
  set (q := B / b).
  assert (Hq : q * b == B) by (unfold q; field; exact Hb).
  assert (Hq0 : 0 < q) by (unfold q; apply Qlt_shift_div_l; lra).
  assert (Hq1 : q <= 1) by (unfold q; apply Qle_shift_div_r; lra).
  repeat split; [nra | nra | nra |].
  rewrite <- Hq. ring.
Qed.

Lemma inject_N_nonneg (n : N) : 0 <= inject_Z (Z.of_N n).
Proof. rewrite <- (Zle_Qle 0). lia. Qed.

Lemma Qfloor_bounds (x : Q) (n : Z) :
  0 <= x -> x <= inject_Z n -> (0 <= Qfloor x <= n)%Z.
Proof.
  intros H0 Hn. split.
  - rewrite <- (Qfloor_Z 0). now apply Qfloor_resp_le.
  - rewrite <- (Qfloor_Z n). now apply Qfloor_resp_le.
Qed.

Lemma inject_max_le (a b : Z) (B : Q) :
  inject_Z (Z.max a b) <= B -> inject_Z a <= B /\ inject_Z b <= B.
Proof.
  intros H. split; (eapply Qle_trans; [|exact H]); rewrite <- Zle_Qle; lia.
Qed.

(** The scaled size: within the bound, proportional to the source, not
    larger than the source, and the source size itself when that fits. *)
Lemma scaledSize_spec (w h : N) (B : Q) :
  0 < B ->
  let W := inject_Z (Z.of_N w) in
  let H := inject_Z (Z.of_N h) in
  let '(width, height) := scaledSize w h B in
  0 <= width /\ 0 <= height
  /\ width <= B /\ height <= B
  /\ width <= W /\ height <= H
  /\ width * H == height * W
  /\ (W <= B /\ H <= B -> width = W /\ height = H)
  /\ (B < W \/ B < H -> width == B \/ height == B).
Proof.
  intros HB W H. unfold scaledSize. fold W H.
  pose proof (inject_N_nonneg w) as HW0. pose proof (inject_N_nonneg h) as HH0.
  fold W in HW0. fold H in HH0.
  assert (Hsym : forall x y : Q, x == y -> y == x) by (intros; now symmetry).
  destruct (gtQ W H) eqn:Hwh; [apply gtQ_true in Hwh | apply gtQ_false in Hwh].
  - destruct (gtQ W B) eqn:HwB; [apply gtQ_true in HwB | apply gtQ_false in HwB].
    + destruct (scale_facts H W B HH0 (Qlt_le_weak _ _ Hwh) HB HwB) as (A1 & A2 & A3 & A4).
      repeat split; try assumption; try lra.
    + repeat split; try lra.
  - destruct (gtQ H B) eqn:HhB; [apply gtQ_true in HhB | apply gtQ_false in HhB].
    + destruct (scale_facts W H B HW0 Hwh HB HhB) as (A1 & A2 & A3 & A4).
      repeat split; try assumption; try lra; try (now apply Hsym).
    + repeat split; try lra.
Qed.

End ImagingFacts.

(** *** Rounding to doubles *)

Section DoubleFacts.

Lemma pow2_pos (e : Z) : 0 < pow2 e.
Proof. apply Qpower_0_lt. reflexivity. Qed.

Lemma pow2_plus (a b : Z) : pow2 (a + b) == pow2 a * pow2 b.
Proof. apply Qpower_plus. discriminate. Qed.

Lemma pow2_Z (n : Z) : (0 <= n)%Z -> pow2 n == inject_Z (2 ^ n).
Proof. intros H. unfold pow2. now rewrite Zpower_Qpower. Qed.

Lemma pow2_opp (n : Z) : pow2 (- n) == / pow2 n.
Proof. apply Qpower_opp. Qed.

Lemma pow2_le (a b : Z) : (a <= b)%Z -> pow2 a <= pow2 b.
Proof. intros H. apply Qpower_le_compat_l; [exact H | discriminate]. Qed.

Lemma pow2_lt_inv (a b : Z) : pow2 a < pow2 b -> (a < b)%Z.
Proof.
  intros H. destruct (Z_lt_le_dec a b) as [Hlt|Hle]; [exact Hlt|].
  apply pow2_le in Hle. lra.
Qed.

Lemma inv_le_swap (x p : Q) : 0 < x -> 0 < p -> / x <= p -> / p <= x.
Proof.
  intros Hx Hp H. apply Qle_shift_inv_r; [exact Hp|].
  assert (Hm : x * / x == 1) by (apply Qmult_inv_r; lra).
  nra.
Qed.

Lemma inv_lt_swap (x p : Q) : 0 < x -> 0 < p -> p < / x -> x < / p.
Proof.
  intros Hx Hp H. apply Qlt_shift_inv_l; [exact Hp|].
  assert (Hm : x * / x == 1) by (apply Qmult_inv_r; lra).
  nra.
Qed.

(** [log2floor x] is the binary exponent of a positive [x]. *)
Lemma log2floor_spec (x : Q) :
  0 < x -> pow2 (log2floor x) <= x /\ x < pow2 (log2floor x + 1).
Proof.
  intros Hx. unfold log2floor.
  destruct (Qle_bool 1 x) eqn:H1.
  - apply Qle_bool_iff in H1.
    pose proof (Qfloor_le x) as Hfl. pose proof (Qlt_floor x) as Hlt.
    assert (Hn : (0 < Qfloor x)%Z).
    { assert (H := Qfloor_resp_le 1 x H1). change (Qfloor 1) with 1%Z in H. lia. }
    destruct (Z.log2_spec _ Hn) as [Ha Hb].
    pose proof (Z.log2_nonneg (Qfloor x)) as Hk.
    rewrite !pow2_Z by lia. split.
    + apply Qle_trans with (inject_Z (Qfloor x)); [|exact Hfl]. now rewrite <- Zle_Qle.
    + apply Qlt_le_trans with (inject_Z (Qfloor x + 1)); [exact Hlt|].
      rewrite <- Zle_Qle. change (Z.log2 (Qfloor x) + 1)%Z with (Z.succ (Z.log2 (Qfloor x))). lia.
  - assert (Hx1 : x < 1).
    { apply Qnot_le_lt. intros H. apply Qle_bool_iff in H. congruence. }
    assert (Hinv : 1 < / x).
    { apply Qlt_shift_inv_l; lra. }
    pose proof (Qle_ceiling (/ x)) as Hc. pose proof (Qceiling_lt (/ x)) as Hc'.
    set (n := Qceiling (/ x)) in *.
    assert (Hn : (1 < n)%Z).
    { rewrite Zlt_Qlt. change (inject_Z 1) with 1. lra. }
    destruct (Z.log2_up_spec _ Hn) as [Ha Hb].
    pose proof (Z.log2_up_pos _ Hn) as Hj.
    set (j := Z.log2_up n) in *.
    split.
    + rewrite pow2_opp, pow2_Z by lia.
      apply inv_le_swap; [exact Hx | |].
      * rewrite <- (Zlt_Qlt 0). lia.
      * apply Qle_trans with (inject_Z n); [exact Hc|]. now rewrite <- Zle_Qle.
    + replace (- j + 1)%Z with (- (Z.pred j))%Z by lia.
      rewrite pow2_opp, pow2_Z by lia.
      apply inv_lt_swap; [exact Hx | |].
      * rewrite <- (Zlt_Qlt 0). lia.
      * apply Qle_lt_trans with (inject_Z (n - 1)); [|exact Hc'].
        rewrite <- Zle_Qle. lia.
Qed.

Lemma roundHalfEven_close (a : Q) :
  a - (1 # 2) <= inject_Z (roundHalfEven a) /\ inject_Z (roundHalfEven a) <= a + (1 # 2).
Proof.
  unfold roundHalfEven.
  pose proof (Qfloor_le a) as Hfl. pose proof (Qlt_floor a) as Hlt.
  rewrite inject_Z_plus in Hlt. change (inject_Z 1) with 1 in Hlt.
  destruct (Qcompare_spec (a - inject_Z (Qfloor a)) (1 # 2)) as [H|H|H].
  - destruct (Z.even (Qfloor a)); [|rewrite inject_Z_plus; change (inject_Z 1) with 1]; lra.
  - lra.
  - rewrite inject_Z_plus; change (inject_Z 1) with 1; lra.
Qed.

Lemma round64_pos (x : Q) : 0 < x -> round64 x = roundPos x.
Proof.
  intros Hx. unfold round64.
  destruct (Qcompare_spec x 0) as [H|H|H]; [lra | lra | reflexivity].
Qed.

Lemma round64_zero (x : Q) : x == 0 -> round64 x = 0.
Proof.
  intros Hx. unfold round64.
  destruct (Qcompare_spec x 0) as [H|H|H]; [reflexivity | lra | lra].
Qed.

(** Rounding to the nearest double moves a positive number in the normal
    range by at most the relative amount [eps] = 2^-53. *)
Lemma round64_rel (x : Q) :
  pow2 (-1022) <= x ->
  x * (1 - eps) <= round64 x /\ round64 x <= x * (1 + eps).
Proof.
  intros Hn.
  assert (Hx : 0 < x) by (pose proof (pow2_pos (-1022)); lra).
  rewrite (round64_pos x Hx). unfold roundPos.
  destruct (log2floor_spec x Hx) as [Hlo Hhi].
  set (k := log2floor x) in *.
  assert (Hk : (-1022 <= k)%Z).
  { assert (H : (-1022 < k + 1)%Z) by (apply pow2_lt_inv; lra). lia. }
  assert (He : exponent x = (k - 52)%Z) by (unfold exponent; fold k; lia).
  rewrite He. set (s := pow2 (k - 52)).
  assert (Hs : 0 < s) by apply pow2_pos.
  destruct (roundHalfEven_close (x / s)) as [Ha Hb].
  set (m := inject_Z (roundHalfEven (x / s))) in *.
  assert (Hxs : x / s * s == x) by (field; lra).
  assert (Hsk : s == pow2 k * (1 # 4503599627370496)).
  { unfold s. replace (k - 52)%Z with (k + - 52)%Z by lia. rewrite pow2_plus.
    apply Qmult_comp; [reflexivity|]. reflexivity. }
  assert (Hse : s * (1 # 2) <= x * eps).
  { rewrite Hsk. unfold eps. pose proof (pow2_pos k). nra. }
  split; nra.
Qed.

End DoubleFacts.

(** *** The scaled edge *)

Section EdgeFacts.

Lemma pow2_m32 : pow2 (-1022) <= 1 # 8589934592.
Proof.
  apply Qle_trans with (pow2 (-33)); [apply pow2_le; lia|].
  unfold pow2. apply Qle_lteq. right. reflexivity.
Qed.

(** The scaled shorter edge [a * (B / b)] in doubles, for whole numbers
    [0 <= a <= b < 2^32] and [0 < B < b]: it is not negative, not larger
    than [a], below [B + 1], and equal to the exact quotient [a * B / b]
    up to the relative error 2^-51 of the two roundings. *)
Lemma scaled_edge (a b B : Z) :
  (0 <= a <= b)%Z -> (b < 2 ^ 32)%Z -> (0 < B < b)%Z ->
  let y := fmul (inject_Z a) (fdiv (inject_Z B) (inject_Z b)) in
  0 <= y /\ y <= inject_Z a /\ y < inject_Z B + 1
  /\ y * inject_Z b <= inject_Z a * inject_Z B * (1 + (1 # 2251799813685248))
  /\ inject_Z a * inject_Z B * (1 - (1 # 2251799813685248)) <= y * inject_Z b.
Proof.
  intros Ha Hb HB y.
  assert (HA0 : 0 <= inject_Z a) by (rewrite <- (Zle_Qle 0); lia).
  assert (HAb : inject_Z a <= inject_Z b) by (rewrite <- Zle_Qle; lia).
  assert (HB1 : 1 <= inject_Z B) by (rewrite <- (Zle_Qle 1); lia).
  assert (HBb : inject_Z B <= inject_Z b - 1).
  { setoid_replace (inject_Z b - 1) with (inject_Z (b - 1)).
    - rewrite <- Zle_Qle; lia.
    - unfold Zminus. rewrite inject_Z_plus. reflexivity. }
  assert (Hb32 : inject_Z b <= inject_Z 4294967295) by (rewrite <- Zle_Qle; lia).
  change (inject_Z 4294967295) with 4294967295 in Hb32.
  subst y. unfold fmul, fdiv.
  set (A := inject_Z a) in *. set (Bq := inject_Z B) in *. set (D := inject_Z b) in *.
  set (q := Bq / D).
  assert (Hq : q * D == Bq) by (unfold q; field; lra).
  assert (Hq0 : 0 < q) by (unfold q; apply Qlt_shift_div_l; lra).
  assert (Hm1 : 0 <= q * (4294967295 - D)) by (apply Qmult_le_0_compat; lra).
  assert (Hqlo : (1 # 4294967296) <= q) by lra.
  assert (Hq1 : q <= 1).
  { unfold q. apply Qle_shift_div_r; lra. }
  assert (Hm2 : 0 <= (1 - q) * (4294967295 - D)) by (apply Qmult_le_0_compat; lra).
  assert (Hqhi : q <= 1 - (1 # 4294967296)) by lra.
  destruct (round64_rel q) as [Hr1 Hr2].
  { pose proof pow2_m32. lra. }
  unfold eps in Hr1, Hr2. set (q' := round64 q) in *.
  assert (Hxq : A * q <= Bq) by nra.
  assert (Hx0 : 0 <= A * q) by nra.
  assert (Hplo : A * q * (1 - (1 # 9007199254740992)) <= A * q') by nra.
  assert (Hphi : A * q' <= A * q * (1 + (1 # 9007199254740992))) by nra.
  assert (HAq : A * q <= A * (1 - (1 # 4294967296))) by nra.
  assert (HxD : A * q * D == A * Bq) by (rewrite <- Hq; ring).
  destruct (Z.eq_dec a 0) as [Ha0|Ha0].
  - assert (HAz : A == 0) by (unfold A; rewrite Ha0; reflexivity).
    rewrite (round64_zero (A * q')) by (rewrite HAz; ring).
    assert (HAB : A * Bq == 0) by (rewrite HAz; ring).
    repeat split; try lra; rewrite HAB; lra.
  - assert (HA1 : 1 <= A) by (unfold A; rewrite <- (Zle_Qle 1); lia).
    destruct (round64_rel (A * q')) as [Hs1 Hs2].
    { pose proof pow2_m32. nra. }
    unfold eps in Hs1, Hs2. set (y := round64 (A * q')) in *.
    assert (Hd1 : 0 <= (A * q * (1 + (1 # 2251799813685248)) - y) * D)
      by (apply Qmult_le_0_compat; lra).
    assert (Hd2 : 0 <= (y - A * q * (1 - (1 # 2251799813685248))) * D)
      by (apply Qmult_le_0_compat; lra).
    repeat split; try lra.
Qed.

End EdgeFacts.

Section BitmapFacts64.

Lemma Qfloor_le_Z (x : Q) (n : Z) : x < inject_Z n + 1 -> (Qfloor x <= n)%Z.
Proof.
  intros H. pose proof (Qfloor_le x) as Hle.
  assert (Hlt : inject_Z (Qfloor x) < inject_Z (n + 1)).
  { rewrite inject_Z_plus. change (inject_Z 1) with 1. lra. }
  rewrite <- Zlt_Qlt in Hlt. lia.
Qed.

(** The shorter edge of the bitmap after scaling: the whole pixels of the
    product computed in doubles. *)
Lemma scaled_pixels (a b B : Z) :
  (0 <= a <= b)%Z -> (b < 2 ^ 32)%Z -> (0 < B < b)%Z ->
  let c := toCanvasSize (fmul (inject_Z a) (fdiv (inject_Z B) (inject_Z b))) in
  (0 <= c <= a)%Z /\ (c <= B)%Z
  /\ (2 ^ 51 * (c * b) <= (2 ^ 51 + 1) * (a * B))%Z
  /\ ((2 ^ 51 - 1) * (a * B) < 2 ^ 51 * ((c + 1) * b))%Z.
Proof.
  intros Ha Hb HB.
  destruct (scaled_edge a b B Ha Hb HB) as (Y0 & Ya & YB & Yhi & Ylo).
  cbv zeta. unfold toCanvasSize.
  set (y := fmul (inject_Z a) (fdiv (inject_Z B) (inject_Z b))) in *.
  pose proof (Qfloor_le y) as Hfl. pose proof (Qlt_floor y) as Hlt.
  rewrite inject_Z_plus in Hlt. change (inject_Z 1) with 1 in Hlt.
  set (c := Qfloor y) in *.
  assert (HD : 0 < inject_Z b) by (rewrite <- (Zlt_Qlt 0); lia).
  split; [now apply Qfloor_bounds|].
  split; [now apply Qfloor_le_Z|].
  split.
  - rewrite Zle_Qle, !inject_Z_mult.
    change (inject_Z (2 ^ 51)) with 2251799813685248.
    change (inject_Z (2 ^ 51 + 1)) with 2251799813685249.
    assert (H : 0 <= (y - inject_Z c) * inject_Z b) by (apply Qmult_le_0_compat; lra).
    lra.
  - rewrite Zlt_Qlt, !inject_Z_mult, inject_Z_plus.
    change (inject_Z (2 ^ 51)) with 2251799813685248.
    change (inject_Z (2 ^ 51 - 1)) with 2251799813685247.
    change (inject_Z 1) with 1.
    assert (H : 0 < (inject_Z c + 1 - y) * inject_Z b) by (apply Qmult_lt_0_compat; lra).
    lra.
Qed.

Lemma gtQ_Z (a b : Z) : gtQ (inject_Z a) (inject_Z b) = (b <? a)%Z.
Proof.
  destruct (b <? a)%Z eqn:H.
  - apply gtQ_true. rewrite <- Zlt_Qlt. lia.
  - apply gtQ_false. rewrite <- Zle_Qle. lia.
Qed.

(** What [optimizeImage] computes for a decoded image, in doubles. *)
Lemma optimizeImage64_cases (w h : N) (B : Z) :
  (w < 2 ^ 32)%N -> (h < 2 ^ 32)%N -> (0 < B)%Z ->
  exists c,
    Imaging64.optimizeImage (OnLoad w h) true (inject_Z B) = Resolved c
    /\ (0 <= canvas_width c <= Z.of_N w)%Z
    /\ (0 <= canvas_height c <= Z.of_N h)%Z
    /\ (canvas_width c <= B)%Z /\ (canvas_height c <= B)%Z
    /\ ((Z.of_N w <= B)%Z -> (Z.of_N h <= B)%Z ->
        canvas_width c = Z.of_N w /\ canvas_height c = Z.of_N h)
    /\ ((h < w)%N -> (B < Z.of_N w)%Z ->
        canvas_width c = B
        /\ (2 ^ 51 * (canvas_height c * Z.of_N w) <= (2 ^ 51 + 1) * (Z.of_N h * B))%Z
        /\ ((2 ^ 51 - 1) * (Z.of_N h * B) < 2 ^ 51 * ((canvas_height c + 1) * Z.of_N w))%Z)
    /\ ((w <= h)%N -> (B < Z.of_N h)%Z ->
        canvas_height c = B
        /\ (2 ^ 51 * (canvas_width c * Z.of_N h) <= (2 ^ 51 + 1) * (Z.of_N w * B))%Z
        /\ ((2 ^ 51 - 1) * (Z.of_N w * B) < 2 ^ 51 * ((canvas_width c + 1) * Z.of_N h))%Z).
Proof.
  intros Hw Hh HB.
  assert (Hw' : (Z.of_N w < 2 ^ 32)%Z) by (change (2 ^ 32)%Z with (Z.of_N (2 ^ 32)); lia).
  assert (Hh' : (Z.of_N h < 2 ^ 32)%Z) by (change (2 ^ 32)%Z with (Z.of_N (2 ^ 32)); lia).
  unfold Imaging64.optimizeImage, Imaging64.scaledSize.
  rewrite !gtQ_Z.
  destruct (Z.of_N h <? Z.of_N w)%Z eqn:Hwh;
    [apply Z.ltb_lt in Hwh | apply Z.ltb_ge in Hwh].
  - destruct (B <? Z.of_N w)%Z eqn:HBw;
      [apply Z.ltb_lt in HBw | apply Z.ltb_ge in HBw];
      cbn [negb]; eexists; (split; [reflexivity|]);
      cbn [canvas_width canvas_height]; unfold toCanvasSize; rewrite ?Qfloor_Z.
    + destruct (scaled_pixels (Z.of_N h) (Z.of_N w) B) as (C1 & C2 & C3 & C4);
        [lia | lia | lia |]. unfold toCanvasSize in *.
      repeat split; try lia.
    + repeat split; try lia.
  - destruct (B <? Z.of_N h)%Z eqn:HBh;
      [apply Z.ltb_lt in HBh | apply Z.ltb_ge in HBh];
      cbn [negb]; eexists; (split; [reflexivity|]);
      cbn [canvas_width canvas_height]; unfold toCanvasSize; rewrite ?Qfloor_Z.
    + destruct (scaled_pixels (Z.of_N w) (Z.of_N h) B) as (C1 & C2 & C3 & C4);
        [lia | lia | lia |]. unfold toCanvasSize in *.
      repeat split; try lia.
    + repeat split; try lia.
Qed.

End BitmapFacts64.

(** C6 (as amended). For every image that decodes, with width [w] and
    height [h] (whole numbers below 2^32), and every positive whole
    bound [B], a 2D context being available: the normalised image
    exists; the longer edge of its bitmap does not exceed [B]; neither
    edge is larger than the source's; when the source's longer edge is
    at most [B] the bitmap has the source's dimensions; otherwise the
    longer edge of the bitmap is [B] and the shorter edge [s'] is the
    proportional value [s * B / l] (for source edges [s <= l]) computed
    in doubles and cut to whole pixels:
    [s' <= (s * B / l) * (1 + 2^-51)] and
    [(s * B / l) * (1 - 2^-51) < s' + 1].  The aspect ratio is kept up to
    this truncation, not exactly. *)
Theorem optimizeImage_fits_bound (w h : N) (B : Z) :
  (w < 2 ^ 32)%N -> (h < 2 ^ 32)%N -> (0 < B)%Z ->
  exists c,
    Imaging64.optimizeImage (OnLoad w h) true (inject_Z B) = Resolved c
    /\ (longerEdge (canvas_width c) (canvas_height c) <= B)%Z
    /\ (0 <= canvas_width c <= Z.of_N w)%Z
    /\ (0 <= canvas_height c <= Z.of_N h)%Z
    /\ ((longerEdge (Z.of_N w) (Z.of_N h) <= B)%Z ->
        canvas_width c = Z.of_N w /\ canvas_height c = Z.of_N h)
    /\ ((B < longerEdge (Z.of_N w) (Z.of_N h))%Z ->
        longerEdge (canvas_width c) (canvas_height c) = B
        /\ ((h < w)%N ->
            canvas_width c = B
            /\ (2 ^ 51 * (canvas_height c * Z.of_N w) <= (2 ^ 51 + 1) * (Z.of_N h * B))%Z
            /\ ((2 ^ 51 - 1) * (Z.of_N h * B) < 2 ^ 51 * ((canvas_height c + 1) * Z.of_N w))%Z)
        /\ ((w <= h)%N ->
            canvas_height c = B
            /\ (2 ^ 51 * (canvas_width c * Z.of_N h) <= (2 ^ 51 + 1) * (Z.of_N w * B))%Z
            /\ ((2 ^ 51 - 1) * (Z.of_N w * B) < 2 ^ 51 * ((canvas_width c + 1) * Z.of_N h))%Z)).
Proof.
  intros Hw Hh HB.
  destruct (optimizeImage64_cases w h B Hw Hh HB)
    as (c & Hc & Cw & Ch & CwB & ChB & Hfit & Hland & Hport).
  exists c. unfold longerEdge.
  split; [exact Hc|]. split; [lia|]. split; [exact Cw|]. split; [exact Ch|].
  split.
  - intros Hle. apply Hfit; lia.
  - intros Hlt. destruct (N.lt_ge_cases h w) as [Hhw|Hwh].
    + destruct (Hland Hhw) as (E & P1 & P2); [lia|].
      split; [lia|]. split; [intros _; now repeat split | intros Hn; lia].
    + destruct (Hport Hwh) as (E & P1 & P2); [lia|].
      split; [lia|]. split; [intros Hn; lia | intros _; now repeat split].
Qed.

Lemma optimizeImage_fits_bound_witness :
  exists c,
    Imaging64.optimizeImage (OnLoad 3000 2000) true (inject_Z 1024) = Resolved c
    /\ canvas_width c = 1024%Z /\ canvas_height c = 682%Z.
Proof.
  destruct (optimizeImage_fits_bound 3000 2000 1024 eq_refl eq_refl eq_refl)
    as (c & Hc & _).
  exists c. split; [exact Hc|].
  vm_compute in Hc. injection Hc as <-. split; reflexivity.
Defined.

(** C6, as stated, fails in its aspect-ratio clause.  A 928 x 290 source
    at bound 800 has the exactly proportional size 800 x 250, and the
    bitmap is 800 x 249: 290 * (800 / 928) is 249.99999999999997 in
    doubles, of which the canvas keeps the whole pixels.  A 2000 x 1
    source at bound 1024 gives a bitmap of 1024 x 0, without any aspect
    ratio.  The bound itself has to be a whole number: for the double
    next below 2 as bound, a 3 x 3 source gives a bitmap of 2 x 1, whose
    longer edge exceeds the bound, since 3 * (B / 3) is 2 in doubles. *)
Lemma aspect_ratio_counterexample :
  (Imaging64.bitmapSize (Imaging64.optimizeImage (OnLoad 928 290) true (inject_Z 800))
   = Some (800, 249)%Z
   /\ (800 * 290 = 250 * 928)%Z
   /\ (800 * 290 <> 249 * 928)%Z)
  /\ Imaging64.bitmapSize (Imaging64.optimizeImage (OnLoad 2000 1) true (inject_Z 1024))
     = Some (1024, 0)%Z
  /\ (let B := 2 - (1 # 4503599627370496) in
      round64 B == B /\ 0 < B /\ B < 2
      /\ Imaging64.bitmapSize (Imaging64.optimizeImage (OnLoad 3 3) true B)
         = Some (2, 1)%Z).
Proof.
  split; [split; [|split]|split];
    [vm_compute; reflexivity | reflexivity | discriminate | vm_compute; reflexivity |].
  vm_compute. repeat split.
Qed.

(** Sample values of the rounding: 1/3 and 1/10 as doubles, the tie
    2^53 + 1 (to the even neighbour 2^53), 2^53 + 3 (to 2^53 + 4), whole
    numbers (unchanged), and the two quotients of the counterexample. *)
Example round64_examples :
  fdiv 1 3 == 6004799503160661 # 18014398509481984
  /\ fdiv 1 10 == 3602879701896397 # 36028797018963968
  /\ round64 (inject_Z (2 ^ 53 + 1)) == inject_Z (2 ^ 53)
  /\ round64 (inject_Z (2 ^ 53 + 3)) == inject_Z (2 ^ 53 + 4)
  /\ round64 800 == 800
  /\ round64 (- (5 # 2)) == - (5 # 2)
  /\ fmul 290 (fdiv 800 928) < 250
  /\ Qfloor (fmul 290 (fdiv 800 928)) = 249%Z
  /\ Qfloor (fmul 620 (fdiv 800 992)) = 499%Z.
Proof. vm_compute. repeat split. Qed.

Section ModelFacts.

(** The two models of [optimizeImage] reject alike and set the same
    backdrop and encoding; they differ in the rounding of the scaled
    edge only. *)
Lemma optimizeImage_models_agree (img : decoded) (ctx : bool) (B : Q) :
  match Imaging.optimizeImage img ctx B, Imaging64.optimizeImage img ctx B with
  | Rejected e, Rejected e' => e = e'
  | Resolved c, Resolved c' =>
      backdrop c = backdrop c' /\ mime c = mime c' /\ quality c = quality c'
  | _, _ => False
  end.
Proof.
  unfold Imaging.optimizeImage, Imaging64.optimizeImage.
  destruct img as [w h|]; [|reflexivity].
  destruct (Imaging.scaledSize w h B), (Imaging64.scaledSize w h B).
  destruct ctx; cbn; auto.
Qed.

(** The empty bitmap of an extreme aspect ratio is there in doubles as
    well. *)
Lemma empty_bitmap_in_doubles (w h : N) (B : Z) :
  (w < 2 ^ 32)%N -> (h < 2 ^ 32)%N -> (0 < B)%Z ->
  (Z.of_N h * B < Z.of_N w)%Z ->
  exists c, Imaging64.optimizeImage (OnLoad w h) true (inject_Z B) = Resolved c
            /\ canvas_height c = 0%Z.
Proof.
  intros Hw Hh HB Hlt.
  destruct (optimizeImage64_cases w h B Hw Hh HB)
    as (c & Hc & Cw & Ch & CwB & ChB & Hfit & Hland & _).
  exists c. split; [exact Hc|].
  assert (Hw' : (Z.of_N w < 2 ^ 32)%Z) by (change (2 ^ 32)%Z with (Z.of_N (2 ^ 32)); lia).
  assert (Hhw : (h < w)%N) by nia.
  destruct (Z_lt_le_dec B (Z.of_N w)) as [HBw|HBw].
  - destruct (Hland Hhw HBw) as (_ & P1 & _).
    destruct (Z.eq_dec (canvas_height c) 0) as [E|E]; [exact E|exfalso].
    assert (Hq : (Z.of_N w <= canvas_height c * Z.of_N w)%Z) by nia.
    change (2 ^ 51)%Z with 2251799813685248%Z in P1.
    change (2 ^ 32)%Z with 4294967296%Z in Hw'. lia.
  - assert (Hh0 : Z.of_N h = 0%Z) by nia. lia.
Qed.

End ModelFacts.


(** C7 (as amended). When the decoder reports an error for the source,
    normalisation rejects with "Bild konnte nicht verarbeitet werden." and
    yields no payload, whatever the bound.  The code has no check of its
    own on the decoded size: a source that the decoder loads is never
    rejected when a 2D context is available. *)
Theorem optimizeImage_rejects_decoder_errors :
  (forall (ctx : bool) (B : Q),
      optimizeImage OnError ctx B
      = Rejected (Error "Bild konnte nicht verarbeitet werden."))
  /\ (forall (w h : N) (B : Q),
         exists c, optimizeImage (OnLoad w h) true B = Resolved c)
  /\ (forall (W : Type) (env : ops W) (src : string) (B : Q) (w w' : W),
         decode env src w = (OnError, w') ->
         optimizeImageIO env src B w
         = (Rejected (Error "Bild konnte nicht verarbeitet werden."), w')).
Proof.
  split; [reflexivity|]. split.
  - intros w h B. unfold optimizeImage. destruct (scaledSize w h B). eexists; reflexivity.
  - intros W env src B w w' H. unfold optimizeImageIO. now rewrite H.
Qed.

Lemma optimizeImage_rejects_decoder_errors_witness :
  optimizeImageIO (constantWorld OnError "data:," (Rejected (Error "unused")))
    "data:image/png;base64,AAAA" (inject_Z 800) tt
  = (Rejected (Error "Bild konnte nicht verarbeitet werden."), tt).
Proof.
  exact (proj2 (proj2 optimizeImage_rejects_decoder_errors) unit
           (constantWorld OnError "data:," (Rejected (Error "unused")))
           "data:image/png;base64,AAAA" (inject_Z 800) tt tt eq_refl).
Defined.

(** C7, as stated, fails for a zero-dimension source that the decoder
    loads: normalisation resolves, with a bitmap of no pixels. *)
Lemma zero_dimension_source_counterexample :
  zeroDimension (OnLoad 0 0) = true
  /\ exists c, optimizeImage (OnLoad 0 0) true (inject_Z 1024) = Resolved c
               /\ canvas_width c = 0%Z /\ canvas_height c = 0%Z.
Proof. split; [reflexivity|]. eexists. split; [reflexivity|]. split; reflexivity. Qed.

(** ** Remote fetch *)

(** C8. A product-image URL that starts with "data:" is returned
    unchanged and no load is started; any other URL starts exactly one
    load, of the proxy URL built from it. *)
Theorem urlToBase64_data_passthrough
    (encodeURIComponent : string -> string) (toDataURL : string -> canvas -> string)
    (load : string -> decoded) (ctx : bool) :
  (forall rest : string,
      urlToBase64 encodeURIComponent toDataURL load ctx ("data:" ++ rest)
      = ([], Resolved ("data:" ++ rest)))
  /\ (forall url : string,
         startsWith url "data:" = true ->
         urlToBase64 encodeURIComponent toDataURL load ctx url = ([], Resolved url))
  /\ (forall url : string,
         startsWith url "data:" = false ->
         fst (urlToBase64 encodeURIComponent toDataURL load ctx url)
         = [Fetch (proxyUrl encodeURIComponent url)]).
Proof.
  assert (H : forall url, startsWith url "data:" = true ->
              urlToBase64 encodeURIComponent toDataURL load ctx url = ([], Resolved url)).
  { intros url Hd. unfold urlToBase64. now rewrite Hd. }
  repeat split.
  - intros rest. apply H. unfold startsWith. apply prefix_app. now exists rest.
  - exact H.
  - intros url Hd. unfold urlToBase64. now rewrite Hd.
Qed.

Lemma urlToBase64_data_passthrough_witness :
  urlToBase64 (fun u => u) (fun _ _ => "data:image/jpeg;base64,ZZZZ") (fun _ => OnError) true
    "data:image/png;base64,iVBORw0KGgo="
  = ([], Resolved "data:image/png;base64,iVBORw0KGgo=")
  /\ fst (urlToBase64 (fun u => u) (fun _ _ => "data:image/jpeg;base64,ZZZZ")
            (fun _ => OnError) true "https://shop.example/set.png")
     = [Fetch "https://images.weserv.nl/?url=https://shop.example/set.png&w=1024&output=jpg"].
Proof.
  pose proof (urlToBase64_data_passthrough (fun u => u)
                (fun _ _ => "data:image/jpeg;base64,ZZZZ") (fun _ => OnError) true)
    as (_ & Hdata & Hother).
  split.
  - exact (Hdata "data:image/png;base64,iVBORw0KGgo=" eq_refl).
  - exact (Hother "https://shop.example/set.png" eq_refl).
Defined.

(** ** The orchestrator *)

Section OrchestratorFacts.

Lemma messageOr_truthy (e : JS.error) (fallback : string) :
  truthy fallback = true -> truthy (messageOr e fallback) = true.
Proof.
  intros Hf. unfold messageOr. destruct (message e) as [m|]; [|exact Hf].
  destruct (truthy m) eqn:Hm; [exact Hm | exact Hf].
Qed.

Lemma gated_onError_publishes (err : JS.error) (a1 : AppState) :
  exists msg a2,
    GatedApp.onError err a1 = (a2, Failed msg)
    /\ truthy msg = true
    /\ state a2 = publishError msg (state a1).
Proof.
  unfold GatedApp.onError. destruct (GatedApp.isKeyNotFound err).
  - eexists _, _. repeat split.
  - destruct (includes _ "429") eqn:H; eexists _, _; repeat split.
    now apply messageOr_truthy.
Qed.

Lemma free_onError_publishes (err : JS.error) (a1 : AppState) :
  exists msg a2,
    FreeApp.onError err a1 = (a2, Failed msg)
    /\ truthy msg = true
    /\ state a2 = publishError msg (state a1).
Proof.
  unfold FreeApp.onError.
  destruct (includes _ "429") eqn:H; eexists _, _; repeat split.
  now apply messageOr_truthy.
Qed.

(** What both [handleTryOn] functions share, given what their catch
    block does. *)
Lemma tryBlock_cases (svc : services) (l1 l2 l3 : string) (pace : Z)
    (user : string) (product : Product) :
  (exists productBase64 composite size,
      call_urlToBase64 svc (imageUrl product) = Resolved productBase64
      /\ call_estimateSizeFromImage svc user (name product) = Resolved size
      /\ call_performVirtualTryOn svc user productBase64 product = Resolved composite
      /\ snd (tryBlock svc l1 l2 l3 pace user product) = Resolved (composite, size))
  \/
  (exists err,
      ((exists e, call_urlToBase64 svc (imageUrl product) = Rejected e)
       \/ (exists productBase64 e,
              call_urlToBase64 svc (imageUrl product) = Resolved productBase64
              /\ call_estimateSizeFromImage svc user (name product) = Rejected e)
       \/ (exists productBase64 size e,
              call_urlToBase64 svc (imageUrl product) = Resolved productBase64
              /\ call_estimateSizeFromImage svc user (name product) = Resolved size
              /\ call_performVirtualTryOn svc user productBase64 product = Rejected e))
      /\ snd (tryBlock svc l1 l2 l3 pace user product) = Rejected err).
Proof.
  unfold tryBlock.
  destruct (call_urlToBase64 svc (imageUrl product)) as [pb|e] eqn:H1.
  - destruct (call_estimateSizeFromImage svc user (name product)) as [sz|e] eqn:H2.
    + destruct (call_performVirtualTryOn svc user pb product) as [res|e] eqn:H3.
      * left. exists pb, res, sz. auto.
      * right. exists e. split; [|reflexivity]. right; right. exists pb, sz, e. auto.
    + right. exists e. split; [|reflexivity]. right; left. exists pb, e. auto.
  - right. exists e. split; [|reflexivity]. left. now exists e.
Qed.

End OrchestratorFacts.

(** C9. In both application files, an attempt that starts with a user
    image and a selected product ends in exactly one of two ways.  Either
    all three service calls resolved, and the composite and the size are
    published together (and no error).  Or one of the calls rejected, and
    an error message is published while the result fields keep the values
    they had before the attempt: nothing obtained during the attempt is
    published, in particular not a size estimate that preceded a
    rendering failure; so when the attempt started without a result (as
    after the initial state or a reset) there is none afterwards. *)
Theorem handleTryOn_publishes_result_or_error
    (svc : services) (a : AppState) (user : string) (product : Product) :
  ready a user product ->
  (let '(a', _, o) := GatedApp.handleTryOn svc a in
   exactlyOnePublished svc a a' o user product
   /\ (forall composite size msg,
          ~ (successPublished a' composite size /\ failurePublished a a' msg))
   /\ (resultImage (state a) = None -> recommendedSize (state a) = None ->
       forall msg, o = Failed msg ->
       resultImage (state a') = None /\ recommendedSize (state a') = None))
  /\
  (let '(a', _, o) := FreeApp.handleTryOn svc a in
   exactlyOnePublished svc a a' o user product
   /\ (forall composite size msg,
          ~ (successPublished a' composite size /\ failurePublished a a' msg))
   /\ (resultImage (state a) = None -> recommendedSize (state a) = None ->
       forall msg, o = Failed msg ->
       resultImage (state a') = None /\ recommendedSize (state a') = None)).
Proof.
  intros (Hu & Ht & Hp).
  assert (Hexcl : forall a' composite size msg,
             ~ (successPublished a' composite size /\ failurePublished a a' msg)).
  { intros a' c s m [(_ & _ & He & _) (He' & _)]. congruence. }
  split.
  - unfold GatedApp.handleTryOn. rewrite Hu, Hp, Ht. cbn [negb].
    destruct (tryBlock_cases svc "Lade High-End-Modell..." "Analysiere Proportionen..."
                "Generiere Foto-Realismus..." 1000 user product)
      as [(pb & res & sz & H1 & H2 & H3 & Hr)|(err & Hwhy & Hr)];
      destruct (tryBlock _ _ _ _ _ _ _) as [ev r]; cbn [snd] in Hr; subst r.
    + split; [|split; [apply Hexcl|]].
      * left. exists pb, res, sz. repeat split; auto.
      * intros _ _ msg [=].
    + match goal with |- context [GatedApp.onError err ?a1] =>
        destruct (gated_onError_publishes err a1) as (msg & a2 & -> & Hm & Hs) end.
      split; [|split; [apply Hexcl|]].
      * right. exists msg. split; [exact Hwhy|]. split; [reflexivity|].
        unfold failurePublished. rewrite Hs. cbn. auto.
      * intros Hr0 Hs0 msg' _. rewrite Hs. cbn. auto.
  - unfold FreeApp.handleTryOn. rewrite Hu, Hp, Ht. cbn [negb].
    destruct (tryBlock_cases svc "Produkt wird geladen..." "Größe wird berechnet..."
                "Look wird gerendert..." 1200 user product)
      as [(pb & res & sz & H1 & H2 & H3 & Hr)|(err & Hwhy & Hr)];
      destruct (tryBlock _ _ _ _ _ _ _) as [ev r]; cbn [snd] in Hr; subst r.
    + split; [|split; [apply Hexcl|]].
      * left. exists pb, res, sz. repeat split; auto.
      * intros _ _ msg [=].
    + match goal with |- context [FreeApp.onError err ?a1] =>
        destruct (free_onError_publishes err a1) as (msg & a2 & -> & Hm & Hs) end.
      split; [|split; [apply Hexcl|]].
      * right. exists msg. split; [exact Hwhy|]. split; [reflexivity|].
        unfold failurePublished. rewrite Hs. cbn. auto.
      * intros Hr0 Hs0 msg' _. rewrite Hs. cbn. auto.
Qed.

Lemma handleTryOn_publishes_result_or_error_witness :
  let svc := fixedServices (Resolved "M") (Rejected (Error Gated.failureMessage)) in
  let '(a', _, o) := GatedApp.handleTryOn svc sampleReady in
  o = Failed Gated.failureMessage
  /\ resultImage (state a') = None /\ recommendedSize (state a') = None.
Proof.
  intros svc.
  pose proof (handleTryOn_publishes_result_or_error svc sampleReady
                "data:image/jpeg;base64,AAAA" sampleProduct
                (conj eq_refl (conj eq_refl eq_refl))) as [HG _].
  destruct (GatedApp.handleTryOn svc sampleReady) as [[a' ev] o] eqn:E.
  vm_compute in E. injection E as <- <- <-.
  split; [reflexivity|].
  exact (proj2 (proj2 HG) eq_refl eq_refl _ eq_refl).
Defined.

(** Without a user image or a selected product nothing happens. *)
Lemma handleTryOn_not_started (svc : services) (a : AppState) :
  truthy_opt (userImage (state a)) = false \/ selectedProduct (state a) = None ->
  GatedApp.handleTryOn svc a = (a, [], NotStarted)
  /\ FreeApp.handleTryOn svc a = (a, [], NotStarted).
Proof.
  unfold GatedApp.handleTryOn, FreeApp.handleTryOn.
  destruct (userImage (state a)) as [u|]; cbn [truthy_opt].
  - destruct (selectedProduct (state a)); intros [Hu|Hp];
      try discriminate; try rewrite Hu; auto.
  - intros _. destruct (selectedProduct (state a)); auto.
Qed.

(** Scenario A of the specification on the gated application: the three
    stages in order, then composite and size published together. *)
Example successful_attempt :
  GatedApp.handleTryOn
    (fixedServices (Resolved "M") (Resolved "data:image/jpeg;base64,QUJD")) sampleReady
  = ({| state := {| userImage := Some "data:image/jpeg;base64,AAAA";
                    selectedProduct := Some sampleProduct;
                    resultImage := Some "data:image/jpeg;base64,QUJD";
                    recommendedSize := Some "M";
                    isLoading := false; error := None |};
        hasKey := Some true; loadingStep := "Generiere Foto-Realismus..."; step := 3 |},
     [Stage "Lade High-End-Modell..."; Called "urlToBase64";
      Stage "Analysiere Proportionen..."; Called "estimateSizeFromImage";
      Timer 1000; Stage "Generiere Foto-Realismus..."; Called "performVirtualTryOn"],
     Succeeded "data:image/jpeg;base64,QUJD" "M").
Proof. reflexivity. Qed.

(** Scenario C: a [KEY_NOT_FOUND] failure of the size call clears
    [hasKey] and publishes the re-selection message. *)
Example key_not_found_attempt :
  let '(a', ev, o) :=
    GatedApp.handleTryOn
      (fixedServices (Rejected Gated.keyNotFound) (Resolved "unused")) sampleReady in
  hasKey a' = Some false
  /\ error (state a') = Some "Bitte wähle deinen API Key erneut aus."
  /\ recommendedSize (state a') = None
  /\ ev = [Stage "Lade High-End-Modell..."; Called "urlToBase64";
           Stage "Analysiere Proportionen..."; Called "estimateSizeFromImage";
           Logged Gated.keyNotFound].
Proof. cbv. repeat split. Qed.

(* ================================================================== *)
(** * Further properties of the code *)

(** ** [getCleanBase64] *)

Section CleanBase64Facts.

Lemma fromSemicolon_skip (mime tail : string) :
  noSemicolon mime = true ->
  fromSemicolon (mime ++ String ";" tail) = Some (String ";" tail).
Proof.
  induction mime as [|c mime IH]; intros H; [reflexivity|].
  cbn in H. apply andb_true_iff in H as [Hc Hm].
  cbn [append fromSemicolon]. apply negb_true_iff in Hc. rewrite Hc. now apply IH.
Qed.

Lemma fromSemicolon_split (s tail : string) :
  fromSemicolon s = Some tail ->
  exists mime rest, noSemicolon mime = true /\ s = mime ++ tail /\ tail = String ";" rest.
Proof.
  revert tail; induction s as [|c s IH]; intros tail H; [discriminate|].
  cbn [fromSemicolon] in H. destruct (Ascii.eqb c ";") eqn:Hc.
  - injection H as <-. apply Ascii.eqb_eq in Hc as ->. now exists "", s.
  - destruct (IH _ H) as (mime & rest & Hm & -> & ->).
    exists (String c mime), rest. cbn. rewrite Hc, Hm. auto.
Qed.

Lemma prefix_split (p s : string) :
  String.prefix p s = true -> s = p ++ dropChars (String.length p) s.
Proof.
  revert s; induction p as [|a p IH]; intros s H; [reflexivity|].
  destruct s as [|b s]; [discriminate|]. cbn in H.
  destruct (ascii_dec a b) as [->|]; [|discriminate].
  cbn. f_equal. now apply IH.
Qed.

End CleanBase64Facts.

(** X1. A data URL with a non-empty media type that holds no semicolon,
    followed by ";base64,", is reduced to exactly what follows that
    header. *)
Theorem getCleanBase64_strips_header (mime payload : string) :
  truthy mime = true ->
  noSemicolon mime = true ->
  getCleanBase64 ("data:" ++ mime ++ ";base64," ++ payload) = payload.
Proof.
  intros Hne Hm. unfold getCleanBase64.
  assert (Hp : String.prefix "data:" ("data:" ++ mime ++ ";base64," ++ payload) = true)
    by (apply prefix_app; eauto).
  assert (Hd5 : forall x, dropChars 5 ("data:" ++ x) = x) by reflexivity.
  assert (Hd8 : forall x, dropChars 8 (String ";" ("base64," ++ x)) = x) by reflexivity.
  rewrite Hp, Hd5.
  change (";base64," ++ payload) with (String ";" ("base64," ++ payload)).
  rewrite (fromSemicolon_skip mime _ Hm).
  assert (H1 : String.prefix ";base64," (String ";" ("base64," ++ payload)) = true)
    by (apply prefix_app; now exists payload).
  rewrite H1.
  destruct mime as [|c mime]; [discriminate|].
  cbn in Hm. apply andb_true_iff in Hm as [Hc _]. apply negb_true_iff in Hc.
  assert (H2 : String.prefix ";" (String c mime ++ String ";" ("base64," ++ payload)) = false).
  { cbn [append String.prefix].
    destruct (ascii_dec ";" c) as [<-|]; [discriminate | reflexivity]. }
  rewrite H2. cbn [andb negb]. apply Hd8.
Qed.

Lemma getCleanBase64_strips_header_witness :
  getCleanBase64 "data:image/jpeg;base64,/9j/4AAQSkZJRg==" = "/9j/4AAQSkZJRg==".
Proof.
  exact (getCleanBase64_strips_header "image/jpeg" "/9j/4AAQSkZJRg==" eq_refl eq_refl).
Defined.

(** X2. Every other string is returned unchanged: whenever the result
    differs from the argument, the argument is "data:", a non-empty media
    type without semicolon, ";base64," and the result.  So a string that
    is not a data URL, a data URL without ";base64," right after its
    media type (as the "data:," of an empty canvas), and one with an
    empty media type all pass through as they are. *)
Theorem getCleanBase64_unchanged_or_header (s : string) :
  getCleanBase64 s = s
  \/ exists mime payload,
       truthy mime = true /\ noSemicolon mime = true
       /\ s = "data:" ++ mime ++ ";base64," ++ payload
       /\ getCleanBase64 s = payload.
Proof.
  unfold getCleanBase64.
  destruct (String.prefix "data:" s) eqn:Hd; [|now left].
  apply prefix_split in Hd. change (String.length "data:") with 5%nat in Hd.
  set (rest := dropChars 5 s) in *.
  destruct (fromSemicolon rest) as [tail|] eqn:Hf; [|now left].
  destruct (String.prefix ";base64," tail) eqn:Hb; [|now left].
  destruct (String.prefix ";" rest) eqn:Hs; [now left|].
  right. cbn [andb negb].
  destruct (fromSemicolon_split _ _ Hf) as (mime & rest' & Hm & Hrest & Htail).
  apply prefix_split in Hb. change (String.length ";base64,") with 8%nat in Hb.
  set (payload := dropChars 8 tail) in *.
  exists mime, payload. repeat split; auto.
  - destruct mime; [|reflexivity]. cbn [append] in Hrest. rewrite Hrest, Htail in Hs.
    assert (String.prefix ";" (String ";" rest') = true)
      by (apply prefix_app; now exists rest').
    congruence.
  - rewrite Hd, Hrest, Hb. reflexivity.
Qed.

(** ** Size parsing: the decision table *)

(** X3. The size parser as a decision table on a response text of ASCII
    characters: XS when the text contains "xs" in any letter case;
    otherwise S when it contains "s"; otherwise M when it contains "m";
    otherwise L when it contains "l"; otherwise M.  XL and XXL are never
    returned, for any text, since a text that contains them contains
    "L". *)
Theorem parseSize_decision_table (t : string) :
  (isAscii t = true ->
   (SizeParse.occurs_nocase "XS" t -> SizeParse.parseSize (Some t) = "XS")
   /\ (~ SizeParse.occurs_nocase "XS" t -> SizeParse.occurs_nocase "S" t ->
       SizeParse.parseSize (Some t) = "S")
   /\ (~ SizeParse.occurs_nocase "S" t -> SizeParse.occurs_nocase "M" t ->
       SizeParse.parseSize (Some t) = "M")
   /\ (~ SizeParse.occurs_nocase "S" t -> ~ SizeParse.occurs_nocase "M" t ->
       SizeParse.occurs_nocase "L" t ->
       SizeParse.parseSize (Some t) = "L")
   /\ (~ SizeParse.occurs_nocase "S" t -> ~ SizeParse.occurs_nocase "L" t ->
       SizeParse.parseSize (Some t) = "M"))
  /\ SizeParse.parseSize (Some t) <> "XL"
  /\ SizeParse.parseSize (Some t) <> "XXL".
Proof.
  assert (Hrange : SizeParse.parseSize (Some t) <> "XL"
                   /\ SizeParse.parseSize (Some t) <> "XXL").
  { pose proof (parseSize_range (Some t)) as Hr.
    split; intros H; rewrite H in Hr; simpl in Hr; intuition discriminate. }
  split; [|exact Hrange]. intros Hascii.
  assert (Hin : forall c, In c ["XS"; "S"; "M"; "L"; "XL"; "XXL"] ->
                          In c SizeParse.validSizes) by (intros c H; exact H).
  assert (Ht : forall c, In c SizeParse.validSizes ->
             SizeParse.occurs_nocase c t -> includes (toUpperCase (trim t)) c = true)
    by (intros c Hc; apply includes_upper_trim; assumption).
  assert (Hf : forall c, In c SizeParse.validSizes ->
             ~ SizeParse.occurs_nocase c t -> includes (toUpperCase (trim t)) c = false)
    by (intros c Hc; apply includes_upper_trim_false; assumption).
  assert (Hsub : forall a b, occurs a b -> In a SizeParse.validSizes ->
             In b SizeParse.validSizes ->
             ~ SizeParse.occurs_nocase a t -> ~ SizeParse.occurs_nocase b t).
  { intros a b Hab Ha Hb Hna Hob. apply Hna.
    apply (includes_upper_trim t a Hascii Ha). apply includes_occurs.
    apply (occurs_trans a b); [exact Hab|].
    apply includes_occurs. now apply (includes_upper_trim t b Hascii Hb). }
  assert (Hxs : ~ SizeParse.occurs_nocase "S" t -> ~ SizeParse.occurs_nocase "XS" t).
  { apply Hsub; [now exists "X", "" | apply Hin; simpl; auto | apply Hin; simpl; auto]. }
  repeat apply conj;
    rewrite parseSize_find; unfold SizeParse.validSizes; cbn [find].
  - intros H. rewrite (Ht "XS"); [reflexivity | apply Hin; simpl; auto | exact H].
  - intros H1 H2. rewrite (Hf "XS"), (Ht "S"); auto; apply Hin; simpl; auto.
  - intros H1 H2. rewrite (Hf "XS"), (Hf "S"), (Ht "M"); auto; apply Hin; simpl; auto.
  - intros H1 H2 H3.
    rewrite (Hf "XS"), (Hf "S"), (Hf "M"), (Ht "L"); auto; apply Hin; simpl; auto 6.
  - intros H1 H2.
    assert (Hxl : forall c, occurs "L" c -> In c SizeParse.validSizes ->
                            includes (toUpperCase (trim t)) c = false).
    { intros c Hl Hc. apply Hf; [exact Hc|].
      apply (Hsub "L" c); [exact Hl | apply Hin; simpl; auto 6 | exact Hc | exact H2]. }
    rewrite (Hf "XS"), (Hf "S"), (Hf "L"); auto; try (apply Hin; simpl; auto 6).
    rewrite (Hxl "XL"), (Hxl "XXL");
      [now destruct (includes _ "M") | now exists "XX", "" | apply Hin; simpl; auto 8
       | now exists "X", "" | apply Hin; simpl; auto 8].
Qed.

Lemma parseSize_decision_table_witness :
  isAscii "Size: xl" = true /\ SizeParse.parseSize (Some "Size: xl") = "S".
Proof.
  split; [reflexivity|].
  refine (proj1 (proj2 (proj1 (parseSize_decision_table "Size: xl") eq_refl)) _ _).
  - intros H. apply includesNoCase_spec in H. discriminate H.
  - apply includesNoCase_spec. reflexivity.
Defined.

(** ** The invoker: exhaustion, and how the two releases relate *)

Section ExhaustionFacts.
Variables T W : Type.
Variable fn : async W T.

Lemma retryTrace_last (errs : list JS.error) (delay : Z) (o : settled T) (d : settled T) :
  last (observed (retryTrace errs delay o)) d = o.
Proof.
  rewrite observed_retryTrace. apply last_last.
Qed.

Lemma free_exhausts (retries : nat) (delay : Z) (w : W) :
  (forall w0, exists e w1, fn w0 = (Rejected e, w1) /\ Free.isRetryable e = true) ->
  exists errs e,
    snd (Free.fetchWithRetry T W fn retries delay w) = retryTrace errs delay (Rejected e)
    /\ List.length errs = retries
    /\ fst (fst (Free.fetchWithRetry T W fn retries delay w)) = Rejected e
    /\ Free.isRetryable e = true.
Proof.
  intros Hfail. revert delay w; induction retries as [|n IH]; intros delay w;
    destruct (Hfail w) as (e & w1 & Hfn & Hr); cbn [Free.fetchWithRetry]; rewrite Hfn.
  - exists [], e. auto.
  - rewrite Hr. destruct (IH (delay * 2)%Z w1) as (errs & e' & Htr & Hlen & Hres & Hr').
    destruct (Free.fetchWithRetry T W fn n (delay * 2) w1) as [[o w2] tr].
    cbn in *. subst. exists (e :: errs), e'. auto.
Qed.

Lemma gated_exhausts (retries : nat) (delay : Z) (w : W) :
  (forall w0, exists e w1, fn w0 = (Rejected e, w1) /\ Gated.isRetryable e = true
                           /\ messageIncludes e Gated.entityNotFoundPhrase = false) ->
  exists errs e,
    snd (Gated.fetchWithRetry T W fn retries delay w) = retryTrace errs delay (Rejected e)
    /\ List.length errs = retries
    /\ fst (fst (Gated.fetchWithRetry T W fn retries delay w)) = Rejected e
    /\ Gated.isRetryable e = true.
Proof.
  intros Hfail. revert delay w; induction retries as [|n IH]; intros delay w;
    destruct (Hfail w) as (e & w1 & Hfn & Hr & Hp); cbn [Gated.fetchWithRetry];
    rewrite Hfn, Hp.
  - exists [], e. auto.
  - rewrite Hr. destruct (IH (delay * 2)%Z w1) as (errs & e' & Htr & Hlen & Hres & Hr').
    destruct (Gated.fetchWithRetry T W fn n (delay * 2) w1) as [[o w2] tr].
    cbn in *. subst. exists (e :: errs), e'. auto.
Qed.

End ExhaustionFacts.

(** X4. An operation that fails with a rate-limit signal on every call
    (message containing "429" or status 429, and no entity-not-found
    phrase) is invoked exactly [retries + 1] times by both releases, with
    timers [delay], [2 delay], ..., [2^(retries-1) delay] between the
    invocations, and the error of the last invocation is raised. *)
Theorem rate_limited_operation_exhausts_budget
    (T W : Type) (fn : async W T) (retries : nat) (delay : Z) (w : W) :
  (forall w0, exists e w1,
      fn w0 = (Rejected e, w1)
      /\ (carries "429" e \/ status e = Some 429%Z)
      /\ ~ carries Gated.entityNotFoundPhrase e) ->
  (let '(result, _, tr) := Gated.fetchWithRetry T W fn retries delay w in
   invocations tr = (retries + 1)%nat
   /\ sleeps tr = map (backoff delay) (seq 1 retries)
   /\ exists e, result = Rejected e
                /\ (forall d, last (observed tr) d = Rejected e)
                /\ (carries "429" e \/ status e = Some 429%Z))
  /\
  (let '(result, _, tr) := Free.fetchWithRetry T W fn retries delay w in
   invocations tr = (retries + 1)%nat
   /\ sleeps tr = map (backoff delay) (seq 1 retries)
   /\ exists e, result = Rejected e /\ (forall d, last (observed tr) d = Rejected e)).
Proof.
  intros Hfail. split.
  - destruct (gated_exhausts T W fn retries delay w) as (errs & e & Htr & Hlen & Hres & Hr).
    { intros w0. destruct (Hfail w0) as (e & w1 & Hfn & H429 & Hp).
      exists e, w1. repeat split; auto.
      - now apply gated_isRetryable_spec.
      - destruct (messageIncludes e _) eqn:Hm; [|reflexivity].
        now apply messageIncludes_carries in Hm. }
    destruct (Gated.fetchWithRetry T W fn retries delay w) as [[result w'] tr].
    cbn in Htr, Hres. subst tr result.
    rewrite invocations_retryTrace, sleeps_retryTrace, Hlen.
    repeat split; [lia|]. exists e. repeat split.
    + intros d. apply retryTrace_last.
    + now apply gated_isRetryable_spec.
  - destruct (free_exhausts T W fn retries delay w) as (errs & e & Htr & Hlen & Hres & Hr).
    { intros w0. destruct (Hfail w0) as (e & w1 & Hfn & H429 & Hp).
      exists e, w1. split; [exact Hfn|]. apply free_isRetryable_spec. tauto. }
    destruct (Free.fetchWithRetry T W fn retries delay w) as [[result w'] tr].
    cbn in Htr, Hres. subst tr result.
    rewrite invocations_retryTrace, sleeps_retryTrace, Hlen.
    repeat split; [lia|]. exists e. split; [reflexivity | intros d; apply retryTrace_last].
Qed.

Lemma rate_limited_operation_exhausts_budget_witness :
  let e := {| message := Some "Too Many Requests"; status := Some 429%Z |} in
  let '(result, _, tr) :=
    Gated.fetchWithRetry nat unit (alwaysFails e) 2 2000 tt in
  invocations tr = 3%nat /\ sleeps tr = [2000%Z; 4000%Z].
Proof.
  intros e.
  pose proof (rate_limited_operation_exhausts_budget nat unit (alwaysFails e) 2 2000 tt) as H.
  assert (Hfail : forall w0 : unit, exists e0 w1,
             alwaysFails (T := nat) e w0 = (Rejected e0, w1)
             /\ (carries "429" e0 \/ status e0 = Some 429%Z)
             /\ ~ carries Gated.entityNotFoundPhrase e0).
  { intros w0. exists e, w0. split; [reflexivity|]. split; [now right|].
    intros Hc. apply messageIncludes_carries in Hc. discriminate Hc. }
  destruct (H Hfail) as [HG _].
  destruct (Gated.fetchWithRetry nat unit (alwaysFails e) 2 2000 tt) as [[result w'] tr].
  destruct HG as (Hi & Hs & _). split; [exact Hi | exact Hs].
Defined.

(** X5. The two releases of the invoker run alike, invocation for
    invocation, on every operation whose failures carry neither the
    entity-not-found phrase nor a quota signal that is not also a
    rate-limit signal: they differ in nothing else. *)
Theorem releases_agree_without_phrase_and_quota
    (T W : Type) (fn : async W T) (retries : nat) (delay : Z) (w : W) :
  (forall w0 e w1, fn w0 = (Rejected e, w1) ->
      ~ carries Gated.entityNotFoundPhrase e
      /\ (carries "quota" e -> carries "429" e \/ status e = Some 429%Z)) ->
  Gated.fetchWithRetry T W fn retries delay w = Free.fetchWithRetry T W fn retries delay w.
Proof.
  intros Hsame. revert delay w; induction retries as [|n IH]; intros delay w;
    cbn [Gated.fetchWithRetry Free.fetchWithRetry];
    destruct (fn w) as [[v|e] w1] eqn:Hfn; try reflexivity;
    destruct (Hsame w e w1 Hfn) as [Hp Hq];
    (destruct (messageIncludes e Gated.entityNotFoundPhrase) eqn:Hm;
     [apply messageIncludes_carries in Hm; contradiction|]); [reflexivity|].
  assert (Heq : Free.isRetryable e = Gated.isRetryable e).
  { destruct (Gated.isRetryable e) eqn:Hg.
    - apply free_isRetryable_spec. apply gated_isRetryable_spec in Hg. tauto.
    - destruct (Free.isRetryable e) eqn:Hf; [|reflexivity].
      apply free_isRetryable_spec in Hf.
      assert (Gated.isRetryable e = true); [|congruence].
      apply gated_isRetryable_spec. tauto. }
  rewrite Heq. destruct (Gated.isRetryable e); [|reflexivity]. now rewrite IH.
Qed.

Lemma releases_agree_without_phrase_and_quota_witness :
  let e := Error "503 Service Unavailable" in
  Gated.fetchWithRetry nat unit (alwaysFails e) 2 2000 tt
  = Free.fetchWithRetry nat unit (alwaysFails e) 2 2000 tt.
Proof.
  intros e. apply releases_agree_without_phrase_and_quota.
  intros w0 e0 w1 [= <- _]. split.
  - intros Hc. apply messageIncludes_carries in Hc. discriminate Hc.
  - intros Hc. apply messageIncludes_carries in Hc. discriminate Hc.
Defined.

(** ** Failures of the local image normalisation inside the service calls *)

Section LocalFailureFacts.
Variable W : Type.
Variable env : ops W.

Lemma optimizeImageIO_rejections (src : string) (B : Q) (w w' : W) (e : JS.error) :
  optimizeImageIO env src B w = (Rejected e, w') ->
  e = Error "Bild konnte nicht verarbeitet werden." \/ e = Error "Canvas failure".
Proof.
  unfold optimizeImageIO. destruct (decode env src w) as [[iw ih|] w1].
  - destruct (getContext2d env w1) as [c w2]. unfold optimizeImage.
    destruct (scaledSize iw ih B). destruct c; cbn; intros [= <- _]; auto.
  - cbn. intros [= <- _]. auto.
Qed.

Lemma local_errors_not_retryable (e : JS.error) :
  e = Error "Bild konnte nicht verarbeitet werden." \/ e = Error "Canvas failure" ->
  Gated.isRetryable e = false
  /\ messageIncludes e Gated.entityNotFoundPhrase = false
  /\ Free.isRetryable e = false.
Proof. intros [->| ->]; repeat split; vm_compute; reflexivity. Qed.

End LocalFailureFacts.

(** X6. When the normalisation of an image fails inside a service call
    (decoder error or no 2D context), the call is not retried in either
    release: it rejects with that local error after one invocation, and
    the world is the one the failed normalisation left, the backend not
    having been asked.  This holds for the user image in the size call,
    and for the user image or, after it, the product image in the
    composite call. *)
Theorem local_image_failure_is_final
    (W : Type) (env : ops W) (TEXT_MODEL IMAGE_MODEL : string)
    (user productBase64 productName : string) (product : Product)
    (w w' : W) (e : JS.error) :
  (optimizeImageIO env user (inject_Z 800) w = (Rejected e, w') ->
   Gated.estimateSizeFromImage W env TEXT_MODEL user productName w
     = (Rejected e, w', [Invoke (Rejected e)])
   /\ Free.estimateSizeFromImage W env TEXT_MODEL user productName w
     = (Rejected e, w', [Invoke (Rejected e)]))
  /\
  (optimizeImageIO env user (inject_Z 1024) w = (Rejected e, w')
   \/ (exists optUser w1,
          optimizeImageIO env user (inject_Z 1024) w = (Resolved optUser, w1)
          /\ optimizeImageIO env productBase64 (inject_Z 1024) w1 = (Rejected e, w')) ->
   Gated.performVirtualTryOn W env IMAGE_MODEL user productBase64 product w
     = (Rejected e, w', [Invoke (Rejected e)])
   /\ Free.performVirtualTryOn W env IMAGE_MODEL user productBase64 product w
     = (Rejected e, w', [Invoke (Rejected e)])).
Proof.
  split.
  - intros H.
    destruct (local_errors_not_retryable e (optimizeImageIO_rejections W env _ _ _ _ _ H))
      as (Hg & Hp & Hf).
    split; [apply gated_step_stop | apply free_step_stop]; auto;
      unfold Gated.estimateSizeAttempt, Free.estimateSizeAttempt, await; now rewrite H.
  - intros H.
    assert (He : e = Error "Bild konnte nicht verarbeitet werden." \/ e = Error "Canvas failure").
    { destruct H as [H|(ou & w1 & _ & H)]; eapply optimizeImageIO_rejections; eauto. }
    destruct (local_errors_not_retryable e He) as (Hg & Hp & Hf).
    split; [apply gated_step_stop | apply free_step_stop]; auto;
      unfold Gated.tryOnAttempt, Free.tryOnAttempt, await;
      destruct H as [H|(ou & w1 & H1 & H2)];
      first [now rewrite H | now rewrite H1, H2].
Qed.

Lemma local_image_failure_is_final_witness :
  let env := constantWorld OnError "data:," (Rejected (Error "unused")) in
  let e := Error "Bild konnte nicht verarbeitet werden." in
  Gated.estimateSizeFromImage unit env "text-model" "data:image/png;base64,AAAA" "Set" tt
  = (Rejected e, tt, [Invoke (Rejected e)])
  /\ Free.performVirtualTryOn unit env "image-model" "data:image/png;base64,AAAA"
       "data:image/png;base64,BBBB" sampleProduct tt
  = (Rejected e, tt, [Invoke (Rejected e)]).
Proof.
  intros env e.
  pose proof (local_image_failure_is_final unit env "text-model" "image-model"
                "data:image/png;base64,AAAA" "data:image/png;base64,BBBB" "Set"
                sampleProduct tt tt e) as [Hsize Hcomposite].
  split.
  - exact (proj1 (Hsize eq_refl)).
  - exact (proj2 (Hcomposite (or_introl eq_refl))).
Defined.

(** ** Image normalisation: degenerate and oriented bitmaps *)

Section BitmapFacts.



End BitmapFacts.



(** X8. Normalisation keeps the orientation, in the arithmetic of the
    engine: for source edges below 2^32 and a positive whole bound, a
    landscape source gives a bitmap at least as wide as high, a portrait
    or square source one at least as high as wide. *)
Theorem optimizeImage_keeps_orientation (w h : N) (B : Z) :
  (w < 2 ^ 32)%N -> (h < 2 ^ 32)%N -> (0 < B)%Z ->
  exists c,
    Imaging64.optimizeImage (OnLoad w h) true (inject_Z B) = Resolved c
    /\ ((h < w)%N -> (canvas_height c <= canvas_width c)%Z)
    /\ ((w <= h)%N -> (canvas_width c <= canvas_height c)%Z).
Proof.
  intros Hw Hh HB.
  destruct (optimizeImage64_cases w h B Hw Hh HB)
    as (c & Hc & Cw & Ch & CwB & ChB & Hfit & Hland & Hport).
  exists c. split; [exact Hc|]. split; intros Hn.
  - destruct (Z_lt_le_dec B (Z.of_N w)) as [HBw|HBw].
    + destruct (Hland Hn HBw) as (-> & _). exact ChB.
    + destruct Hfit as [-> ->]; lia.
  - destruct (Z_lt_le_dec B (Z.of_N h)) as [HBh|HBh].
    + destruct (Hport Hn HBh) as (-> & _). exact CwB.
    + destruct Hfit as [-> ->]; lia.
Qed.

Lemma optimizeImage_keeps_orientation_witness :
  exists c, Imaging64.optimizeImage (OnLoad 620 992) true (inject_Z 800) = Resolved c
            /\ canvas_width c = 499%Z /\ canvas_height c = 800%Z
            /\ (canvas_width c <= canvas_height c)%Z.
Proof.
  destruct (optimizeImage_keeps_orientation 620 992 800 eq_refl eq_refl eq_refl)
    as (c & Hc & _ & Hp).
  exists c. split; [exact Hc|].
  split; [|split; [|apply Hp; discriminate]];
    vm_compute in Hc; injection Hc as <-; reflexivity.
Defined.

(** ** The orchestrator: entry condition, stage order, error texts *)

Section AttemptFacts.
Variable svc : services.

Lemma tryBlock_logs_nothing (l1 l2 l3 : string) (pace : Z) (user : string) (product : Product) :
  logged (fst (tryBlock svc l1 l2 l3 pace user product)) = [].
Proof.
  unfold tryBlock.
  destruct (call_urlToBase64 svc _); [|reflexivity].
  destruct (call_estimateSizeFromImage svc _ _); [|reflexivity].
  now destruct (call_performVirtualTryOn svc _ _ _).
Qed.

Lemma logged_app (ev1 ev2 : list appEvent) :
  logged (ev1 ++ ev2) = (logged ev1 ++ logged ev2)%list.
Proof.
  induction ev1 as [|[] ev1 IH]; cbn; try exact IH; [reflexivity | now rewrite IH].
Qed.

Lemma calls_app (ev1 ev2 : list appEvent) :
  calls (ev1 ++ ev2) = (calls ev1 ++ calls ev2)%list.
Proof.
  induction ev1 as [|[] ev1 IH]; cbn; try exact IH; [reflexivity | now rewrite IH].
Qed.

Lemma includes_429_messageOr (err : JS.error) (fallback : string) :
  includes fallback "429" = false ->
  includes (messageOr err fallback) "429" = true <-> carries "429" err.
Proof.
  intros Hfb. rewrite <- messageIncludes_carries. unfold messageOr, messageIncludes.
  destruct (message err) as [m|]; [|rewrite Hfb; split; discriminate].
  destruct m as [|c m]; cbn [truthy]; [|tauto].
  rewrite Hfb. split; discriminate.
Qed.

(** What the stages of the try block call, and when the timer runs. *)
Lemma tryBlock_calls (l1 l2 l3 : string) (pace : Z) (user : string) (product : Product) :
  let ev := fst (tryBlock svc l1 l2 l3 pace user product) in
  (calls ev = ["urlToBase64"] /\ ~ In (Timer pace) ev
   /\ exists e, call_urlToBase64 svc (imageUrl product) = Rejected e
                /\ snd (tryBlock svc l1 l2 l3 pace user product) = Rejected e)
  \/ (calls ev = ["urlToBase64"; "estimateSizeFromImage"] /\ ~ In (Timer pace) ev
      /\ exists productBase64 e,
           call_urlToBase64 svc (imageUrl product) = Resolved productBase64
           /\ call_estimateSizeFromImage svc user (name product) = Rejected e
           /\ snd (tryBlock svc l1 l2 l3 pace user product) = Rejected e)
  \/ (calls ev = ["urlToBase64"; "estimateSizeFromImage"; "performVirtualTryOn"]
      /\ In (Timer pace) ev
      /\ exists productBase64 size,
           call_urlToBase64 svc (imageUrl product) = Resolved productBase64
           /\ call_estimateSizeFromImage svc user (name product) = Resolved size
           /\ snd (tryBlock svc l1 l2 l3 pace user product)
              = mapSettled (fun composite => (composite, size))
                  (call_performVirtualTryOn svc user productBase64 product)).
Proof.
  unfold tryBlock.
  destruct (call_urlToBase64 svc (imageUrl product)) as [pb|e].
  - destruct (call_estimateSizeFromImage svc user (name product)) as [sz|e].
    + right; right.
      destruct (call_performVirtualTryOn svc user pb product) as [res|e] eqn:H3; cbn;
        (split; [reflexivity|]); (split; [auto 10|]); exists pb, sz; rewrite H3; auto.
    + right; left. cbn. split; [reflexivity|]. split.
      * intros [H|[H|[H|[H|[]]]]]; discriminate.
      * exists pb, e. auto.
  - left. cbn. split; [reflexivity|]. split.
    + intros [H|[H|[]]]; discriminate.
    + exists e. auto.
Qed.

Lemma schedule_app (ev1 ev2 : list appEvent) :
  schedule (ev1 ++ ev2) = (schedule ev1 ++ schedule ev2)%list.
Proof.
  induction ev1 as [|[] ev1 IH]; cbn; try exact IH; [reflexivity | | ]; now rewrite IH.
Qed.

(** The service calls and the timer of the try block, in order. *)
Lemma tryBlock_schedule (l1 l2 l3 : string) (pace : Z) (user : string) (product : Product) :
  let ev := fst (tryBlock svc l1 l2 l3 pace user product) in
  (schedule ev = [Called "urlToBase64"]
   /\ exists e, call_urlToBase64 svc (imageUrl product) = Rejected e
                /\ snd (tryBlock svc l1 l2 l3 pace user product) = Rejected e)
  \/ (schedule ev = [Called "urlToBase64"; Called "estimateSizeFromImage"]
      /\ exists productBase64 e,
           call_urlToBase64 svc (imageUrl product) = Resolved productBase64
           /\ call_estimateSizeFromImage svc user (name product) = Rejected e
           /\ snd (tryBlock svc l1 l2 l3 pace user product) = Rejected e)
  \/ (schedule ev = [Called "urlToBase64"; Called "estimateSizeFromImage";
                     Timer pace; Called "performVirtualTryOn"]
      /\ exists productBase64 size,
           call_urlToBase64 svc (imageUrl product) = Resolved productBase64
           /\ call_estimateSizeFromImage svc user (name product) = Resolved size
           /\ snd (tryBlock svc l1 l2 l3 pace user product)
              = mapSettled (fun composite => (composite, size))
                  (call_performVirtualTryOn svc user productBase64 product)).
Proof.
  unfold tryBlock.
  destruct (call_urlToBase64 svc (imageUrl product)) as [pb|e].
  - destruct (call_estimateSizeFromImage svc user (name product)) as [sz|e].
    + right; right.
      destruct (call_performVirtualTryOn svc user pb product) as [res|e] eqn:H3; cbn;
        (split; [reflexivity|]); exists pb, sz; rewrite H3; auto.
    + right; left. cbn. split; [reflexivity|]. exists pb, e. auto.
  - left. cbn. split; [reflexivity|]. exists e. auto.
Qed.

End AttemptFacts.

(** X9. The entry condition.  Without a user image (none, or an empty
    one) or without a selected product, [handleTryOn] does nothing in
    either application: the state is unchanged, no service is called and
    nothing is published.  With both present the attempt always starts,
    moves to step 3 and ends with a result or an error, never in
    between. *)
Theorem attempt_starts_exactly_when_ready (svc : services) (a : AppState) :
  (truthy_opt (userImage (state a)) = false \/ selectedProduct (state a) = None ->
   GatedApp.handleTryOn svc a = (a, [], NotStarted)
   /\ FreeApp.handleTryOn svc a = (a, [], NotStarted))
  /\
  (forall user product, ready a user product ->
   (let '(a', ev, o) := GatedApp.handleTryOn svc a in
    o <> NotStarted /\ step a' = 3%Z /\ isLoading (state a') = false
    /\ hd_error (calls ev) = Some "urlToBase64")
   /\
   (let '(a', ev, o) := FreeApp.handleTryOn svc a in
    o <> NotStarted /\ step a' = 3%Z /\ isLoading (state a') = false
    /\ hd_error (calls ev) = Some "urlToBase64")).
Proof.
  split; [apply handleTryOn_not_started|].
  intros user product (Hu & Ht & Hp). split.
  - unfold GatedApp.handleTryOn. rewrite Hu, Hp, Ht. cbn [negb].
    pose proof (tryBlock_calls svc "Lade High-End-Modell..." "Analysiere Proportionen..."
                  "Generiere Foto-Realismus..." 1000 user product) as Hc.
    destruct (tryBlock _ _ _ _ _ _ _) as [ev [[res sz]|e]]; cbn [fst snd] in Hc.
    + repeat split; [discriminate|].
      destruct Hc as [(-> & _)|[(-> & _)|(-> & _)]]; reflexivity.
    + unfold GatedApp.onError.
      destruct (GatedApp.isKeyNotFound e); cbv beta iota zeta; rewrite calls_app;
        (split; [discriminate|]); (split; [reflexivity|]); (split; [reflexivity|]);
        destruct Hc as [(-> & _)|[(-> & _)|(-> & _)]]; reflexivity.
  - unfold FreeApp.handleTryOn. rewrite Hu, Hp, Ht. cbn [negb].
    pose proof (tryBlock_calls svc "Produkt wird geladen..." "Größe wird berechnet..."
                  "Look wird gerendert..." 1200 user product) as Hc.
    destruct (tryBlock _ _ _ _ _ _ _) as [ev [[res sz]|e]]; cbn [fst snd] in Hc.
    + repeat split; [discriminate|].
      destruct Hc as [(-> & _)|[(-> & _)|(-> & _)]]; reflexivity.
    + unfold FreeApp.onError. cbv beta iota zeta. rewrite calls_app.
      split; [discriminate|]. split; [reflexivity|]. split; [reflexivity|].
      destruct Hc as [(-> & _)|[(-> & _)|(-> & _)]]; reflexivity.
Qed.

Lemma attempt_starts_exactly_when_ready_witness :
  let svc := fixedServices (Resolved "M") (Resolved "data:image/jpeg;base64,QUJD") in
  let a := {| state := {| userImage := Some ""; selectedProduct := Some sampleProduct;
                          resultImage := None; recommendedSize := None;
                          isLoading := false; error := None |};
              hasKey := Some true; loadingStep := ""; step := 2 |} in
  GatedApp.handleTryOn svc a = (a, [], NotStarted)
  /\ (let '(a', _, o) := GatedApp.handleTryOn svc sampleReady in
      o <> NotStarted /\ step a' = 3%Z).
Proof.
  intros svc a. split.
  - exact (proj1 (proj1 (attempt_starts_exactly_when_ready svc a) (or_introl eq_refl))).
  - pose proof (proj1 (proj2 (attempt_starts_exactly_when_ready svc sampleReady)
                         "data:image/jpeg;base64,AAAA" sampleProduct
                         (conj eq_refl (conj eq_refl eq_refl)))) as H.
    exact (conj (proj1 H) (proj1 (proj2 H))).
Defined.

(** X10. In an attempt, the product image is resolved first, the size is
    estimated only after the product image was obtained, and the
    composite is requested only after both, with the pacing timer
    (1000ms in the gated application, 1200ms in the free one) between
    the size call and the composite call; the first call that rejects
    ends the attempt: no later service is called and no timer runs. *)
Theorem stages_run_in_order (svc : services) (a : AppState)
    (user : string) (product : Product) :
  ready a user product ->
  (let '(_, ev, _) := GatedApp.handleTryOn svc a in
   (schedule ev = [Called "urlToBase64"]
    /\ exists e, call_urlToBase64 svc (imageUrl product) = Rejected e)
   \/ (schedule ev = [Called "urlToBase64"; Called "estimateSizeFromImage"]
       /\ exists productBase64 e,
            call_urlToBase64 svc (imageUrl product) = Resolved productBase64
            /\ call_estimateSizeFromImage svc user (name product) = Rejected e)
   \/ (schedule ev = [Called "urlToBase64"; Called "estimateSizeFromImage";
                      Timer 1000; Called "performVirtualTryOn"]
       /\ exists productBase64 size,
            call_urlToBase64 svc (imageUrl product) = Resolved productBase64
            /\ call_estimateSizeFromImage svc user (name product) = Resolved size))
  /\
  (let '(_, ev, _) := FreeApp.handleTryOn svc a in
   (schedule ev = [Called "urlToBase64"]
    /\ exists e, call_urlToBase64 svc (imageUrl product) = Rejected e)
   \/ (schedule ev = [Called "urlToBase64"; Called "estimateSizeFromImage"]
       /\ exists productBase64 e,
            call_urlToBase64 svc (imageUrl product) = Resolved productBase64
            /\ call_estimateSizeFromImage svc user (name product) = Rejected e)
   \/ (schedule ev = [Called "urlToBase64"; Called "estimateSizeFromImage";
                      Timer 1200; Called "performVirtualTryOn"]
       /\ exists productBase64 size,
            call_urlToBase64 svc (imageUrl product) = Resolved productBase64
            /\ call_estimateSizeFromImage svc user (name product) = Resolved size)).
Proof.
  intros (Hu & Ht & Hp).
  assert (Hlog : forall ev err, schedule (ev ++ [Logged err]) = schedule ev).
  { intros ev err. rewrite schedule_app. cbn. apply app_nil_r. }
  split.
  - unfold GatedApp.handleTryOn. rewrite Hu, Hp, Ht. cbn [negb].
    pose proof (tryBlock_schedule svc "Lade High-End-Modell..." "Analysiere Proportionen..."
                  "Generiere Foto-Realismus..." 1000 user product) as Hc.
    destruct (tryBlock _ _ _ _ _ _ _) as [ev r]. cbn [fst snd] in Hc.
    destruct Hc as [(Hc & e & H1 & ->)|[(Hc & pb & e & H1 & H2 & ->)
                   |(Hc & pb & sz & H1 & H2 & ->)]].
    + destruct (GatedApp.onError e _) as [a2 o]. left.
      rewrite Hlog, Hc. split; [reflexivity | eauto].
    + destruct (GatedApp.onError e _) as [a2 o]. right; left.
      rewrite Hlog, Hc. split; [reflexivity | eauto].
    + destruct (call_performVirtualTryOn svc user pb product) as [res|e]; cbn [mapSettled].
      * right; right. split; [exact Hc | eauto].
      * destruct (GatedApp.onError e _) as [a2 o]. right; right. rewrite Hlog, Hc.
        split; [reflexivity | eauto].
  - unfold FreeApp.handleTryOn. rewrite Hu, Hp, Ht. cbn [negb].
    pose proof (tryBlock_schedule svc "Produkt wird geladen..." "Größe wird berechnet..."
                  "Look wird gerendert..." 1200 user product) as Hc.
    destruct (tryBlock _ _ _ _ _ _ _) as [ev r]. cbn [fst snd] in Hc.
    destruct Hc as [(Hc & e & H1 & ->)|[(Hc & pb & e & H1 & H2 & ->)
                   |(Hc & pb & sz & H1 & H2 & ->)]].
    + destruct (FreeApp.onError e _) as [a2 o]. left.
      rewrite Hlog, Hc. split; [reflexivity | eauto].
    + destruct (FreeApp.onError e _) as [a2 o]. right; left.
      rewrite Hlog, Hc. split; [reflexivity | eauto].
    + destruct (call_performVirtualTryOn svc user pb product) as [res|e]; cbn [mapSettled].
      * right; right. split; [exact Hc | eauto].
      * destruct (FreeApp.onError e _) as [a2 o]. right; right. rewrite Hlog, Hc.
        split; [reflexivity | eauto].
Qed.

Lemma stages_run_in_order_witness :
  let svc := fixedServices (Resolved "M") (Resolved "data:image/jpeg;base64,QUJD") in
  (let '(_, ev, _) := GatedApp.handleTryOn svc sampleReady in
   schedule ev = [Called "urlToBase64"; Called "estimateSizeFromImage";
                  Timer 1000; Called "performVirtualTryOn"])
  /\ (let '(_, ev, _) := FreeApp.handleTryOn svc sampleReady in
      schedule ev = [Called "urlToBase64"; Called "estimateSizeFromImage";
                     Timer 1200; Called "performVirtualTryOn"]).
Proof.
  intros svc.
  pose proof (stages_run_in_order svc sampleReady "data:image/jpeg;base64,AAAA"
                sampleProduct (conj eq_refl (conj eq_refl eq_refl))) as [HG HF].
  split.
  - destruct (GatedApp.handleTryOn svc sampleReady) as [[a' ev] o].
    destruct HG as [(_ & e & He)|[(_ & pb & e & _ & He)|(Hc & _)]];
      [discriminate He | discriminate He | exact Hc].
  - destruct (FreeApp.handleTryOn svc sampleReady) as [[a' ev] o].
    destruct HF as [(_ & e & He)|[(_ & pb & e & _ & He)|(Hc & _)]];
      [discriminate He | discriminate He | exact Hc].
Defined.

Section ErrorTextFacts.

Lemma gated_onError_text (err : JS.error) (a1 : AppState) :
  let '(a2, o) := GatedApp.onError err a1 in
  exists msg,
    o = Failed msg /\ state a2 = publishError msg (state a1)
    /\ (message err = Some "KEY_NOT_FOUND" ->
        msg = "Bitte wähle deinen API Key erneut aus." /\ hasKey a2 = Some false)
    /\ (message err <> Some "KEY_NOT_FOUND" ->
        hasKey a2 = hasKey a1
        /\ (carries "429" err ->
            msg = "Die KI ist gerade ausgelastet. Bitte warte einen Moment.")
        /\ (~ carries "429" err ->
            msg = messageOr err "Ein technischer Fehler ist aufgetreten.")).
Proof.
  unfold GatedApp.onError, GatedApp.isKeyNotFound.
  destruct (message err) as [m|] eqn:Hm.
  - destruct (String.eqb m "KEY_NOT_FOUND") eqn:Hk.
    + apply String.eqb_eq in Hk as ->. eexists. repeat split; congruence.
    + apply String.eqb_neq in Hk.
      destruct (includes _ "429") eqn:Hi; eexists; (split; [reflexivity|]);
        (split; [reflexivity|]); (split; [congruence|]); intros _;
        (split; [reflexivity|]); split; intros Hc; try reflexivity; exfalso.
      * apply Hc. apply (includes_429_messageOr err "Ein technischer Fehler ist aufgetreten." eq_refl). exact Hi.
      * apply (includes_429_messageOr err "Ein technischer Fehler ist aufgetreten." eq_refl) in Hc. congruence.
  - destruct (includes _ "429") eqn:Hi; eexists; (split; [reflexivity|]);
      (split; [reflexivity|]); (split; [congruence|]); intros _;
      (split; [reflexivity|]); split; intros Hc; try reflexivity; exfalso.
    + apply Hc. apply (includes_429_messageOr err "Ein technischer Fehler ist aufgetreten." eq_refl). exact Hi.
    + apply (includes_429_messageOr err "Ein technischer Fehler ist aufgetreten." eq_refl) in Hc. congruence.
Qed.

Lemma free_onError_text (err : JS.error) (a1 : AppState) :
  let '(a2, o) := FreeApp.onError err a1 in
  exists msg,
    o = Failed msg /\ state a2 = publishError msg (state a1)
    /\ hasKey a2 = hasKey a1
    /\ (carries "429" err -> msg = "Server ausgelastet. Bitte kurz warten.")
    /\ (~ carries "429" err ->
        msg = messageOr err "Ein technischer Fehler ist aufgetreten.").
Proof.
  unfold FreeApp.onError.
  destruct (includes _ "429") eqn:Hi; eexists; (split; [reflexivity|]);
    (split; [reflexivity|]); (split; [reflexivity|]); split; intros Hc;
    try reflexivity; exfalso.
  - apply Hc. apply (includes_429_messageOr err "Ein technischer Fehler ist aufgetreten." eq_refl). exact Hi.
  - apply (includes_429_messageOr err "Ein technischer Fehler ist aufgetreten." eq_refl) in Hc. congruence.
Qed.

End ErrorTextFacts.

(** X11. What a failed attempt shows the user, for the error [err] that
    reached the catch block.  An error whose message contains "429" is
    shown as the fixed busy text; any other error is shown with its own
    message, or with the generic text when it has no message.  So an error
    that was retried only because of its status 429 is not shown as busy.
    In the gated application an error whose message is exactly
    "KEY_NOT_FOUND" is shown as the key re-selection text and clears
    [hasKey]; no other error touches [hasKey]. *)
Theorem published_error_text (svc : services) (a : AppState)
    (user : string) (product : Product) (err : JS.error) :
  ready a user product ->
  (let '(a', ev, o) := GatedApp.handleTryOn svc a in
   logged ev = [err] ->
   exists msg,
     o = Failed msg /\ error (state a') = Some msg
     /\ (message err = Some "KEY_NOT_FOUND" ->
         msg = "Bitte wähle deinen API Key erneut aus." /\ hasKey a' = Some false)
     /\ (message err <> Some "KEY_NOT_FOUND" ->
         hasKey a' = hasKey a
         /\ (carries "429" err ->
             msg = "Die KI ist gerade ausgelastet. Bitte warte einen Moment.")
         /\ (~ carries "429" err ->
             msg = messageOr err "Ein technischer Fehler ist aufgetreten.")))
  /\
  (let '(a', ev, o) := FreeApp.handleTryOn svc a in
   logged ev = [err] ->
   exists msg,
     o = Failed msg /\ error (state a') = Some msg /\ hasKey a' = hasKey a
     /\ (carries "429" err -> msg = "Server ausgelastet. Bitte kurz warten.")
     /\ (~ carries "429" err ->
         msg = messageOr err "Ein technischer Fehler ist aufgetreten.")).
Proof.
  intros (Hu & Ht & Hp). split.
  - unfold GatedApp.handleTryOn. rewrite Hu, Hp, Ht. cbn [negb].
    pose proof (tryBlock_logs_nothing svc "Lade High-End-Modell..."
                  "Analysiere Proportionen..." "Generiere Foto-Realismus..." 1000
                  user product) as Hl.
    destruct (tryBlock _ _ _ _ _ _ _) as [ev [[res sz]|e]]; cbn [fst] in Hl.
    + rewrite Hl. discriminate.
    + match goal with |- context [GatedApp.onError e ?a1] =>
        pose proof (gated_onError_text e a1) as Ho;
        destruct (GatedApp.onError e a1) as [a2 o] end.
      rewrite logged_app, Hl. cbn. intros [= <-].
      destruct Ho as (msg & -> & Hs & Hk & Hn). exists msg.
      split; [reflexivity|]. split; [now rewrite Hs|]. split; assumption.
  - unfold FreeApp.handleTryOn. rewrite Hu, Hp, Ht. cbn [negb].
    pose proof (tryBlock_logs_nothing svc "Produkt wird geladen..."
                  "Größe wird berechnet..." "Look wird gerendert..." 1200
                  user product) as Hl.
    destruct (tryBlock _ _ _ _ _ _ _) as [ev [[res sz]|e]]; cbn [fst] in Hl.
    + rewrite Hl. discriminate.
    + match goal with |- context [FreeApp.onError e ?a1] =>
        pose proof (free_onError_text e a1) as Ho;
        destruct (FreeApp.onError e a1) as [a2 o] end.
      rewrite logged_app, Hl. cbn. intros [= <-].
      destruct Ho as (msg & -> & Hs & Hk & Hb & Hn). exists msg.
      split; [reflexivity|]. split; [now rewrite Hs|]. repeat split; assumption.
Qed.

Lemma published_error_text_witness :
  let err := {| message := Some "Too Many Requests"; status := Some 429%Z |} in
  let svc := fixedServices (Rejected err) (Resolved "unused") in
  let '(a', _, _) := GatedApp.handleTryOn svc sampleReady in
  error (state a') = Some "Too Many Requests".
Proof.
  intros err svc.
  pose proof (published_error_text svc sampleReady "data:image/jpeg;base64,AAAA"
                sampleProduct err (conj eq_refl (conj eq_refl eq_refl))) as [HG _].
  destruct (GatedApp.handleTryOn svc sampleReady) as [[a' ev] o] eqn:E.
  vm_compute in E. injection E as <- <- <-.
  destruct (HG eq_refl) as (msg & _ & He & _ & Hn).
  destruct Hn as (_ & _ & Hraw); [discriminate|].
  rewrite He, Hraw; [reflexivity|].
  intros Hc. apply messageIncludes_carries in Hc. discriminate Hc.
Defined.

(** ** The applications wired to their services *)

Section SuccessFacts.
Variable svc : services.

Lemma gated_success_inv (a a' : AppState) (ev : list appEvent) (c s : string) :
  GatedApp.handleTryOn svc a = (a', ev, Succeeded c s) ->
  exists user product productBase64,
    ready a user product
    /\ call_urlToBase64 svc (imageUrl product) = Resolved productBase64
    /\ call_estimateSizeFromImage svc user (name product) = Resolved s
    /\ call_performVirtualTryOn svc user productBase64 product = Resolved c
    /\ resultImage (state a') = Some c /\ recommendedSize (state a') = Some s.
Proof.
  unfold GatedApp.handleTryOn.
  destruct (userImage (state a)) as [user|] eqn:Hu; [|discriminate].
  destruct (selectedProduct (state a)) as [product|] eqn:Hp; [|discriminate].
  destruct (truthy user) eqn:Ht; cbn [negb]; [|discriminate].
  destruct (tryBlock_cases svc "Lade High-End-Modell..." "Analysiere Proportionen..."
              "Generiere Foto-Realismus..." 1000 user product)
    as [(pb & res & sz & H1 & H2 & H3 & Hr)|(err & _ & Hr)];
    destruct (tryBlock _ _ _ _ _ _ _) as [ev0 r]; cbn [snd] in Hr; subst r.
  - intros [= <- <- <- <-]. exists user, product, pb. unfold ready. cbn. auto 10.
  - destruct (gated_onError_publishes err
                {| state := startLoading (state a); hasKey := hasKey a;
                   loadingStep := lastStage ev0 (loadingStep a); step := 3 |})
      as (msg & a2 & -> & _). discriminate.
Qed.

Lemma free_success_inv (a a' : AppState) (ev : list appEvent) (c s : string) :
  FreeApp.handleTryOn svc a = (a', ev, Succeeded c s) ->
  exists user product productBase64,
    ready a user product
    /\ call_urlToBase64 svc (imageUrl product) = Resolved productBase64
    /\ call_estimateSizeFromImage svc user (name product) = Resolved s
    /\ call_performVirtualTryOn svc user productBase64 product = Resolved c
    /\ resultImage (state a') = Some c /\ recommendedSize (state a') = Some s.
Proof.
  unfold FreeApp.handleTryOn.
  destruct (userImage (state a)) as [user|] eqn:Hu; [|discriminate].
  destruct (selectedProduct (state a)) as [product|] eqn:Hp; [|discriminate].
  destruct (truthy user) eqn:Ht; cbn [negb]; [|discriminate].
  destruct (tryBlock_cases svc "Produkt wird geladen..." "Größe wird berechnet..."
              "Look wird gerendert..." 1200 user product)
    as [(pb & res & sz & H1 & H2 & H3 & Hr)|(err & _ & Hr)];
    destruct (tryBlock _ _ _ _ _ _ _) as [ev0 r]; cbn [snd] in Hr; subst r.
  - intros [= <- <- <- <-]. exists user, product, pb. unfold ready. cbn. auto 10.
  - destruct (free_onError_publishes err
                {| state := startLoading (state a); hasKey := hasKey a;
                   loadingStep := lastStage ev0 (loadingStep a); step := 3 |})
      as (msg & a2 & -> & _). discriminate.
Qed.

End SuccessFacts.

Section SizeCallFacts.
Variable W : Type.
Variable env : ops W.
Variable TEXT_MODEL : string.

Lemma gated_size_resolved (user productName : string) (w : W) (s : string) :
  fst (fst (Gated.estimateSizeFromImage W env TEXT_MODEL user productName w)) = Resolved s ->
  In s ["XS"; "S"; "M"; "L"].
Proof.
  intros H. apply gated_resolved_from_fn in H as (w0 & w1 & H).
  unfold Gated.estimateSizeAttempt, await, ret in H.
  destruct (optimizeImageIO env user _ w0) as [[opt|e] w2]; [|discriminate].
  destruct (generateContent env _ w2) as [[r|e] w3]; [|discriminate].
  injection H as <- _. apply parseSize_range.
Qed.

Lemma free_size_resolved (user productName : string) (w : W) (s : string) :
  fst (fst (Free.estimateSizeFromImage W env TEXT_MODEL user productName w)) = Resolved s ->
  In s ["XS"; "S"; "M"; "L"].
Proof.
  intros H. apply free_resolved_from_fn in H as (w0 & w1 & H).
  unfold Free.estimateSizeAttempt, await, ret in H.
  destruct (optimizeImageIO env user _ w0) as [[opt|e] w2]; [|discriminate].
  destruct (generateContent env _ w2) as [[r|e] w3]; [|discriminate].
  injection H as <- _. apply parseSize_range.
Qed.

End SizeCallFacts.

(** X12. Whatever the decoder and the backend do: when an attempt
    succeeds in either application wired to its service file, the
    published size is one of XS, S, M, L and the published image is a
    data URI that starts with "data:image/jpeg;base64,"; both are in the
    state together. *)
Theorem published_result_is_well_formed
    (W : Type) (env : ops W) (encodeURIComponent : string -> string)
    (load : string -> decoded) (ctx : bool) (TEXT_MODEL IMAGE_MODEL : string)
    (w0 : W) (a : AppState) (composite size : string) :
  (let '(a', _, o) :=
     GatedApp.handleTryOn
       (gatedServices W env encodeURIComponent load ctx TEXT_MODEL IMAGE_MODEL w0) a in
   o = Succeeded composite size ->
   In size ["XS"; "S"; "M"; "L"]
   /\ startsWith composite "data:image/jpeg;base64," = true
   /\ resultImage (state a') = Some composite
   /\ recommendedSize (state a') = Some size)
  /\
  (let '(a', _, o) :=
     FreeApp.handleTryOn
       (freeServices W env encodeURIComponent load ctx TEXT_MODEL IMAGE_MODEL w0) a in
   o = Succeeded composite size ->
   In size ["XS"; "S"; "M"; "L"]
   /\ startsWith composite "data:image/jpeg;base64," = true
   /\ resultImage (state a') = Some composite
   /\ recommendedSize (state a') = Some size).
Proof.
  assert (Hpre : forall d, startsWith (jpegDataUriPrefix ++ d) "data:image/jpeg;base64," = true).
  { intros d. unfold startsWith. apply prefix_app. now exists d. }
  split.
  - destruct (GatedApp.handleTryOn _ a) as [[a' ev] o] eqn:E. intros ->.
    apply gated_success_inv in E as (user & product & pb & _ & _ & H2 & H3 & Hr & Hs).
    cbn [gatedServices call_estimateSizeFromImage call_performVirtualTryOn] in H2, H3.
    split; [eapply gated_size_resolved; eauto|]. split; [|auto].
    apply gated_resolved_from_fn in H3 as (w1 & w2 & H3).
    apply gated_attempt_resolved in H3 as [r H3].
    apply inspectResponseWith_resolved in H3 as (d & _ & ->). apply Hpre.
  - destruct (FreeApp.handleTryOn _ a) as [[a' ev] o] eqn:E. intros ->.
    apply free_success_inv in E as (user & product & pb & _ & _ & H2 & H3 & Hr & Hs).
    cbn [freeServices call_estimateSizeFromImage call_performVirtualTryOn] in H2, H3.
    split; [eapply free_size_resolved; eauto|]. split; [|auto].
    apply free_resolved_from_fn in H3 as (w1 & w2 & H3).
    apply free_attempt_resolved in H3 as [r H3].
    apply inspectResponseWith_resolved in H3 as (d & _ & ->). apply Hpre.
Qed.

Lemma published_result_is_well_formed_witness :
  let r := {| response_text := Some "xl";
              candidates := candidates
                (singleCandidate "STOP" [blobPart (Some "QUJD") (Some "image/png")]) |} in
  let env := constantWorld (OnLoad 600 800) "data:image/jpeg;base64,AAAA" (Resolved r) in
  let '(a', _, o) :=
    GatedApp.handleTryOn
      (gatedServices unit env (fun u => u) (fun _ => OnError) true "text-model"
         "image-model" tt) sampleReady in
  o = Succeeded "data:image/jpeg;base64,QUJD" "L"
  /\ recommendedSize (state a') = Some "L".
Proof.
  intros r env.
  pose proof (published_result_is_well_formed unit env (fun u => u) (fun _ => OnError)
                true "text-model" "image-model" tt sampleReady
                "data:image/jpeg;base64,QUJD" "L") as [HG _].
  destruct (GatedApp.handleTryOn _ sampleReady) as [[a' ev] o] eqn:E.
  vm_compute in E. injection E as <- <- <-.
  split; [reflexivity|]. exact (proj2 (proj2 (proj2 (HG eq_refl)))).
Defined.

(** X13. The credential signal from the backend to the screen.  When the
    product image was obtained, the user image normalised, and the
    backend rejects the size request with an error whose message carries
    the entity-not-found phrase: the gated application, wired to its
    service, ends the attempt after the size call with [KEY_NOT_FOUND]
    logged, clears [hasKey] and shows the key re-selection text.  The free
    application, if that error matches none of its retryable patterns,
    ends the attempt after the size call as well, but leaves [hasKey]
    alone and shows the backend's own message. *)
Theorem credential_signal_end_to_end
    (W : Type) (env : ops W) (encodeURIComponent : string -> string)
    (load : string -> decoded) (ctx : bool) (TEXT_MODEL IMAGE_MODEL : string)
    (w0 w1 w2 : W) (a : AppState) (user : string) (product : Product)
    (productBase64 optimized : string) (e : JS.error) :
  ready a user product ->
  productImage W env encodeURIComponent load ctx (imageUrl product)
    = Resolved productBase64 ->
  optimizeImageIO env user (inject_Z 800) w0 = (Resolved optimized, w1) ->
  (forall req, generateContent env req w1 = (Rejected e, w2)) ->
  carries Gated.entityNotFoundPhrase e ->
  (let '(a', ev, o) :=
     GatedApp.handleTryOn
       (gatedServices W env encodeURIComponent load ctx TEXT_MODEL IMAGE_MODEL w0) a in
   o = Failed "Bitte wähle deinen API Key erneut aus."
   /\ hasKey a' = Some false
   /\ error (state a') = Some "Bitte wähle deinen API Key erneut aus."
   /\ calls ev = ["urlToBase64"; "estimateSizeFromImage"]
   /\ logged ev = [Gated.keyNotFound])
  /\
  (Free.isRetryable e = false ->
   let '(a', ev, o) :=
     FreeApp.handleTryOn
       (freeServices W env encodeURIComponent load ctx TEXT_MODEL IMAGE_MODEL w0) a in
   hasKey a' = hasKey a
   /\ calls ev = ["urlToBase64"; "estimateSizeFromImage"]
   /\ logged ev = [e]
   /\ exists m, message e = Some m /\ o = Failed m /\ error (state a') = Some m).
Proof.
  intros (Hu & Ht & Hp) Hprod Hopt Hgen Hc.
  pose proof Hc as Hm. apply messageIncludes_carries in Hm.
  split.
  - assert (Hest : Gated.estimateSizeFromImage W env TEXT_MODEL user (name product) w0
                   = (Rejected Gated.keyNotFound, w2, [Invoke (Rejected e)])).
    { unfold Gated.estimateSizeFromImage. apply gated_step_key; [|exact Hm].
      unfold Gated.estimateSizeAttempt, await. now rewrite Hopt, Hgen. }
    unfold GatedApp.handleTryOn. rewrite Hu, Hp, Ht. cbn [negb]. unfold tryBlock.
    cbn [gatedServices call_urlToBase64 call_estimateSizeFromImage].
    rewrite Hprod, Hest. cbn. auto.
  - intros Hr.
    assert (Hest : Free.estimateSizeFromImage W env TEXT_MODEL user (name product) w0
                   = (Rejected e, w2, [Invoke (Rejected e)])).
    { unfold Free.estimateSizeFromImage. apply free_step_stop; [|now left].
      unfold Free.estimateSizeAttempt, await. now rewrite Hopt, Hgen. }
    assert (H429 : ~ carries "429" e).
    { intros H. assert (Free.isRetryable e = true); [|congruence].
      apply free_isRetryable_spec. now left. }
    unfold FreeApp.handleTryOn. rewrite Hu, Hp, Ht. cbn [negb]. unfold tryBlock.
    cbn [freeServices call_urlToBase64 call_estimateSizeFromImage].
    rewrite Hprod, Hest. cbn [fst snd].
    pose proof (free_onError_text e
                  {| state := startLoading (state a); hasKey := hasKey a;
                     loadingStep :=
                       lastStage [Stage "Produkt wird geladen..."; Called "urlToBase64";
                                  Stage "Größe wird berechnet...";
                                  Called "estimateSizeFromImage"] (loadingStep a);
                     step := 3 |}) as Ho.
    destruct (FreeApp.onError e _) as [a2 o].
    destruct Ho as (msg & -> & Hs & Hk & _ & Hraw).
    split; [exact Hk|]. split; [reflexivity|]. split; [reflexivity|].
    destruct Hc as (m & Hmsg & Hocc). exists m. split; [exact Hmsg|].
    assert (Hmm : msg = m).
    { rewrite (Hraw H429). unfold messageOr. rewrite Hmsg.
      destruct m as [|c m]; [|reflexivity].
      destruct Hocc as ([|? ?] & ? & Hx); discriminate Hx. }
    subst msg. split; [reflexivity|]. now rewrite Hs.
Qed.

Lemma credential_signal_end_to_end_witness :
  let e := Error "Requested entity was not found." in
  let env := constantWorld (OnLoad 600 800) "data:image/jpeg;base64,AAAA" (Rejected e) in
  let '(a', _, o) :=
    GatedApp.handleTryOn
      (gatedServices unit env (fun u => u) (fun _ => OnError) true "text-model"
         "image-model" tt) sampleReady in
  hasKey a' = Some false /\ o = Failed "Bitte wähle deinen API Key erneut aus.".
Proof.
  intros e env.
  assert (Hc : carries Gated.entityNotFoundPhrase e).
  { exists "Requested entity was not found.". split; [reflexivity | now exists "", "."]. }
  pose proof (credential_signal_end_to_end unit env (fun u => u) (fun _ => OnError) true
                "text-model" "image-model" tt tt tt sampleReady
                "data:image/jpeg;base64,AAAA" sampleProduct
                "data:image/png;base64,iVBORw0KGgo=" "data:image/jpeg;base64,AAAA" e
                (conj eq_refl (conj eq_refl eq_refl)) eq_refl eq_refl
                (fun _ => eq_refl) Hc) as [HG _].
  destruct (GatedApp.handleTryOn _ sampleReady) as [[a' ev] o].
  destruct HG as (Ho & Hk & _). split; assumption.
Defined.

(** X14. A safety rejection from the backend to the screen.  When the
    product image was obtained, the size call resolved, both images were
    normalised for the composite call and the backend answers it with
    finish reason SAFETY: either application, wired to its service, shows
    that release's safety text, publishes neither the composite nor the
    size already estimated, and leaves [hasKey] alone. *)
Theorem safety_rejection_end_to_end
    (W : Type) (env : ops W) (encodeURIComponent : string -> string)
    (load : string -> decoded) (ctx : bool) (TEXT_MODEL IMAGE_MODEL : string)
    (w0 w1 w2 w3 w4 : W) (a : AppState) (user : string) (product : Product)
    (productBase64 size optUser optProduct : string) (r : response) :
  ready a user product ->
  productImage W env encodeURIComponent load ctx (imageUrl product)
    = Resolved productBase64 ->
  optimizeImageIO env user (inject_Z 1024) w1 = (Resolved optUser, w2) ->
  optimizeImageIO env productBase64 (inject_Z 1024) w2 = (Resolved optProduct, w3) ->
  (forall req, generateContent env req w3 = (Resolved r, w4)) ->
  blockedForSafety r = true ->
  (forall tr,
      Gated.estimateSizeFromImage W env TEXT_MODEL user (name product) w0
        = (Resolved size, w1, tr) ->
      let '(a', ev, o) :=
        GatedApp.handleTryOn
          (gatedServices W env encodeURIComponent load ctx TEXT_MODEL IMAGE_MODEL w0) a in
      o = Failed Gated.safetyMessage
      /\ error (state a') = Some Gated.safetyMessage
      /\ resultImage (state a') = resultImage (state a)
      /\ recommendedSize (state a') = recommendedSize (state a)
      /\ hasKey a' = hasKey a
      /\ logged ev = [Error Gated.safetyMessage])
  /\
  (forall tr,
      Free.estimateSizeFromImage W env TEXT_MODEL user (name product) w0
        = (Resolved size, w1, tr) ->
      let '(a', ev, o) :=
        FreeApp.handleTryOn
          (freeServices W env encodeURIComponent load ctx TEXT_MODEL IMAGE_MODEL w0) a in
      o = Failed Free.safetyMessage
      /\ error (state a') = Some Free.safetyMessage
      /\ resultImage (state a') = resultImage (state a)
      /\ recommendedSize (state a') = recommendedSize (state a)
      /\ hasKey a' = hasKey a
      /\ logged ev = [Error Free.safetyMessage]).
Proof.
  intros (Hu & Ht & Hp) Hprod Ho1 Ho2 Hgen Hb.
  split; intros tr Hest.
  - assert (Hrun : Gated.performVirtualTryOn W env IMAGE_MODEL user productBase64 product w1
                   = (Rejected (Error Gated.safetyMessage), w4,
                      [Invoke (Rejected (Error Gated.safetyMessage))])).
    { assert (Hi : Gated.inspectResponse r = Rejected (Error Gated.safetyMessage)).
      { unfold Gated.inspectResponse, inspectResponseWith. now rewrite Hb. }
      rewrite <- Hi. apply gated_inspection_is_final.
      eapply gated_attempt_inspects; eauto. }
    unfold GatedApp.handleTryOn. rewrite Hu, Hp, Ht. cbn [negb]. unfold tryBlock.
    cbn [gatedServices call_urlToBase64 call_estimateSizeFromImage call_performVirtualTryOn].
    rewrite Hprod, Hest. cbn [fst snd]. rewrite Hrun. cbn. auto 10.
  - assert (Hrun : Free.performVirtualTryOn W env IMAGE_MODEL user productBase64 product w1
                   = (Rejected (Error Free.safetyMessage), w4,
                      [Invoke (Rejected (Error Free.safetyMessage))])).
    { assert (Hi : Free.inspectResponse r = Rejected (Error Free.safetyMessage)).
      { unfold Free.inspectResponse, inspectResponseWith. now rewrite Hb. }
      rewrite <- Hi. apply free_inspection_is_final.
      eapply free_attempt_inspects; eauto. }
    unfold FreeApp.handleTryOn. rewrite Hu, Hp, Ht. cbn [negb]. unfold tryBlock.
    cbn [freeServices call_urlToBase64 call_estimateSizeFromImage call_performVirtualTryOn].
    rewrite Hprod, Hest. cbn [fst snd]. rewrite Hrun. cbn. auto 10.
Qed.

Lemma safety_rejection_end_to_end_witness :
  let r := singleCandidate "SAFETY" [] in
  let env := constantWorld (OnLoad 600 800) "data:image/jpeg;base64,AAAA" (Resolved r) in
  let '(a', _, o) :=
    FreeApp.handleTryOn
      (freeServices unit env (fun u => u) (fun _ => OnError) true "text-model"
         "image-model" tt) sampleReady in
  o = Failed Free.safetyMessage /\ recommendedSize (state a') = None.
Proof.
  intros r env.
  pose proof (safety_rejection_end_to_end unit env (fun u => u) (fun _ => OnError) true
                "text-model" "image-model" tt tt tt tt tt sampleReady
                "data:image/jpeg;base64,AAAA" sampleProduct
                "data:image/png;base64,iVBORw0KGgo=" "M"
                "data:image/jpeg;base64,AAAA" "data:image/jpeg;base64,AAAA" r
                (conj eq_refl (conj eq_refl eq_refl)) eq_refl eq_refl eq_refl
                (fun _ => eq_refl) eq_refl) as [_ HF].
  specialize (HF [Invoke (Resolved "M")] eq_refl).
  destruct (FreeApp.handleTryOn _ sampleReady) as [[a' ev] o].
  destruct HF as (Ho & _ & _ & Hs & _). split; [exact Ho | exact Hs].
Defined.

Section SameErrorFacts.
Variables T W : Type.
Variable fn : async W T.
Variable e : JS.error.
Hypothesis Hfail : forall w, exists w', fn w = (Rejected e, w').

Lemma gated_same_error (retries : nat) (delay : Z) (w : W) :
  Gated.isRetryable e = true ->
  messageIncludes e Gated.entityNotFoundPhrase = false ->
  fst (fst (Gated.fetchWithRetry T W fn retries delay w)) = Rejected e
  /\ snd (Gated.fetchWithRetry T W fn retries delay w)
     = retryTrace (repeat e retries) delay (Rejected e).
Proof.
  intros Hr Hm. revert delay w; induction retries as [|n IH]; intros delay w;
    cbn [Gated.fetchWithRetry]; destruct (Hfail w) as [w' Hw]; rewrite Hw, Hm.
  - split; reflexivity.
  - rewrite Hr. destruct (IH (delay * 2)%Z w') as [H1 H2].
    destruct (Gated.fetchWithRetry T W fn n (delay * 2) w') as [[o w''] tr].
    cbn in *. subst. split; reflexivity.
Qed.

Lemma free_same_error (retries : nat) (delay : Z) (w : W) :
  Free.isRetryable e = true ->
  fst (fst (Free.fetchWithRetry T W fn retries delay w)) = Rejected e
  /\ snd (Free.fetchWithRetry T W fn retries delay w)
     = retryTrace (repeat e retries) delay (Rejected e).
Proof.
  intros Hr. revert delay w; induction retries as [|n IH]; intros delay w;
    cbn [Free.fetchWithRetry]; destruct (Hfail w) as [w' Hw]; rewrite Hw.
  - split; reflexivity.
  - rewrite Hr. destruct (IH (delay * 2)%Z w') as [H1 H2].
    destruct (Free.fetchWithRetry T W fn n (delay * 2) w') as [[o w''] tr].
    cbn in *. subst. split; reflexivity.
Qed.

End SameErrorFacts.

(** X15. Rate limiting from the backend to the screen.  When the product
    image was obtained and every invocation of the size operation fails
    with an error [e] whose message contains "429" (and not the
    entity-not-found phrase): the size call is invoked three times with
    timers of 2000ms and 4000ms, the composite is never requested, and
    either application, wired to its service, shows its fixed busy text
    instead of the backend's message. *)
Theorem rate_limit_end_to_end
    (W : Type) (env : ops W) (encodeURIComponent : string -> string)
    (load : string -> decoded) (ctx : bool) (TEXT_MODEL IMAGE_MODEL : string)
    (w0 : W) (a : AppState) (user : string) (product : Product)
    (productBase64 : string) (e : JS.error) :
  ready a user product ->
  productImage W env encodeURIComponent load ctx (imageUrl product)
    = Resolved productBase64 ->
  carries "429" e ->
  ~ carries Gated.entityNotFoundPhrase e ->
  ((forall w, exists w',
       Gated.estimateSizeAttempt W env TEXT_MODEL user (name product) w = (Rejected e, w')) ->
   (let tr := snd (Gated.estimateSizeFromImage W env TEXT_MODEL user (name product) w0) in
    invocations tr = 3%nat /\ sleeps tr = [2000%Z; 4000%Z])
   /\
   (let '(a', ev, o) :=
      GatedApp.handleTryOn
        (gatedServices W env encodeURIComponent load ctx TEXT_MODEL IMAGE_MODEL w0) a in
    o = Failed "Die KI ist gerade ausgelastet. Bitte warte einen Moment."
    /\ error (state a') = Some "Die KI ist gerade ausgelastet. Bitte warte einen Moment."
    /\ hasKey a' = hasKey a
    /\ calls ev = ["urlToBase64"; "estimateSizeFromImage"]))
  /\
  ((forall w, exists w',
       Free.estimateSizeAttempt W env TEXT_MODEL user (name product) w = (Rejected e, w')) ->
   (let tr := snd (Free.estimateSizeFromImage W env TEXT_MODEL user (name product) w0) in
    invocations tr = 3%nat /\ sleeps tr = [2000%Z; 4000%Z])
   /\
   (let '(a', ev, o) :=
      FreeApp.handleTryOn
        (freeServices W env encodeURIComponent load ctx TEXT_MODEL IMAGE_MODEL w0) a in
    o = Failed "Server ausgelastet. Bitte kurz warten."
    /\ error (state a') = Some "Server ausgelastet. Bitte kurz warten."
    /\ calls ev = ["urlToBase64"; "estimateSizeFromImage"])).
Proof.
  intros (Hu & Ht & Hp) Hprod H429 Hnp.
  assert (Hm : messageIncludes e Gated.entityNotFoundPhrase = false).
  { destruct (messageIncludes e _) eqn:Hm; [|reflexivity].
    now apply messageIncludes_carries in Hm. }
  assert (Hkey : message e <> Some "KEY_NOT_FOUND").
  { intros Hk. destruct H429 as (m & Hmsg & Hocc). rewrite Hk in Hmsg.
    injection Hmsg as <-. apply includes_occurs in Hocc. discriminate Hocc. }
  split; intros Hfail.
  - destruct (gated_same_error string W _ e Hfail 2 2000 w0) as [Hres Htr];
      [apply gated_isRetryable_spec; now left | exact Hm |].
    split.
    + cbv zeta. unfold Gated.estimateSizeFromImage. rewrite Htr. split; reflexivity.
    + unfold GatedApp.handleTryOn. rewrite Hu, Hp, Ht. cbn [negb]. unfold tryBlock.
      cbn [gatedServices call_urlToBase64 call_estimateSizeFromImage].
      rewrite Hprod. unfold Gated.estimateSizeFromImage. rewrite Hres. cbn [fst snd].
      match goal with |- context [GatedApp.onError e ?a1] =>
        pose proof (gated_onError_text e a1) as Ho;
        destruct (GatedApp.onError e a1) as [a2 o] end.
      destruct Ho as (msg & -> & Hs & _ & Hn).
      destruct (Hn Hkey) as (Hk & Hbusy & _). rewrite (Hbusy H429) in *.
      split; [reflexivity|]. split; [now rewrite Hs|]. split; [exact Hk | reflexivity].
  - destruct (free_same_error string W _ e Hfail 2 2000 w0) as [Hres Htr];
      [apply free_isRetryable_spec; now left |].
    split.
    + cbv zeta. unfold Free.estimateSizeFromImage. rewrite Htr. split; reflexivity.
    + unfold FreeApp.handleTryOn. rewrite Hu, Hp, Ht. cbn [negb]. unfold tryBlock.
      cbn [freeServices call_urlToBase64 call_estimateSizeFromImage].
      rewrite Hprod. unfold Free.estimateSizeFromImage. rewrite Hres. cbn [fst snd].
      match goal with |- context [FreeApp.onError e ?a1] =>
        pose proof (free_onError_text e a1) as Ho;
        destruct (FreeApp.onError e a1) as [a2 o] end.
      destruct Ho as (msg & -> & Hs & _ & Hbusy & _). rewrite (Hbusy H429) in *.
      split; [reflexivity|]. split; [now rewrite Hs | reflexivity].
Qed.

Lemma rate_limit_end_to_end_witness :
  let e := Error "429 RESOURCE_EXHAUSTED" in
  let env := constantWorld (OnLoad 600 800) "data:image/jpeg;base64,AAAA" (Rejected e) in
  let '(a', ev, _) :=
    FreeApp.handleTryOn
      (freeServices unit env (fun u => u) (fun _ => OnError) true "text-model"
         "image-model" tt) sampleReady in
  error (state a') = Some "Server ausgelastet. Bitte kurz warten."
  /\ calls ev = ["urlToBase64"; "estimateSizeFromImage"].
Proof.
  intros e env.
  assert (H429 : carries "429" e).
  { exists "429 RESOURCE_EXHAUSTED". split; [reflexivity | now exists "", " RESOURCE_EXHAUSTED"]. }
  assert (Hnp : ~ carries Gated.entityNotFoundPhrase e).
  { intros Hc. apply messageIncludes_carries in Hc. discriminate Hc. }
  pose proof (rate_limit_end_to_end unit env (fun u => u) (fun _ => OnError) true
                "text-model" "image-model" tt sampleReady
                "data:image/jpeg;base64,AAAA" sampleProduct
                "data:image/png;base64,iVBORw0KGgo=" e
                (conj eq_refl (conj eq_refl eq_refl)) eq_refl H429 Hnp) as [_ HF].
  assert (Hfail : forall w : unit, exists w' : unit,
             Free.estimateSizeAttempt unit env "text-model" "data:image/jpeg;base64,AAAA"
               (name sampleProduct) w = (Rejected e, w')).
  { intros []. exists tt. reflexivity. }
  destruct (HF Hfail) as [_ Happ].
  destruct (FreeApp.handleTryOn _ sampleReady) as [[a' ev] o].
  destruct Happ as (_ & He & Hc). split; assumption.
Defined.

(** X16. A product image that cannot be loaded ends the attempt at once.
    For a product whose image URL is not a data URL: when the decoder
    reports an error for the proxy URL, either application shows
    "Produktbild Fehler"; when the decoder loads the image and no 2D
    context is available, either application shows "Canvas fail".  In
    both cases no other service is called: neither the size nor the
    composite is requested. *)
Theorem product_image_failure_end_to_end
    (W : Type) (env : ops W) (encodeURIComponent : string -> string)
    (load : string -> decoded) (ctx : bool) (TEXT_MODEL IMAGE_MODEL : string)
    (w0 : W) (a : AppState) (user : string) (product : Product) :
  ready a user product ->
  startsWith (imageUrl product) "data:" = false ->
  (load (proxyUrl encodeURIComponent (imageUrl product)) = OnError ->
   (let '(a', ev, o) :=
      GatedApp.handleTryOn
        (gatedServices W env encodeURIComponent load ctx TEXT_MODEL IMAGE_MODEL w0) a in
    o = Failed "Produktbild Fehler" /\ error (state a') = Some "Produktbild Fehler"
    /\ calls ev = ["urlToBase64"] /\ hasKey a' = hasKey a)
   /\ (let '(a', ev, o) :=
         FreeApp.handleTryOn
           (freeServices W env encodeURIComponent load ctx TEXT_MODEL IMAGE_MODEL w0) a in
       o = Failed "Produktbild Fehler" /\ error (state a') = Some "Produktbild Fehler"
       /\ calls ev = ["urlToBase64"]))
  /\
  (forall w h : N,
     load (proxyUrl encodeURIComponent (imageUrl product)) = OnLoad w h ->
     ctx = false ->
     (let '(a', ev, o) :=
        GatedApp.handleTryOn
          (gatedServices W env encodeURIComponent load ctx TEXT_MODEL IMAGE_MODEL w0) a in
      o = Failed "Canvas fail" /\ error (state a') = Some "Canvas fail"
      /\ calls ev = ["urlToBase64"] /\ hasKey a' = hasKey a)
     /\ (let '(a', ev, o) :=
           FreeApp.handleTryOn
             (freeServices W env encodeURIComponent load ctx TEXT_MODEL IMAGE_MODEL w0) a in
         o = Failed "Canvas fail" /\ error (state a') = Some "Canvas fail"
         /\ calls ev = ["urlToBase64"])).
Proof.
  intros (Hu & Ht & Hp) Hd.
  assert (Hend : forall msg,
             productImage W env encodeURIComponent load ctx (imageUrl product)
             = Rejected (Error msg) ->
             msg = "Produktbild Fehler" \/ msg = "Canvas fail" ->
             (let '(a', ev, o) :=
                GatedApp.handleTryOn
                  (gatedServices W env encodeURIComponent load ctx TEXT_MODEL IMAGE_MODEL w0) a in
              o = Failed msg /\ error (state a') = Some msg
              /\ calls ev = ["urlToBase64"] /\ hasKey a' = hasKey a)
             /\ (let '(a', ev, o) :=
                   FreeApp.handleTryOn
                     (freeServices W env encodeURIComponent load ctx TEXT_MODEL IMAGE_MODEL w0) a in
                 o = Failed msg /\ error (state a') = Some msg
                 /\ calls ev = ["urlToBase64"])).
  { intros msg Hprod Hmsg. split.
    - unfold GatedApp.handleTryOn. rewrite Hu, Hp, Ht. cbn [negb]. unfold tryBlock.
      cbn [gatedServices call_urlToBase64]. rewrite Hprod.
      destruct Hmsg as [-> | ->]; cbn; auto.
    - unfold FreeApp.handleTryOn. rewrite Hu, Hp, Ht. cbn [negb]. unfold tryBlock.
      cbn [freeServices call_urlToBase64]. rewrite Hprod.
      destruct Hmsg as [-> | ->]; cbn; auto. }
  split.
  - intros Hload. apply Hend; [|now left].
    unfold productImage, urlToBase64. rewrite Hd, Hload. reflexivity.
  - intros w h Hload Hctx. apply Hend; [|now right].
    unfold productImage, urlToBase64. rewrite Hd, Hload, Hctx. reflexivity.
Qed.

Lemma product_image_failure_end_to_end_witness :
  let env := constantWorld (OnLoad 600 800) "data:image/jpeg;base64,AAAA"
               (Rejected (Error "unused")) in
  let product := {| id := "2"; name := "Set"; description := "Two-piece set";
                    imageUrl := "https://shop.example/set.png" |} in
  let a := {| state := {| userImage := Some "data:image/jpeg;base64,AAAA";
                          selectedProduct := Some product;
                          resultImage := None; recommendedSize := None;
                          isLoading := false; error := None |};
              hasKey := Some true; loadingStep := ""; step := 2 |} in
  (let '(a', ev, _) :=
     GatedApp.handleTryOn
       (gatedServices unit env (fun u => u) (fun _ => OnError) true "text-model"
          "image-model" tt) a in
   error (state a') = Some "Produktbild Fehler" /\ calls ev = ["urlToBase64"])
  /\
  (let '(a', ev, _) :=
     FreeApp.handleTryOn
       (freeServices unit env (fun u => u) (fun _ => OnLoad 600 800) false "text-model"
          "image-model" tt) a in
   error (state a') = Some "Canvas fail" /\ calls ev = ["urlToBase64"]).
Proof.
  intros env product a. split.
  - pose proof (proj1 (proj1 (product_image_failure_end_to_end unit env (fun u => u)
                  (fun _ => OnError) true "text-model" "image-model" tt a
                  "data:image/jpeg;base64,AAAA" product
                  (conj eq_refl (conj eq_refl eq_refl)) eq_refl) eq_refl)) as HG.
    vm_compute in HG. vm_compute.
    destruct HG as (_ & He & Hc & _). split; assumption.
  - pose proof (proj2 (proj2 (product_image_failure_end_to_end unit env (fun u => u)
                  (fun _ => OnLoad 600 800) false "text-model" "image-model" tt a
                  "data:image/jpeg;base64,AAAA" product
                  (conj eq_refl (conj eq_refl eq_refl)) eq_refl) 600%N 800%N eq_refl eq_refl))
      as HF.
    vm_compute in HF. vm_compute.
    destruct HF as (_ & He & Hc). split; assumption.
Defined.
